(** * Ordered delivery of synthesized speech: TTSTaskManager and stream_audio

    A shallow embedding of
      - [src/open_llm_vtuber/utils/stream_audio.py]
          ([_get_volume_by_chunks], [prepare_audio_payload]),
      - [src/open_llm_vtuber/conversations/tts_manager.py]
          (class [TTSTaskManager]),
      - [src/open_llm_vtuber/conversations/single_conversation.py]
          ([process_single_conversation]: its "wait for pending TTS tasks"
          step on the state of the manager, and the whole turn on the trace
          of its calls),
      - [src/open_llm_vtuber/tts/edge_tts.py]
          ([TTSEngine.generate_audio], [TTSEngine.remove_file]),
      - [src/open_llm_vtuber/agent/agent_factory.py]
          ([AgentFactory.create_agent]),
      - [src/open_llm_vtuber/agent/stateless_llm/ollama_native_llm.py]
          ([OllamaNativeLLM.chat_completion]),
    and the properties of the delivery pipeline and of its surroundings
    proved about it.

    Conventions.  A Python [str] is the list of its Unicode code points.
    Python exceptions are values of [exn] carried by [result].  The asyncio
    event loop is modelled by explicit state passing: every coroutine is cut
    at its suspension points into atomic transitions of a [World]. *)

From Stdlib Require Import QArith DecimalString.
From stdpp Require Import gmap strings list fin_maps.

Set Default Proof Using "Type".
Open Scope string_scope.
Open Scope list_scope.
Open Scope nat_scope.

(** ** Python values and exceptions *)

Definition codepoint := N.
Definition text := list codepoint.

(** A [str] literal of ASCII characters as a list of code points. *)
Definition text_of_string (s : string) : text :=
  map Ascii.N_of_ascii (String.list_ascii_of_string s).

(** The exceptions (all subclasses of [Exception]) that the modelled code
    raises or catches.  Task cancellation ([asyncio.CancelledError], a
    [BaseException]) is not an [exn]: it is the outcome [Cancelled] of an
    [await], and for the sender task a state of its own. *)
Inductive exn : Type :=
| ValueError (msg : string)
| AttributeError (msg : string)
| TypeError (msg : string)
| OtherException (name msg : string).

Inductive result (A : Type) : Type :=
| Ok (a : A)
| Raise (e : exn).
Arguments Ok {A} a.
Arguments Raise {A} e.

Definition is_Ok {A} (r : result A) : bool :=
  match r with Ok _ => true | Raise _ => false end.

(** What awaiting a coroutine comes to: a value, an exception (a subclass
    of [Exception]), or [asyncio.CancelledError], which is a [BaseException]
    and passes every [except Exception]. *)
Inductive outcome (A : Type) : Type :=
| Returns (a : A)
| Raises (e : exn)
| Cancelled.
Arguments Returns {A} a.
Arguments Raises {A} e.
Arguments Cancelled {A}.

(** A call that is not awaited cannot be cancelled. *)
Definition of_result {A} (r : result A) : outcome A :=
  match r with Ok a => Returns a | Raise e => Raises e end.

(** A value for which [str()] returns, as it is passed where a [str] is
    expected.  [PyObject r] is an object of any other type whose [__str__]
    returns the [str] [r]. *)
Inductive PyObj : Type :=
| PyStr (s : text)
| PyNone
| PyBool (b : bool)
| PyInt (z : Z)
| PyObject (r : text).

(** [isinstance(v, str)] *)
Definition isinstance_str (v : PyObj) : bool :=
  match v with PyStr _ => true | _ => false end.

(** The builtin [str(v)] on these values. *)
Definition py_str (v : PyObj) : text :=
  match v with
  | PyStr s => s
  | PyNone => text_of_string "None"
  | PyBool true => text_of_string "True"
  | PyBool false => text_of_string "False"
  | PyInt z => text_of_string (NilEmpty.string_of_int (Z.to_int z))
  | PyObject r => r
  end.

(** Any object whatsoever, as a caller may pass it for [tts_text]: one of
    the values above, or an object for which [str()] raises [e], either
    because its [__str__] raises [e] or because its [__str__] returns
    something that is not a [str], in which case [e] is the [TypeError]
    "__str__ returned non-string". *)
Inductive PyAny : Type :=
| Printable (v : PyObj)
| Unprintable (e : exn).
Coercion Printable : PyObj >-> PyAny.

(** The builtin [str(v)] on any object. *)
Definition builtin_str (v : PyAny) : result text :=
  match v with
  | Printable v => Ok (py_str v)
  | Unprintable e => Raise e
  end.

(** The builtin [max] on a list of integers: [ValueError] on an empty list. *)
Definition py_max (l : list N) : result N :=
  match l with
  | [] => Raise (ValueError "max() arg is an empty sequence")
  | x :: l' => Ok (foldl N.max x l')
  end.

(** True division [a / b] of two Python integers, as the exact rational
    (Python returns the [float] nearest to it). *)
Definition py_truediv (a b : N) : Q :=
  Qdiv (inject_Z (Z.of_N a)) (inject_Z (Z.of_N b)).

(** ** External collaborators

    Code the repository calls but that is not part of the modelled files:
    pydub's [AudioSegment] with [make_chunks], the [rms] property (a
    non-negative integer), [AudioSegment.from_file] and
    [export(format="wav").read()]; [base64.b64encode(..).decode("utf-8")];
    and the metadata classes [DisplayText] and [Actions] of
    [agent/output_types.py] with their [to_dict] methods.

    [make_chunks audio chunk_length] is the list of chunks that pydub
    returns.  pydub divides the length of the audio by [chunk_length], so
    the call returns only for a chunk length other than 0 (at 0 it raises
    [ZeroDivisionError]); the repository calls it with 20 only.  What is
    said below about the exceptions of a call is said for a chunk length
    other than 0. *)
Class Externals : Type := {
  AudioSegment : Type;
  make_chunks : AudioSegment -> Z -> list AudioSegment;
  rms : AudioSegment -> N;
  from_file : string -> result AudioSegment;
  export_wav : AudioSegment -> result (list N);
  b64encode : list N -> string;
  DisplayText : Type;
  DisplayDict : Type;
  display_to_dict : DisplayText -> DisplayDict;
  Actions : Type;
  ActionsDict : Type;
  actions_to_dict : Actions -> ActionsDict
}.

(** [tts/tts_interface.py]: the synthesis capability handed to [speak].
    [async_generate_audio text file_name_no_ext] returns the path of the
    generated file or raises; [remove_file path] deletes it. *)
Record TTSInterface : Type := mkTTS {
  async_generate_audio : text -> string -> result string;
  remove_file : string -> result unit
}.

Section Model.
Context `{Ext : Externals}.

(** ** stream_audio.py *)

(** The wire payload built by [prepare_audio_payload]; the fields are the keys
    of the returned dict, in order. *)
Record Payload : Type := mkPayload {
  pl_type : string;
  pl_audio : option string;
  pl_volumes : list Q;
  pl_slice_length : Z;
  pl_display_text : option DisplayDict;
  pl_actions : option ActionsDict;
  pl_forwarded : bool
}.

Definition _get_volume_by_chunks (audio : AudioSegment) (chunk_length_ms : Z)
  : result (list Q) :=
  let chunks := make_chunks audio chunk_length_ms in
  let volumes := map rms chunks in
  match py_max volumes with
  | Raise e => Raise e
  | Ok max_volume =>
      if (max_volume =? 0)%N
      then Raise (ValueError "Audio is empty or all zero.")
      else Ok (map (fun volume => py_truediv volume max_volume) volumes)
  end.

(** Truth value of [audio_path]: [None] and the empty string are falsy. *)
Definition path_truthy (audio_path : option string) : bool :=
  match audio_path with
  | None => false
  | Some p => negb (String.eqb p "")
  end.

Definition prepare_audio_payload (audio_path : option string)
    (chunk_length_ms : Z) (display_text : option DisplayDict)
    (actions : option ActionsDict) (forwarded : bool) : result Payload :=
  if negb (path_truthy audio_path)
  then Ok (mkPayload "audio" None [] chunk_length_ms display_text actions forwarded)
  else
    let path := default "" audio_path in
    let loaded :=
      match from_file path with
      | Raise e => Raise e
      | Ok audio =>
          match export_wav audio with
          | Raise e => Raise e
          | Ok audio_bytes => Ok (audio, audio_bytes)
          end
      end in
    match loaded with
    | Raise _ =>
        Raise (ValueError "Error loading or converting generated audio file to wav file")
    | Ok (audio, audio_bytes) =>
        let audio_base64 := b64encode audio_bytes in
        match _get_volume_by_chunks audio chunk_length_ms with
        | Raise e => Raise e
        | Ok volumes =>
            Ok (mkPayload "audio" (Some audio_base64) volumes chunk_length_ms
                  display_text actions forwarded)
        end
    end.

(** The default [chunk_length_ms=20] and [forwarded=False] of the calls in
    [tts_manager.py]. *)
Definition prepare_audio_payload_default (audio_path : option string)
    (display_text : option DisplayDict) (actions : option ActionsDict)
  : result Payload :=
  prepare_audio_payload audio_path 20 display_text actions false.

(** ** tts_manager.py: data *)

(** The character class of the pattern that [speak] hands to [re.sub]:
    [\s], the ASCII marks full stop, comma, exclamation mark, question mark,
    apostrophe and double quote, and the CJK marks U+FF0C, U+3002, U+FF01,
    U+FF1F, U+300F, U+300D, U+FF09 and U+3011.  On a [str] pattern [\s]
    matches the Unicode whitespace code points. *)
Definition is_space (c : codepoint) : bool :=
  ((9 <=? c) && (c <=? 13) || (28 <=? c) && (c <=? 32)
   || (c =? 133) || (c =? 160) || (c =? 5760)
   || (8192 <=? c) && (c <=? 8202)
   || (c =? 8232) || (c =? 8233) || (c =? 8239) || (c =? 8287)
   || (c =? 12288))%N.

Definition is_stripped_punct (c : codepoint) : bool :=
  ((c =? 46) (* . *) || (c =? 44) (* , *) || (c =? 33) (* ! *)
   || (c =? 63) (* ? *)
   || (c =? 65292) (* U+FF0C *) || (c =? 12290) (* U+3002 *)
   || (c =? 65281) (* U+FF01 *) || (c =? 65311) (* U+FF1F *)
   || (c =? 39) (* apostrophe *) || (c =? 34) (* double quote *)
   || (c =? 12303) (* U+300F *) || (c =? 12301) (* U+300D *)
   || (c =? 65289) (* U+FF09 *) || (c =? 12305) (* U+3011 *))%N.

Definition in_strip_class (c : codepoint) : bool :=
  is_space c || is_stripped_punct c.

(** [re.sub(r'[...]+', "", tts_text)]: every maximal run of characters of
    the class is replaced by the empty string, so exactly the characters
    outside the class remain. *)
Definition re_sub_strip (tts_text : text) : text :=
  List.filter (fun c => negb (in_strip_class c)) tts_text.

(** What the outbound channel carries: [json.dumps] of an audio payload, or
    of the bare record [{"type": "backend-synth-complete"}]. *)
Inductive Msg : Type :=
| AudioMsg (payload : Payload)
| SynthComplete.

(** [WebSocketSend]: the awaited send callable.  Its outcome may depend on
    what the channel has delivered so far, given as first argument.  A
    [json.dumps] that raises on the payload counts as a send that raises: it
    stands at the same place of the loop. *)
Definition WebSocketSend : Type := list Msg -> Msg -> result unit.

(** The [logger] calls of [tts_manager.py] that carry a sequence number or
    mark a call to the synthesis engine. *)
Inductive LogEvent : Type :=
| LogEmptyText                      (* "Empty TTS text, sending silent display payload" *)
| LogQueuingTask (tts_text : text)  (* "Queuing TTS task for: ..." *)
| LogSenderCreated                  (* "Created new sender task" *)
| LogSent (sequence_number : nat)   (* "Sent payload for sequence n" *)
| LogSenderError                    (* "Error in sender task: ..." *)
| LogQueuedSilent (sequence_number : nat)   (* "Queued silent payload for sequence n" *)
| LogGenerating (tts_text : text)   (* "Generating audio for ..." *)
| LogQueuedAudio (sequence_number : nat)    (* "Queued audio payload for sequence n" *)
| LogTTSError (sequence_number : nat)       (* "Error generating audio for sequence n" *)
| LogQueuedFallback (sequence_number : nat) (* "Queued silent payload (fallback) for sequence n" *)
| LogRemoveFailed (path : string)   (* "Failed to remove audio file ..." *)
| LogCleared.                       (* "TTSTaskManager cleared" *)

(** An [asyncio.Task] running [_process_tts]: its arguments and whether it
    has finished. *)
Record WorkerTask : Type := mkWorkerTask {
  wt_tts_text : text;
  wt_display_text : option DisplayText;
  wt_actions : option Actions;
  wt_tts_engine : TTSInterface;
  wt_sequence_number : nat;
  wt_done : bool
}.

(** The [asyncio.Task] running [_process_payload_queue].  While it runs it
    owns the local dict [buffered_payloads]; [SenderCancelling] is a task on
    which [cancel()] was called and that the loop has not resumed yet (its
    [done()] is still false); [SenderDone] has left its loop. *)
Inductive SenderTask : Type :=
| SenderRunning (buffered_payloads : gmap nat Payload)
| SenderCancelling
| SenderDone.

(** The attributes of a [TTSTaskManager] ([_lock] is never used).
    [task_list] holds references to tasks: indices into [tasks] of the
    [World]. *)
Record TTSTaskManager : Type := mkManager {
  task_list : list nat;
  _payload_queue : list (Payload * nat);
  _sender_task : option SenderTask;
  _sequence_counter : nat;
  _next_sequence_to_send : nat
}.

(** [TTSTaskManager.__init__] *)
Definition init_manager : TTSTaskManager := mkManager [] [] None 0 0.

(** The manager together with what the event loop and the environment hold:
    every worker task ever created, the messages delivered on the outbound
    channel, the log, and the files removed through [remove_file]. *)
Record World : Type := mkWorld {
  manager : TTSTaskManager;
  tasks : list WorkerTask;
  outbound : list Msg;
  log : list LogEvent;
  removed_files : list string
}.

Definition init_world : World := mkWorld init_manager [] [] [] [].

Definition with_manager (w : World) (m : TTSTaskManager) : World :=
  mkWorld m (tasks w) (outbound w) (log w) (removed_files w).

Definition add_log (w : World) (e : LogEvent) : World :=
  mkWorld (manager w) (tasks w) (outbound w) (log w ++ [e]) (removed_files w).

(** [await self._payload_queue.put(item)]: the queue is unbounded, and
    [self._payload_queue] is read when the put happens. *)
Definition queue_put (w : World) (item : Payload * nat) : World :=
  let m := manager w in
  with_manager w
    (mkManager (task_list m) (_payload_queue m ++ [item]) (_sender_task m)
       (_sequence_counter m) (_next_sequence_to_send m)).

(** ** tts_manager.py: the Reorder Sender *)

(** The state [_process_payload_queue] works on: its local
    [buffered_payloads], the manager's [_next_sequence_to_send], the messages
    delivered on the channel and the log. *)
Record SenderState : Type := mkSender {
  buffered_payloads : gmap nat Payload;
  next_sequence_to_send : nat;
  sent : list Msg;
  sender_log : list LogEvent
}.

Inductive FlushStatus : Type :=
| FlushDone      (* the [while] condition became false *)
| FlushRaised    (* [websocket_send] raised: control is in [except Exception] *)
| FlushFuel.     (* the model ran out of fuel *)

(** The inner [while self._next_sequence_to_send in buffered_payloads] loop.
    [pop] comes before the send, the increment after it. *)
Fixpoint flush_loop (fuel : nat) (websocket_send : WebSocketSend)
    (s : SenderState) : SenderState * FlushStatus :=
  match fuel with
  | O => (s, FlushFuel)
  | S fuel' =>
      match buffered_payloads s !! next_sequence_to_send s with
      | None => (s, FlushDone)
      | Some next_payload =>
          let popped := delete (next_sequence_to_send s) (buffered_payloads s) in
          match websocket_send (sent s) (AudioMsg next_payload) with
          | Raise _ =>
              (mkSender popped (next_sequence_to_send s) (sent s) (sender_log s),
               FlushRaised)
          | Ok _ =>
              flush_loop fuel' websocket_send
                (mkSender popped (S (next_sequence_to_send s))
                   (sent s ++ [AudioMsg next_payload])
                   (sender_log s ++ [LogSent (next_sequence_to_send s)]))
          end
      end
  end.

(** One pass of the body of [while True] for the dequeued
    [(payload, sequence_number)].  Every pass of the inner loop removes a key,
    so [S (size buffer)] passes are enough. *)
Definition sender_iteration (websocket_send : WebSocketSend)
    (item : Payload * nat) (s : SenderState) : SenderState :=
  let '(payload, sequence_number) := item in
  let buffered := <[sequence_number := payload]> (buffered_payloads s) in
  let s1 := mkSender buffered (next_sequence_to_send s) (sent s) (sender_log s) in
  match flush_loop (S (size buffered)) websocket_send s1 with
  | (s2, FlushRaised) =>
      mkSender (buffered_payloads s2) (next_sequence_to_send s2) (sent s2)
        (sender_log s2 ++ [LogSenderError])
  | (s2, _) => s2
  end.

(** The passes of [while True] for the queue items [items], in the order
    the sender dequeues them, each with the behaviour of the channel during
    that pass. *)
Definition sender_feed (s : SenderState)
    (items : list (WebSocketSend * (Payload * nat))) : SenderState :=
  foldl (fun s it => sender_iteration it.1 it.2 s) s items.

(** [_process_payload_queue] started with [_next_sequence_to_send = next]
    on a channel that has delivered [sent0]: its buffer is empty at the
    start. *)
Definition _process_payload_queue (next : nat) (sent0 : list Msg)
    (items : list (WebSocketSend * (Payload * nat))) : SenderState :=
  sender_feed (mkSender ∅ next sent0 []) items.

(** A channel on which every send succeeds, and one on which every send
    raises. *)
Definition send_ok : WebSocketSend := fun _ _ => Ok tt.
Definition send_fail : WebSocketSend :=
  fun _ _ => Raise (OtherException "ConnectionClosed" "").

(** ** tts_manager.py: the Task Manager *)

(** [_ensure_sender_task]: a new sender is created when there is none or the
    old one is [done()].  The new task starts with an empty local buffer. *)
Definition _ensure_sender_task (w : World) : World :=
  let m := manager w in
  match _sender_task m with
  | None | Some SenderDone =>
      add_log
        (with_manager w
           (mkManager (task_list m) (_payload_queue m) (Some (SenderRunning ∅))
              (_sequence_counter m) (_next_sequence_to_send m)))
        LogSenderCreated
  | Some _ => w
  end.

Definition _send_silent_payload (w : World) (display_text : option DisplayDict)
    (actions : option ActionsDict) (sequence_number : nat) : result World :=
  match prepare_audio_payload_default None display_text actions with
  | Raise e => Raise e
  | Ok audio_payload =>
      Ok (add_log (queue_put w (audio_payload, sequence_number))
            (LogQueuedSilent sequence_number))
  end.

(** [current_sequence = self._sequence_counter; self._sequence_counter += 1] *)
Definition take_sequence (w : World) : nat * World :=
  let m := manager w in
  (_sequence_counter m,
   with_manager w
     (mkManager (task_list m) (_payload_queue m) (_sender_task m)
        (S (_sequence_counter m)) (_next_sequence_to_send m))).

(** [asyncio.create_task(self._process_tts(..))] followed by
    [self.task_list.append(task)]. *)
Definition spawn_worker (w : World) (t : WorkerTask) : World :=
  let m := manager w in
  mkWorld
    (mkManager (task_list m ++ [length (tasks w)]) (_payload_queue m)
       (_sender_task m) (_sequence_counter m) (_next_sequence_to_send m))
    (tasks w ++ [t]) (outbound w) (log w) (removed_files w).

(** [speak].  The arguments [live2d_model] (unused) and [websocket_send]
    (the outbound channel of the [World]) are left out.  The first statement
    replaces a [tts_text] that is not a [str] by [str(tts_text)], which may
    raise.  In the second branch the log message reads [display_text.name]
    before anything else happens, which raises [AttributeError] on [None]. *)
Definition speak (w : World) (tts_text : PyAny)
    (display_text : option DisplayText) (actions : option Actions)
    (tts_engine : TTSInterface) : result World :=
  let coerced := match tts_text with
                 | Printable (PyStr s) => Ok s
                 | other => builtin_str other
                 end in
  match coerced with
  | Raise e => Raise e
  | Ok tts_text =>
      if (length (re_sub_strip tts_text) =? 0)%nat then
        let w := add_log w LogEmptyText in
        let '(current_sequence, w) := take_sequence w in
        let w := _ensure_sender_task w in
        _send_silent_payload w (display_to_dict <$> display_text)
          (actions_to_dict <$> actions) current_sequence
      else
        match display_text with
        | None =>
            Raise (AttributeError "'NoneType' object has no attribute 'name'")
        | Some _ =>
            let w := add_log w (LogQueuingTask tts_text) in
            let '(current_sequence, w) := take_sequence w in
            let w := _ensure_sender_task w in
            Ok (spawn_worker w
                  (mkWorkerTask tts_text display_text actions tts_engine
                     current_sequence false))
        end
  end.

(** What the event loop does to a worker task while it runs.  A task is
    cancelled when the [asyncio.gather] that awaits it in
    [process_single_conversation] is cancelled, that is when the turn is
    interrupted.  The [CancelledError] is raised in the task where it is
    suspended.  [_process_tts] suspends at one place only, the [await] of
    [_generate_audio]: the queue has no bound, so that its [put] returns
    without suspending.  A task that has not run yet when it is cancelled
    never enters its body. *)
Inductive Cancellation : Type :=
| NotCancelled
| CancelledBeforeStart
| CancelledWhileGenerating.

(** [_generate_audio]; [file_name_no_ext] is the timestamp-and-uuid name the
    source computes.  [cancelled]: the task is cancelled while it awaits
    the engine. *)
Definition _generate_audio (w : World) (tts_engine : TTSInterface)
    (tts_text : text) (file_name_no_ext : string) (cancelled : bool)
  : World * outcome string :=
  (add_log w (LogGenerating tts_text),
   if cancelled then Cancelled
   else of_result (async_generate_audio tts_engine tts_text file_name_no_ext)).

(** The [finally] clause of [_process_tts]. *)
Definition cleanup_audio_file (w : World) (tts_engine : TTSInterface)
    (audio_file_path : option string) : World :=
  if path_truthy audio_file_path then
    let path := default "" audio_file_path in
    match remove_file tts_engine path with
    | Ok _ =>
        mkWorld (manager w) (tasks w) (outbound w) (log w)
          (removed_files w ++ [path])
    | Raise _ => add_log w (LogRemoveFailed path)
    end
  else w.

(** The [except Exception] clause of [_process_tts]. *)
Definition fallback_payload (w : World) (display_dict : option DisplayDict)
    (actions_dict : option ActionsDict) (sequence_number : nat)
  : World * result unit :=
  let w := add_log w (LogTTSError sequence_number) in
  match prepare_audio_payload_default None display_dict actions_dict with
  | Raise e => (w, Raise e)
  | Ok payload =>
      (add_log (queue_put w (payload, sequence_number))
         (LogQueuedFallback sequence_number),
       Ok tt)
  end.

(** [_process_tts], run from its start to its end: the world it leaves and
    how it ends.  The only shared state it touches is the queue, by a single
    [put].  A [CancelledError] is not caught by [except Exception]: it goes
    through the [finally] clause, where [audio_file_path] is still [None],
    and out of the task. *)
Definition _process_tts (w : World) (tts_text : text)
    (display_text : option DisplayText) (actions : option Actions)
    (tts_engine : TTSInterface) (sequence_number : nat)
    (file_name_no_ext : string) (cancellation : Cancellation)
  : World * outcome unit :=
  match cancellation with
  | CancelledBeforeStart => (w, Cancelled)
  | _ =>
      let display_dict := display_to_dict <$> display_text in
      let actions_dict := actions_to_dict <$> actions in
      let '(w, generated) :=
        _generate_audio w tts_engine tts_text file_name_no_ext
          match cancellation with
          | CancelledWhileGenerating => true
          | _ => false
          end in
      match generated with
      | Cancelled =>
          (* audio_file_path is still None *)
          (cleanup_audio_file w tts_engine None, Cancelled)
      | Raises _ =>
          (* audio_file_path is still None *)
          let '(w, handled) :=
            fallback_payload w display_dict actions_dict sequence_number in
          (cleanup_audio_file w tts_engine None, of_result handled)
      | Returns audio_file_path =>
          let '(w, tried) :=
            match prepare_audio_payload_default (Some audio_file_path)
                    display_dict actions_dict with
            | Raise _ =>
                fallback_payload w display_dict actions_dict sequence_number
            | Ok payload =>
                (add_log (queue_put w (payload, sequence_number))
                   (LogQueuedAudio sequence_number),
                 Ok tt)
            end in
          (cleanup_audio_file w tts_engine (Some audio_file_path),
           of_result tried)
      end
  end.

(** [clear].  The list of task references is emptied but the tasks
    themselves are not cancelled; [cancel()] on the sender only requests the
    cancellation. *)
Definition clear (w : World) : World :=
  let m := manager w in
  let sender :=
    match _sender_task m with
    | Some (SenderRunning _) => Some SenderCancelling
    | other => other
    end in
  add_log (with_manager w (mkManager [] [] sender 0 0)) LogCleared.

(** ** The event loop *)

(** A worker task that is not cancelled is resumed for the last time:
    [_process_tts] completes.  (A task that is cancelled takes no step of
    its own in a run: it leaves the manager as it is, see [_process_tts].) *)
Definition worker_finish (w : World) (task_id : nat) (file_name_no_ext : string)
  : World :=
  match tasks w !! task_id with
  | Some t =>
      if wt_done t then w
      else
        let finished :=
          mkWorkerTask (wt_tts_text t) (wt_display_text t) (wt_actions t)
            (wt_tts_engine t) (wt_sequence_number t) true in
        let w' :=
          (_process_tts w (wt_tts_text t) (wt_display_text t) (wt_actions t)
             (wt_tts_engine t) (wt_sequence_number t) file_name_no_ext
             NotCancelled).1 in
        mkWorld (manager w') (<[task_id := finished]> (tasks w'))
          (outbound w') (log w') (removed_files w')
  | None => w
  end.

(** The sender task is resumed with an item of the queue and runs one pass
    of its [while True] loop.  Nothing happens when no sender is running or
    the queue is empty (the sender stays suspended in [get()]). *)
Definition sender_step (w : World) (websocket_send : WebSocketSend) : World :=
  let m := manager w in
  match _sender_task m, _payload_queue m with
  | Some (SenderRunning buffered), item :: rest =>
      let s := sender_iteration websocket_send item
                 (mkSender buffered (_next_sequence_to_send m) (outbound w) (log w)) in
      mkWorld
        (mkManager (task_list m) rest (Some (SenderRunning (buffered_payloads s)))
           (_sequence_counter m) (next_sequence_to_send s))
        (tasks w) (sent s) (sender_log s) (removed_files w)
  | _, _ => w
  end.

(** The loop resumes a sender on which [cancel()] was called:
    [CancelledError] is raised at its suspension point and the task ends. *)
Definition sender_exit (w : World) : World :=
  let m := manager w in
  match _sender_task m with
  | Some SenderCancelling =>
      with_manager w
        (mkManager (task_list m) (_payload_queue m) (Some SenderDone)
           (_sequence_counter m) (_next_sequence_to_send m))
  | _ => w
  end.

(** ** single_conversation.py: waiting for the pending TTS tasks *)

Definition task_done (w : World) (task_id : nat) : bool :=
  match tasks w !! task_id with
  | Some t => wt_done t
  | None => false
  end.

(** The step of [process_single_conversation] headed by the comment "Wait
    for any pending TTS tasks".  [None]: [asyncio.gather] is still waiting
    for a task of [task_list]. *)
Definition wait_for_pending_tts (w : World) (websocket_send : WebSocketSend)
  : option (result World) :=
  match task_list (manager w) with
  | [] => Some (Ok w)
  | _ :: _ =>
      if forallb (task_done w) (task_list (manager w)) then
        match websocket_send (outbound w) SynthComplete with
        | Raise e => Some (Raise e)
        | Ok _ =>
            Some (Ok (mkWorld (manager w) (tasks w)
                        (outbound w ++ [SynthComplete]) (log w) (removed_files w)))
        end
      else None
  end.

(** What can happen, one atomic transition at a time. *)
Inductive Event : Type :=
| EvSpeak (tts_text : PyAny) (display_text : option DisplayText)
    (actions : option Actions) (tts_engine : TTSInterface)
| EvWorker (task_id : nat) (file_name_no_ext : string)
| EvSender (websocket_send : WebSocketSend)
| EvSenderExit
| EvClear
| EvWaitPending (websocket_send : WebSocketSend).

(** A call that raises, or a wait that cannot proceed yet, leaves the world
    as it is. *)
Definition step (w : World) (ev : Event) : World :=
  match ev with
  | EvSpeak tts_text display_text actions tts_engine =>
      match speak w tts_text display_text actions tts_engine with
      | Ok w' => w'
      | Raise _ => w
      end
  | EvWorker task_id file_name_no_ext => worker_finish w task_id file_name_no_ext
  | EvSender websocket_send => sender_step w websocket_send
  | EvSenderExit => sender_exit w
  | EvClear => clear w
  | EvWaitPending websocket_send =>
      match wait_for_pending_tts w websocket_send with
      | Some (Ok w') => w'
      | _ => w
      end
  end.

Definition run (w : World) (evs : list Event) : World := foldl step w evs.

(** ** Observations used in the statements *)

(** The sequence numbers of the "Sent payload for sequence n" log lines, in
    the order they were written. *)
Definition sent_sequence_numbers (l : list LogEvent) : list nat :=
  omap (fun e => match e with LogSent n => Some n | _ => None end) l.

(** The texts of the "Generating audio for ..." log lines: the calls made
    to the synthesis engine. *)
Definition engine_calls (l : list LogEvent) : list text :=
  omap (fun e => match e with LogGenerating t => Some t | _ => None end) l.

(** Whether synthesis of [tts_text] fails in the worker: the engine raises,
    or it returns a path whose file cannot be decoded or exported, or the
    volume envelope of the decoded audio cannot be computed. *)
Definition synthesis_fails (tts_engine : TTSInterface) (tts_text : text)
    (file_name_no_ext : string) : bool :=
  match async_generate_audio tts_engine tts_text file_name_no_ext with
  | Raise _ => true
  | Ok path =>
      path_truthy (Some path) &&
      match from_file path with
      | Raise _ => true
      | Ok audio =>
          match export_wav audio with
          | Raise _ => true
          | Ok _ => negb (is_Ok (_get_volume_by_chunks audio 20))
          end
      end
  end.

(** The silent payload for the given metadata. *)
Definition silent_payload (display_text : option DisplayText)
    (actions : option Actions) : Payload :=
  mkPayload "audio" None [] 20 (display_to_dict <$> display_text)
    (actions_to_dict <$> actions) false.

(** The sender fed with [arrivals] on a channel that never fails. *)
Definition deliver_all (arrivals : list (Payload * nat)) : SenderState :=
  _process_payload_queue 0 [] ((fun it => (send_ok, it)) <$> arrivals).

(** The audio payloads among the messages delivered on the channel. *)
Definition audio_payloads (msgs : list Msg) : list Payload :=
  omap (fun m => match m with AudioMsg p => Some p | SynthComplete => None end)
    msgs.

(** A channel is reliable when no send on it raises. *)
Definition reliable (websocket_send : WebSocketSend) : Prop :=
  ∀ delivered m, websocket_send delivered m = Ok tt.

(** What holds of the sender after it has taken the sequence numbers [seen]
    off the queue, whatever the channel did: the log lines and the delivered
    payloads count up with the counter, and only positions that arrived are
    buffered or counted. *)
Record sender_inv (seen : list nat) (s : SenderState) : Prop := mkSenderInv {
  inv_log :
    sent_sequence_numbers (sender_log s) = seq 0 (next_sequence_to_send s);
  inv_count : length (audio_payloads (sent s)) = next_sequence_to_send s;
  inv_buffer_seen : ∀ k : nat, is_Some (buffered_payloads s !! k) → k ∈ seen;
  inv_flushed_seen : ∀ k : nat, k < next_sequence_to_send s → k ∈ seen
}.

(** Every buffered position lies strictly above the next expected one. *)
Definition buffer_above (s : SenderState) : Prop :=
  ∀ k : nat, is_Some (buffered_payloads s !! k) → next_sequence_to_send s < k.

(** What holds in addition when every payload [p] arriving at position [k]
    satisfies [R k p] and no send fails: the payload delivered in place [i]
    satisfies [R i], and everything that arrived and was not delivered is
    buffered. *)
Record delivery_inv (R : nat → Payload → Prop) (seen : list nat)
    (s : SenderState) : Prop := mkDeliveryInv {
  del_sent : ∀ (i : nat) p, audio_payloads (sent s) !! i = Some p → R i p;
  del_buffer : ∀ (k : nat) p, buffered_payloads s !! k = Some p → R k p;
  del_waiting :
    ∀ k : nat, k ∈ seen → next_sequence_to_send s ≤ k →
         is_Some (buffered_payloads s !! k);
  del_next : buffered_payloads s !! next_sequence_to_send s = None
}.

(** ** One lifecycle of the manager *)

(** The sender as it stands in a world: the buffer of the running sender
    task (empty when none runs), the manager's counter, the channel and the
    log. *)
Definition sender_buffer (w : World) : gmap nat Payload :=
  match _sender_task (manager w) with
  | Some (SenderRunning buffered) => buffered
  | _ => ∅
  end.

Definition sender_view (w : World) : SenderState :=
  mkSender (sender_buffer w) (_next_sequence_to_send (manager w)) (outbound w)
    (log w).

(** The sequence numbers held by workers that have not finished. *)
Definition pending_sequence_numbers (ts : list WorkerTask) : list nat :=
  wt_sequence_number <$> List.filter (fun t => negb (wt_done t)) ts.

(** Whether [speak] accepts a call: it raises when [str(tts_text)] does,
    and in its second branch on [display_text = None]. *)
Definition speak_accepts (tts_text : PyAny) (display_text : option DisplayText)
  : bool :=
  match builtin_str tts_text with
  | Raise _ => false
  | Ok tts_text =>
      (length (re_sub_strip tts_text) =? 0)%nat
      || match display_text with Some _ => true | None => false end
  end.

(** The metadata of the segments submitted in a run, in submission order. *)
Definition submitted (evs : list Event)
  : list (option DisplayText * option Actions) :=
  omap (fun ev => match ev with
                  | EvSpeak tts_text display_text actions _ =>
                      if speak_accepts tts_text display_text
                      then Some (display_text, actions) else None
                  | _ => None
                  end) evs.

(** Payload [p] carries the metadata of the [k]-th submitted segment. *)
Definition carries (segments : list (option DisplayText * option Actions))
    (k : nat) (p : Payload) : Prop :=
  ∃ display_text actions,
    segments !! k = Some (display_text, actions)
    ∧ pl_display_text p = display_to_dict <$> display_text
    ∧ pl_actions p = actions_to_dict <$> actions.

(** Runs without [clear], and runs in which moreover no send fails. *)
Definition lifecycle_event (ev : Event) : Prop :=
  match ev with EvClear => False | _ => True end.

Definition reliable_event (ev : Event) : Prop :=
  match ev with
  | EvClear => False
  | EvSender websocket_send => reliable websocket_send
  | _ => True
  end.

(** What holds in every world of a lifecycle: the sender is in order, and
    each sequence number handed out so far is in exactly one place: taken
    off the queue ([seen]), on the queue, or with an unfinished worker. *)
Record lifecycle_inv (seen : list nat) (w : World) : Prop := mkLifecycleInv {
  lc_sender :
    _sender_task (manager w) = None
    ∨ ∃ buffered, _sender_task (manager w) = Some (SenderRunning buffered);
  lc_sender_inv : sender_inv seen (sender_view w);
  lc_above : buffer_above (sender_view w);
  lc_positions :
    seen ++ (_payload_queue (manager w)).*2
         ++ pending_sequence_numbers (tasks w)
    ≡ₚ seq 0 (_sequence_counter (manager w))
}.

(** What holds in addition when no send fails: payloads and workers carry
    the metadata of the segment whose sequence number they hold. *)
Record reliable_inv (segments : list (option DisplayText * option Actions))
    (seen : list nat) (w : World) : Prop := mkReliableInv {
  rl_delivery : delivery_inv (carries segments) seen (sender_view w);
  rl_queue :
    ∀ p (k : nat), (p, k) ∈ _payload_queue (manager w) → carries segments k p;
  rl_tasks :
    ∀ t, t ∈ tasks w → wt_done t = false →
         segments !! wt_sequence_number t
         = Some (wt_display_text t, wt_actions t);
  rl_count : _sequence_counter (manager w) = length segments
}.

(** The sequence number the sender takes off the queue in a step, if any. *)
Definition dequeued (w : World) (ev : Event) : list nat :=
  match ev, _sender_task (manager w), _payload_queue (manager w) with
  | EvSender _, Some (SenderRunning _), (_, k) :: _ => [k]
  | _, _, _ => []
  end.

(** ** Runs with [clear] *)

(** The part of the log written since the last "TTSTaskManager cleared"
    line, and the events of a run since its last [clear]. *)
Definition since_cleared (l : list LogEvent) : list LogEvent :=
  foldl (fun acc e => match e with LogCleared => [] | _ => acc ++ [e] end) [] l.

Definition since_clear (evs : list Event) : list Event :=
  foldl (fun acc ev => match ev with EvClear => [] | _ => acc ++ [ev] end)
    [] evs.

(** A log line that is neither "cleared" nor "Sent payload". *)
Definition quiet (e : LogEvent) : Prop :=
  match e with LogCleared | LogSent _ => False | _ => True end.

(** What holds in a lifecycle even when sends fail: whatever has been
    delivered, is buffered, is queued or is still with a worker carries the
    metadata of the segment whose sequence number it holds. *)
Record ordered_inv (segments : list (option DisplayText * option Actions))
    (w : World) : Prop := mkOrderedInv {
  ord_sent :
    ∀ (i : nat) p, audio_payloads (outbound w) !! i = Some p →
                   carries segments i p;
  ord_buffer :
    ∀ (k : nat) p, sender_buffer w !! k = Some p → carries segments k p;
  ord_queue :
    ∀ p (k : nat), (p, k) ∈ _payload_queue (manager w) → carries segments k p;
  ord_tasks :
    ∀ t, t ∈ tasks w → wt_done t = false →
         segments !! wt_sequence_number t
         = Some (wt_display_text t, wt_actions t);
  ord_count : _sequence_counter (manager w) = length segments
}.

(** Nothing is left to do: every worker has finished and the sender has
    emptied the queue. *)
Definition quiescent (w : World) : Prop :=
  Forall (fun t => wt_done t = true) (tasks w)
  ∧ _payload_queue (manager w) = [].

End Model.

(** * single_conversation.py: one conversation turn

    [process_single_conversation] orchestrates helpers that live outside the
    modelled files ([conversation_utils], [chat_history_manager], the agent
    and the channel).  They are the [Collaborators] of a turn: each answers a
    call by returning, by raising or by being cancelled, and its answer may
    depend on everything that happened in the turn so far.  The turn itself
    is embedded statement by statement; what it does is the [trace] of the
    calls it makes and the lines it logs. *)

(** [str(e)] for an exception built from one message. *)
Definition exn_str (e : exn) : text :=
  text_of_string
    match e with
    | ValueError msg | AttributeError msg | TypeError msg
    | OtherException _ msg => msg
    end.

(** The types of the values a turn only passes on. *)
Class TurnTypes : Type := {
  AgentOutput : Type;   (* what [process_agent_output] takes *)
  BatchInput : Type;    (* what [create_batch_input] returns *)
  ToolStatus : Type     (* the entries of a "tool_call_status" dict *)
}.

Section Conversation.
Context `{TT : TurnTypes}.

(** An item of the agent's output stream, by the branch of the [async for]
    body that takes it. *)
Inductive OutputItem : Type :=
| ToolCallStatus (status : ToolStatus)
    (* a dict whose "type" is "tool_call_status" *)
| Output (o : AgentOutput)
    (* an instance of SentenceOutput or AudioOutput *)
| SentenceLike (o : AgentOutput)
    (* another object with attributes display_text and tts_text *)
| AudioLike (o : AgentOutput)
    (* another object with attributes audio and text *)
| Unexpected.
    (* anything else *)

Inductive Role : Type := Human | AI.

(** The dicts handed to [json.dumps] and sent on the channel. *)
Inductive TurnMsg : Type :=
| MsgToolStatus (status : ToolStatus) (name : string)
    (* the status dict with its "name" set to the character's name *)
| MsgError (message : text)
    (* {"type": "error", "message": message} *)
| MsgSynthComplete
    (* {"type": "backend-synth-complete"} *)
| MsgFullText (full_text : text) (name avatar : string).
    (* {"type": "full-text", "text": .., "name": .., "avatar": ..} *)

Inductive TurnLog : Type :=
| TurnStarted                   (* "New Conversation Chain ... started!" *)
| TurnSkipHistory               (* "Skipping storing user input to history ..." *)
| TurnUserInput (input_text : text)   (* "User input: ..." *)
| TurnImages (n : nat)          (* "With n images" *)
| TurnToolStatus                (* "Sending tool status update: ..." *)
| TurnSentenceFallback          (* "Processing object as SentenceOutput via attribute fallback" *)
| TurnAudioFallback             (* "Processing object as AudioOutput via attribute fallback" *)
| TurnUnexpectedType            (* "Received unexpected item type from agent chat stream" *)
| TurnUnexpectedContent         (* "Unexpected item content: ..." *)
| TurnStreamError (e : exn)     (* "Error processing agent response stream: e" *)
| TurnAIResponse (full_text : text)   (* "AI response: ..." *)
| TurnCancelled                 (* "Conversation ... cancelled because interrupted." *)
| TurnChainError (e : exn).     (* "Error in conversation chain: e" *)

(** What a turn does, in the order it does it.  A call of
    [process_agent_output] is recorded with its answer. *)
Inductive Action : Type :=
| CallStartSignals
| CallProcessUserInput
| CallCreateBatchInput (input_text : text)
| CallStoreMessage (role : Role) (content : text) (name : string)
| CallProcessAgentOutput (o : AgentOutput) (answer : outcome PyObj)
| CallSend (m : TurnMsg)
| CallGather
| CallFinalize
| CallCleanup
| Logged (line : TurnLog).

(** The stream [agent_engine.chat(batch_input)] produces: the items it
    yields, and how the iteration ends after them: the generator is exhausted
    ([Returns]), it raises, or the turn is cancelled while waiting for the
    next item. *)
Record AgentStream : Type := mkStream {
  yielded : list OutputItem;
  ending : outcome unit
}.

(** The collaborators.  The first argument of each is the trace of the turn
    at the moment of the call. *)
Record Collaborators : Type := mkCollaborators {
  send_conversation_start_signals : list Action → outcome unit;
  process_user_input : list Action → outcome text;
  create_batch_input : list Action → text → result BatchInput;
  store_message : list Action → Role → text → result unit;
  agent_chat : BatchInput → AgentStream;
  process_agent_output : list Action → AgentOutput → outcome PyObj;
  websocket_send : list Action → TurnMsg → outcome unit;
  task_list_nonempty : list Action → bool;
      (* the truth value of [tts_manager.task_list] *)
  gather : list Action → outcome unit;
      (* [asyncio.gather] on the tasks of [tts_manager.task_list] *)
  finalize_conversation_turn : list Action → outcome unit;
  cleanup_conversation : list Action → result unit
}.

(** What the turn reads of its [ServiceContext]. *)
Record ServiceContext : Type := mkContext {
  history_uid : option string;
  human_name : string;
  character_name : string;
  avatar : string
}.

(** The truth value of an optional string. *)
Definition str_truthy (s : option string) : bool :=
  match s with
  | None => false
  | Some s => negb (String.eqb s "")
  end.

(** [metadata and metadata.get("skip_history", False)], as a truth value.
    A metadata dict is given by the truth values of its entries; an empty
    dict is falsy and has no entry. *)
Definition skip_history_of (metadata : option (gmap string bool)) : bool :=
  match metadata with
  | None => false
  | Some entries =>
      if decide (entries = ∅) then false
      else default false (entries !! "skip_history")
  end.

(** The state of a turn: the trace, and the local variable
    [full_response]. *)
Record TurnState : Type := mkTurn {
  trace : list Action;
  full_response : text
}.

Definition init_turn : TurnState := mkTurn [] [].

(** Statements of the turn: they change the state and return, raise or are
    cancelled. *)
Definition Conv (A : Type) : Type := TurnState → TurnState * outcome A.

Definition conv_ret {A} (a : A) : Conv A := λ s, (s, Returns a).

Definition conv_bind {A B} (m : Conv A) (f : A → Conv B) : Conv B :=
  λ s, match m s with
       | (s', Returns a) => f a s'
       | (s', Raises e) => (s', Raises e)
       | (s', Cancelled) => (s', Cancelled)
       end.

Notation "'let*' x ':=' m 'in' k" := (conv_bind m (λ x, k))
  (at level 10, x name, m at level 100, k at level 200).

Definition record (a : Action) : TurnState → TurnState :=
  λ s, mkTurn (trace s ++ [a]) (full_response s).

(** A call of a collaborator. *)
Definition call {A} (a : Action) (answer : list Action → outcome A) : Conv A :=
  λ s, (record a s, answer (trace s)).

Definition logger (line : TurnLog) : Conv unit :=
  λ s, (record (Logged line) s, Returns tt).

Definition when (b : bool) (m : Conv unit) : Conv unit :=
  if b then m else conv_ret tt.

(** [try: m except Exception as e: handler e] *)
Definition try_except {A} (m : Conv A) (handler : exn → Conv A) : Conv A :=
  λ s, match m s with
       | (s', Raises e) => handler e s'
       | other => other
       end.

Section Turn.
Variable env : Collaborators.
Variable context : ServiceContext.

Definition send (m : TurnMsg) : Conv unit :=
  call (CallSend m) (λ tr, websocket_send env tr m).

(** [response_part_str] *)
Definition response_part_str (response_part : PyObj) : text :=
  match response_part with
  | PyNone => []
  | v => py_str v
  end.

(** The call of [process_agent_output] with the accumulation that follows
    it in each of the three branches. *)
Definition accumulate (o : AgentOutput) : Conv unit :=
  λ s, let answer := process_agent_output env (trace s) o in
       let s := record (CallProcessAgentOutput o answer) s in
       match answer with
       | Returns response_part =>
           (mkTurn (trace s) (full_response s ++ response_part_str response_part),
            Returns tt)
       | Raises e => (s, Raises e)
       | Cancelled => (s, Cancelled)
       end.

(** The body of the [async for]. *)
Definition handle_output_item (output_item : OutputItem) : Conv unit :=
  match output_item with
  | ToolCallStatus status =>
      let* _ := logger TurnToolStatus in
      send (MsgToolStatus status (character_name context))
  | Output o => accumulate o
  | SentenceLike o => let* _ := logger TurnSentenceFallback in accumulate o
  | AudioLike o => let* _ := logger TurnAudioFallback in accumulate o
  | Unexpected =>
      let* _ := logger TurnUnexpectedType in logger TurnUnexpectedContent
  end.

(** The [async for] over the stream. *)
Fixpoint consume (items : list OutputItem) (ending : outcome unit) : Conv unit :=
  match items with
  | [] => λ s, (s, ending)
  | output_item :: rest =>
      let* _ := handle_output_item output_item in consume rest ending
  end.

Definition stream_error_message (e : exn) : text :=
  text_of_string "Error processing agent response: " ++ exn_str e.

Definition conversation_error_message (e : exn) : text :=
  text_of_string "Conversation error: " ++ exn_str e.

(** The inner [try] with its [except Exception]. *)
Definition agent_response (batch_input : BatchInput) : Conv unit :=
  try_except
    (consume (yielded (agent_chat env batch_input))
       (ending (agent_chat env batch_input)))
    (λ e, let* _ := logger (TurnStreamError e) in
          send (MsgError (stream_error_message e))).

(** "Wait for any pending TTS tasks". *)
Definition wait_pending : Conv unit :=
  λ s, when (task_list_nonempty env (trace s))
         (let* _ := call CallGather (gather env) in send MsgSynthComplete) s.

(** The record of the answer and the final full text. *)
Definition store_response : Conv unit :=
  λ s, when (str_truthy (history_uid context)
             && negb (length (full_response s) =? 0))
         (let* _ := call (CallStoreMessage AI (full_response s)
                            (character_name context))
                      (λ tr, of_result (store_message env tr AI (full_response s))) in
          let* _ := logger (TurnAIResponse (full_response s)) in
          send (MsgFullText (full_response s) (character_name context)
                  (avatar context))) s.

(** The body of the outer [try] up to [finalize_conversation_turn]. *)
Definition turn_before_record (images : option (list string))
    (metadata : option (gmap string bool)) : Conv unit :=
  let* _ := call CallStartSignals (send_conversation_start_signals env) in
  let* _ := logger TurnStarted in
  let* input_text := call CallProcessUserInput (process_user_input env) in
  let* batch_input :=
    call (CallCreateBatchInput input_text)
      (λ tr, of_result (create_batch_input env tr input_text)) in
  let skip_history := skip_history_of metadata in
  let* _ :=
    when (str_truthy (history_uid context) && negb skip_history)
      (call (CallStoreMessage Human input_text (human_name context))
         (λ tr, of_result (store_message env tr Human input_text))) in
  let* _ := when skip_history (logger TurnSkipHistory) in
  let* _ := logger (TurnUserInput input_text) in
  let* _ :=
    when (match images with Some (_ :: _) => true | _ => false end)
      (logger (TurnImages (length (default [] images)))) in
  let* _ := agent_response batch_input in
  let* _ := wait_pending in
  call CallFinalize (finalize_conversation_turn env).

(** The body of the outer [try]. *)
Definition turn_body (images : option (list string))
    (metadata : option (gmap string bool)) : Conv text :=
  let* _ := turn_before_record images metadata in
  let* _ := store_response in
  λ s, (s, Returns (full_response s)).

(** The handlers of the outer [try]: [except asyncio.CancelledError] logs
    and re-raises, [except Exception] logs, reports to the client and
    re-raises. *)
Definition turn_handled (images : option (list string))
    (metadata : option (gmap string bool)) : Conv text :=
  λ s, match turn_body images metadata s with
       | (s', Returns r) => (s', Returns r)
       | (s', Cancelled) =>
           (let* _ := logger TurnCancelled in λ s, (s, Cancelled)) s'
       | (s', Raises e) =>
           (let* _ := logger (TurnChainError e) in
            let* _ := send (MsgError (conversation_error_message e)) in
            λ s, (s, Raises e)) s'
       end.

(** [finally: cleanup_conversation(tts_manager, session_emoji)]: an
    exception raised by the cleanup replaces the outcome of the turn. *)
Definition process_single_conversation (images : option (list string))
    (metadata : option (gmap string bool)) : TurnState * outcome text :=
  let '(s, out) := turn_handled images metadata init_turn in
  let s' := record CallCleanup s in
  match cleanup_conversation env (trace s) with
  | Ok _ => (s', out)
  | Raise e => (s', Raises e)
  end.

End Turn.

(** ** Observations on a trace *)

(** The messages sent, the outputs handed to [process_agent_output], and
    the text of the parts it returned. *)
Definition sends (tr : list Action) : list TurnMsg :=
  omap (λ a, match a with CallSend m => Some m | _ => None end) tr.

Definition processed (tr : list Action) : list AgentOutput :=
  omap (λ a, match a with CallProcessAgentOutput o _ => Some o | _ => None end) tr.

Definition response_text (tr : list Action) : text :=
  concat (omap (λ a, match a with
                     | CallProcessAgentOutput _ (Returns response_part) =>
                         Some (response_part_str response_part)
                     | _ => None
                     end) tr).

(** The outputs of a stream that reach [process_agent_output]. *)
Definition processable (items : list OutputItem) : list AgentOutput :=
  omap (λ item, match item with
                | Output o | SentenceLike o | AudioLike o => Some o
                | _ => None
                end) items.

(** The actions of a turn before it records its answer, the calls of
    [process_agent_output] apart. *)
Definition plain (a : Action) : Prop :=
  match a with
  | CallProcessAgentOutput _ _ | CallCleanup | CallStoreMessage AI _ _
  | CallSend (MsgFullText _ _ _) => False
  | _ => True
  end.

(** A statement follows [R] when [R] relates the state before it to the
    state after it, however it ends. *)
Definition follows {A} (R : relation TurnState) (m : Conv A) : Prop :=
  ∀ s, R s (m s).1.

(** The state has moved on by actions that satisfy [P], and by nothing
    else. *)
Definition added (P : Action → Prop) : relation TurnState :=
  λ s s', ∃ tr, trace s' = trace s ++ tr ∧ Forall P tr.

(** [full_response] is the text of the parts returned so far. *)
Definition coherent (s : TurnState) : Prop :=
  full_response s = response_text (trace s).

(** A property of the state that is not lost. *)
Definition keeps (I : TurnState → Prop) : relation TurnState :=
  λ s s', I s → I s'.

(** The record of the answer or the full text sent to the client. *)
Definition is_record (a : Action) : Prop :=
  match a with
  | CallStoreMessage AI _ _ | CallSend (MsgFullText _ _ _) => True
  | _ => False
  end.

(** What a turn does to record the answer [t]. *)
Definition record_actions (context : ServiceContext) (t : text) : list Action :=
  [CallStoreMessage AI t (character_name context);
   Logged (TurnAIResponse t);
   CallSend (MsgFullText t (character_name context) (avatar context))].

(** What the handlers of the outer [try] do for the outcome of its body. *)
Definition handler_actions {A} (out : outcome A) : list Action :=
  match out with
  | Returns _ => []
  | Cancelled => [Logged TurnCancelled]
  | Raises e =>
      [Logged (TurnChainError e);
       CallSend (MsgError (text_of_string "Conversation error: " ++ exn_str e))]
  end.

End Conversation.

(** * tts/edge_tts.py: the Edge TTS engine

    The engine works on the file system.  What the repository does not
    define is given: [os.remove], the synthesis
    [edge_tts.Communicate(text, voice).save_sync(file_name)], which may leave
    a file behind also when it raises, and [generate_cache_file_name] of
    [tts_interface.py]. *)
Class EdgeExternals : Type := {
  FileSystem : Type;
  os_remove : FileSystem → string → result FileSystem;
  save_sync : FileSystem → text → string → string → FileSystem * result unit;
  generate_cache_file_name : option string → string → string
}.

Section EdgeTTS.
Context `{EE : EdgeExternals}.

Inductive EdgeLog : Type :=
| EdgeUnableToGenerate (e : exn)
    (* critical: "Error: edge-tts unable to generate audio: e" *)
| EdgeBlockedHint
    (* critical: "It's possible that edge-tts is blocked in your region." *)
| EdgeRemoved (file_path : string)
    (* debug: "Removed file: ..." *)
| EdgeRemoveFailed (file_path : string) (e : exn).
    (* warning: "Failed to remove file ...: e" *)

(** The attributes of a [TTSEngine] that its methods read. *)
Record TTSEngine : Type := mkEngine {
  voice : string;
  file_extension : string
}.

Record EdgeState : Type := mkEdge {
  fs : FileSystem;
  edge_log : list EdgeLog
}.

(** [isinstance(e, FileNotFoundError)] *)
Definition is_file_not_found (e : exn) : bool :=
  match e with
  | OtherException name _ => String.eqb name "FileNotFoundError"
  | _ => false
  end.

(** [TTSEngine.generate_audio] *)
Definition TTSEngine_generate_audio (engine : TTSEngine) (st : EdgeState)
    (text_ : text) (file_name_no_ext : option string)
  : EdgeState * result string :=
  let file_name :=
    generate_cache_file_name file_name_no_ext (file_extension engine) in
  match save_sync (fs st) text_ (voice engine) file_name with
  | (fs', Ok _) => (mkEdge fs' (edge_log st), Ok file_name)
  | (fs', Raise e) =>
      (mkEdge fs' (edge_log st ++ [EdgeUnableToGenerate e; EdgeBlockedHint]),
       Raise e)
  end.

(** [TTSEngine.remove_file] *)
Definition TTSEngine_remove_file (st : EdgeState) (file_path : option string)
  : EdgeState * result unit :=
  if negb (path_truthy file_path) then (st, Ok tt)
  else
    let path := default "" file_path in
    match os_remove (fs st) path with
    | Ok fs' => (mkEdge fs' (edge_log st ++ [EdgeRemoved path]), Ok tt)
    | Raise e =>
        if is_file_not_found e then (st, Ok tt)
        else (mkEdge (fs st) (edge_log st ++ [EdgeRemoveFailed path e]), Ok tt)
    end.

End EdgeTTS.

(** * agent/agent_factory.py: the agent factory

    [AgentFactory.create_agent] reads two dicts of dicts, [agent_settings]
    and [llm_configs] (taken to be plain dicts, as annotated), creates the
    LLM and calls the constructor of the agent class.  A constructor call is
    a value of [AgentCall]; the arguments that are only passed on
    ([live2d_model], [tts_preprocessor_config] and the tool arguments taken
    from [kwargs]) are left out of it. *)

(** A value of a settings dict. *)
Inductive ConfigValue : Type :=
| CfgStr (s : string)
| CfgBool (b : bool)
| CfgInt (z : Z)
| CfgNone.

(** The truth value of a setting, and the dict key it makes: the keys of
    [llm_configs] are strings, so only a string finds an entry. *)
Definition cfg_truthy (v : ConfigValue) : bool :=
  match v with
  | CfgStr s => negb (String.eqb s "")
  | CfgBool b => b
  | CfgInt z => negb (z =? 0)%Z
  | CfgNone => false
  end.

Definition cfg_key (v : ConfigValue) : option string :=
  match v with CfgStr s => Some s | _ => None end.

(** [str(v)] *)
Definition cfg_str (v : ConfigValue) : string :=
  match v with
  | CfgStr s => s
  | CfgBool true => "True"
  | CfgBool false => "False"
  | CfgInt z => NilEmpty.string_of_int (Z.to_int z)
  | CfgNone => "None"
  end.

Abbreviation Settings := (gmap string ConfigValue).

(** [settings.get(key, default)] *)
Definition get_setting (settings : Settings) (key : string)
    (default_value : ConfigValue) : ConfigValue :=
  default default_value (settings !! key).

(** [choice.rsplit(".", 1)], when it gives two parts; 46 is the code of
    the dot. *)
Fixpoint split_first_dot (l : list Ascii.ascii)
  : option (list Ascii.ascii * list Ascii.ascii) :=
  match l with
  | [] => None
  | c :: l' =>
      if Ascii.eqb c (Ascii.ascii_of_nat 46) then Some ([], l')
      else (λ parts : list Ascii.ascii * list Ascii.ascii,
              (c :: parts.1, parts.2))
             <$> split_first_dot l'
  end.

Definition rsplit_dot (s : string) : option (string * string) :=
  match split_first_dot (rev (String.list_ascii_of_string s)) with
  | None => None
  | Some (class_rev, module_rev) =>
      Some (String.string_of_list_ascii (rev module_rev),
            String.string_of_list_ascii (rev class_rev))
  end.

(** The exceptions the loader of a custom agent turns into [ValueError]:
    [ImportError] (with its subclass [ModuleNotFoundError]),
    [AttributeError] and [ValueError]. *)
Definition is_load_failure (e : exn) : bool :=
  match e with
  | ValueError _ | AttributeError _ => true
  | OtherException name _ =>
      String.eqb name "ImportError" || String.eqb name "ModuleNotFoundError"
  | TypeError _ => false
  end.

Class FactoryTypes : Type := {
  LLM : Type;         (* what [StatelessLLMFactory.create_llm] returns *)
  AgentClass : Type   (* a class loaded by [importlib] *)
}.

Section AgentFactory.
Context `{FT : FactoryTypes}.

(** An argument of the constructor of a custom agent. *)
Inductive ArgValue : Type :=
| ArgLLM (llm : LLM)
| ArgSystem (system_prompt : string)
| ArgPassed                       (* an argument that is only passed on *)
| ArgSetting (v : ConfigValue).

Inductive AgentCall : Type :=
| BasicMemoryAgent (llm : LLM) (system : string)
    (faster_first_response segment_method use_mcpp interrupt_method : ConfigValue)
| HumeAIAgent (api_key host config_id idle_timeout : ConfigValue)
| LettaAgent (id faster_first_response segment_method host port : ConfigValue)
| CustomAgent (agent_class : AgentClass) (base_args : gmap string ArgValue)
    (extra_kwargs : Settings).

(** The collaborators: the LLM factory, [importlib.import_module] followed
    by [getattr], and the constructors of the agent classes. *)
Record FactoryExternals : Type := mkFactory {
  create_llm : string → string → Settings → result LLM;
  load_class : string → string → result AgentClass;
  construct : AgentCall → result unit
}.

Inductive FactoryLog : Type :=
| LogInitializing (choice : string)     (* info: "Initializing agent: ..." *)
| LogEmptyConfig (provider : string)    (* warning: "LLM config for ... is empty after pop" *)
| LogDeprecated                         (* critical: "mem0_agent is deprecated ..." *)
| LogLoading (choice : string)          (* info: "Dynamically loading custom agent ..." *)
| LogLoadFailed (choice : string)       (* error: "Failed to load custom agent ..." *)
| LogCustomSettings (choice : string)   (* debug: "Custom settings for ..." *)
| LogInstantiated (choice : string)     (* info: "Successfully instantiated custom agent ..." *)
| LogInstantiateFailed (choice : string).  (* error: "Failed to instantiate custom agent ..." *)

(** The names of the arguments the factory itself gives a custom agent. *)
Definition base_arg_names : list string :=
  ["llm"; "system"; "live2d_model"; "tts_preprocessor_config"; "tool_prompts";
   "tool_manager"; "tool_executor"; "mcp_prompt_string"; "interrupt_method"].

Definition optional_arg_names : list string :=
  ["faster_first_response"; "segment_method"; "use_mcpp"].

(** The dict [base_args] before the optional arguments are added. *)
Definition base_args_of (llm : LLM) (system_prompt : string)
    (interrupt_method : ConfigValue) : gmap string ArgValue :=
  <["llm" := ArgLLM llm]>
  (<["system" := ArgSystem system_prompt]>
  (<["live2d_model" := ArgPassed]>
  (<["tts_preprocessor_config" := ArgPassed]>
  (<["tool_prompts" := ArgPassed]>
  (<["tool_manager" := ArgPassed]>
  (<["tool_executor" := ArgPassed]>
  (<["mcp_prompt_string" := ArgPassed]>
  (<["interrupt_method" := ArgSetting interrupt_method]> ∅)))))))).

(** The loop over "faster_first_response", "segment_method", "use_mcpp". *)
Definition add_optional_args (custom_settings : Settings)
    (base_args : gmap string ArgValue) : gmap string ArgValue :=
  foldl (λ args key,
           match custom_settings !! key with
           | Some v => <[key := ArgSetting v]> args
           | None => args
           end) base_args optional_arg_names.

(** [{k: v for k, v in custom_settings.items() if k not in reserved_keys}] *)
Definition extra_kwargs_of (custom_settings : Settings)
    (base_args : gmap string ArgValue) : Settings :=
  filter (λ kv : string * ConfigValue,
            kv.1 ∉ dom base_args ∪ ({["llm_provider"]} : gset string))
    custom_settings.

Section CreateAgent.
Variable env : FactoryExternals.

(** [AgentFactory.create_agent].  The result is the dict [llm_configs] as
    the call leaves it (the [pop] works on the caller's dict), the lines
    logged, and the agent or the exception. *)
Definition create_agent (conversation_agent_choice : string)
    (agent_settings : gmap string Settings)
    (llm_configs : gmap string Settings) (system_prompt : string)
  : gmap string Settings * list FactoryLog * result AgentCall :=
  let log0 := [LogInitializing conversation_agent_choice] in
  if String.eqb conversation_agent_choice "basic_memory_agent" then
    let basic_memory_settings :=
      default ∅ (agent_settings !! "basic_memory_agent") in
    let llm_provider := get_setting basic_memory_settings "llm_provider" CfgNone in
    if negb (cfg_truthy llm_provider) then
      (llm_configs, log0,
       Raise (ValueError "LLM provider not specified for basic memory agent"))
    else
      match cfg_key llm_provider with
      | None =>
          (llm_configs, log0,
           Raise (ValueError ("Configuration not found for LLM provider: "
                              +:+ cfg_str llm_provider)))
      | Some provider =>
          match llm_configs !! provider with
          | None =>
              (llm_configs, log0,
               Raise (ValueError ("Configuration not found for LLM provider: "
                                  +:+ cfg_str llm_provider)))
          | Some llm_config =>
              let interrupt_method :=
                get_setting llm_config "interrupt_method" (CfgStr "user") in
              let llm_config := delete "interrupt_method" llm_config in
              let llm_configs := <[provider := llm_config]> llm_configs in
              let log1 :=
                if decide (llm_config = ∅)
                then log0 ++ [LogEmptyConfig provider] else log0 in
              match create_llm env provider system_prompt llm_config with
              | Raise e => (llm_configs, log1, Raise e)
              | Ok llm =>
                  let agent :=
                    BasicMemoryAgent llm system_prompt
                      (get_setting basic_memory_settings "faster_first_response"
                         (CfgBool true))
                      (get_setting basic_memory_settings "segment_method"
                         (CfgStr "pysbd"))
                      (get_setting basic_memory_settings "use_mcpp"
                         (CfgBool false))
                      interrupt_method in
                  match construct env agent with
                  | Raise e => (llm_configs, log1, Raise e)
                  | Ok _ => (llm_configs, log1, Ok agent)
                  end
              end
          end
      end
  else if String.eqb conversation_agent_choice "mem0_agent" then
    (llm_configs, log0 ++ [LogDeprecated],
     Raise (OtherException "NotImplementedError"
              "mem0_agent is deprecated and no longer supported."))
  else if String.eqb conversation_agent_choice "hume_ai_agent" then
    let settings := default ∅ (agent_settings !! "hume_ai_agent") in
    let agent :=
      HumeAIAgent (get_setting settings "api_key" CfgNone)
        (get_setting settings "host" (CfgStr "api.hume.ai"))
        (get_setting settings "config_id" CfgNone)
        (get_setting settings "idle_timeout" (CfgInt 15)) in
    match construct env agent with
    | Raise e => (llm_configs, log0, Raise e)
    | Ok _ => (llm_configs, log0, Ok agent)
    end
  else if String.eqb conversation_agent_choice "letta_agent" then
    let settings := default ∅ (agent_settings !! "letta_agent") in
    let agent :=
      LettaAgent (get_setting settings "id" CfgNone)
        (get_setting settings "faster_first_response" CfgNone)
        (get_setting settings "segment_method" CfgNone)
        (get_setting settings "host" CfgNone)
        (get_setting settings "port" CfgNone) in
    match construct env agent with
    | Raise e => (llm_configs, log0, Raise e)
    | Ok _ => (llm_configs, log0, Ok agent)
    end
  else
    let unsupported :=
      Raise (ValueError ("Unsupported agent type or failed to load custom agent: "
                         +:+ conversation_agent_choice)) in
    let loaded :=
      match rsplit_dot conversation_agent_choice with
      | None => Raise (ValueError "not enough values to unpack (expected 2, got 1)")
      | Some (module_path, class_name) => load_class env module_path class_name
      end in
    match loaded with
    | Raise e =>
        if is_load_failure e
        then (llm_configs, log0 ++ [LogLoadFailed conversation_agent_choice],
              unsupported)
        else (llm_configs, log0, Raise e)
    | Ok agent_class =>
        let log1 :=
          log0 ++ [LogLoading conversation_agent_choice;
                   LogCustomSettings conversation_agent_choice] in
        let custom_settings :=
          default ∅ (agent_settings !! conversation_agent_choice) in
        let llm_provider := get_setting custom_settings "llm_provider" CfgNone in
        if negb (cfg_truthy llm_provider) then
          (llm_configs, log1,
           Raise (ValueError ("Custom agent '" +:+ conversation_agent_choice
                              +:+ "' requires 'llm_provider' in its settings.")))
        else
          match cfg_key llm_provider with
          | None =>
              (llm_configs, log1,
               Raise (ValueError ("Configuration not found for LLM provider: "
                                  +:+ cfg_str llm_provider)))
          | Some provider =>
              match llm_configs !! provider with
              | None =>
                  (llm_configs, log1,
                   Raise (ValueError
                            ("Configuration not found for LLM provider: "
                             +:+ cfg_str llm_provider)))
              | Some llm_config =>
                  let interrupt_method :=
                    get_setting llm_config "interrupt_method" (CfgStr "user") in
                  let llm_config := delete "interrupt_method" llm_config in
                  let llm_configs := <[provider := llm_config]> llm_configs in
                  match create_llm env provider system_prompt llm_config with
                  | Raise e => (llm_configs, log1, Raise e)
                  | Ok llm =>
                      let base_args :=
                        add_optional_args custom_settings
                          (base_args_of llm system_prompt interrupt_method) in
                      let extra_kwargs :=
                        extra_kwargs_of custom_settings base_args in
                      let agent :=
                        CustomAgent agent_class base_args extra_kwargs in
                      match construct env agent with
                      | Raise e =>
                          (llm_configs,
                           log1 ++ [LogInstantiateFailed conversation_agent_choice],
                           Raise e)
                      | Ok _ =>
                          (llm_configs,
                           log1 ++ [LogInstantiated conversation_agent_choice],
                           Ok agent)
                      end
                  end
              end
          end
    end.

End CreateAgent.

(** The [interrupt_method] an agent was constructed with, for the classes
    that take one. *)
Definition interrupt_method_of (agent : AgentCall) : option ConfigValue :=
  match agent with
  | BasicMemoryAgent _ _ _ _ _ interrupt_method => Some interrupt_method
  | CustomAgent _ base_args _ =>
      match base_args !! "interrupt_method" with
      | Some (ArgSetting v) => Some v
      | _ => None
      end
  | _ => None
  end.

End AgentFactory.

(** * agent/stateless_llm/ollama_native_llm.py: the Ollama client

    [chat_completion] rewrites the messages it is given, sends one request
    and yields one item.  The request is made by [requests.post] in a
    thread; what comes back, or that nothing does, is given. *)

(** A part of a list-valued "content". *)
Inductive ContentPart : Type :=
| TextPart (text_entry : option PyObj)
    (* a dict whose "type" is "text", with its "text" entry if it has one *)
| OtherPart.
    (* a dict of another type, or not a dict *)

(** The "content" of a message: a list of parts, or any other value
    ([None] when the message has no content). *)
Inductive MessageContent : Type :=
| ContentParts (parts : list ContentPart)
| ContentValue (v : PyObj).

Record ChatMessage : Type := mkMessage {
  msg_role : string;
  msg_content : MessageContent
}.

(** [sep.join(items)]: [TypeError] when an item is not a [str]. *)
Fixpoint py_join (sep : text) (items : list PyObj) : result text :=
  match items with
  | [] => Ok []
  | PyStr t :: rest =>
      match rest with
      | [] => Ok t
      | _ :: _ =>
          match py_join sep rest with
          | Ok joined => Ok (t ++ sep ++ joined)
          | Raise e => Raise e
          end
      end
  | _ :: _ => Raise (TypeError "sequence item: expected str instance")
  end.

(** The list [texts] collected from the parts of a content. *)
Definition part_texts (parts : list ContentPart) : list PyObj :=
  omap (λ part, match part with
                | TextPart text_entry => Some (default (PyStr []) text_entry)
                | OtherPart => None
                end) parts.

(** The body of the loop over the messages, for one message: the message
    as the loop leaves it. *)
Definition flatten_message (msg : ChatMessage) : result ChatMessage :=
  match msg_content msg with
  | ContentParts parts =>
      match py_join (text_of_string " ") (part_texts parts) with
      | Ok joined => Ok (mkMessage (msg_role msg) (ContentValue (PyStr joined)))
      | Raise e => Raise e
      end
  | ContentValue _ => Ok msg
  end.

(** The loop over the messages.  The messages are rewritten in place, so
    the first component is the caller's list as the loop leaves it, also
    when it raises; the second is what the loop has appended to
    [processed_messages]. *)
Fixpoint flatten_messages (messages : list ChatMessage)
  : list ChatMessage * result (list ChatMessage) :=
  match messages with
  | [] => ([], Ok [])
  | msg :: rest =>
      match flatten_message msg with
      | Raise e => (msg :: rest, Raise e)
      | Ok msg' =>
          let '(rest', appended) := flatten_messages rest in
          (msg' :: rest',
           match appended with
           | Ok processed => Ok (msg' :: processed)
           | Raise e => Raise e
           end)
      end
  end.

(** The attributes of an [OllamaNativeLLM] that [chat_completion] reads. *)
Record OllamaNativeLLM : Type := mkOllama {
  model : string;
  base_url : string;
  temperature : Q;
  keep_alive : Q
}.

(** The request: the URL and the JSON payload. *)
Record OllamaRequest : Type := mkRequest {
  req_url : string;
  req_model : string;
  req_messages : list ChatMessage;
  req_stream : bool;
  req_temperature : Q;
  req_num_keep_alive : Q
}.

(** A response: its status code, and what the look-up of
    [data["message"]["content"]] in [response.json()] comes to: the content,
    [None] when one of the two keys is missing, or the exception that
    [json()] or one of the membership tests raises. *)
Record HttpResponse : Type := mkResponse {
  status_code : Z;
  message_content : result (option PyObj)
}.

(** [str(n)] for an integer. *)
Definition int_str (z : Z) : text :=
  text_of_string (NilEmpty.string_of_int (Z.to_int z)).

(** What a call of [chat_completion] comes to, iterated to its end: the
    caller's messages as it leaves them, the request it sent if it sent one,
    and the items it yielded. *)
Record ChatResult : Type := mkChat {
  messages_after : list ChatMessage;
  request_sent : option OllamaRequest;
  yielded_items : outcome (list PyObj)
}.

(** [OllamaNativeLLM.chat_completion] *)
Definition chat_completion (self : OllamaNativeLLM)
    (requests_post : OllamaRequest → outcome HttpResponse)
    (messages : list ChatMessage) (system : option text) : ChatResult :=
  let system_messages :=
    match system with
    | Some (c :: prompt) =>
        [mkMessage "system" (ContentValue (PyStr (c :: prompt)))]
    | _ => []
    end in
  match flatten_messages messages with
  | (messages, Raise e) => mkChat messages None (Raises e)
  | (messages, Ok processed) =>
      let payload :=
        mkRequest (base_url self +:+ "/api/chat") (model self)
          (system_messages ++ processed) false (temperature self)
          (keep_alive self) in
      mkChat messages (Some payload)
        match requests_post payload with
        | Cancelled => Cancelled
        | Raises e => Returns [PyStr (text_of_string "Error: " ++ exn_str e)]
        | Returns response =>
            if negb (status_code response =? 200)%Z then
              Returns [PyStr (text_of_string "Error: Ollama returned "
                              ++ int_str (status_code response))]
            else
              match message_content response with
              | Ok (Some content) => Returns [content]
              | Ok None =>
                  Returns [PyStr (text_of_string "Error: Unexpected response")]
              | Raise e =>
                  Returns [PyStr (text_of_string "Error: " ++ exn_str e)]
              end
        end
  end.

(** A message whose content is not a list, and a part whose text is a
    [str] or absent. *)
Definition is_flat (msg : ChatMessage) : Prop :=
  match msg_content msg with ContentValue _ => True | ContentParts _ => False end.

Definition well_typed_part (part : ContentPart) : Prop :=
  match part with
  | TextPart (Some (PyStr _)) | TextPart None | OtherPart => True
  | TextPart (Some _) => False
  end.

Definition well_typed (msg : ChatMessage) : Prop :=
  match msg_content msg with
  | ContentParts parts => Forall well_typed_part parts
  | ContentValue _ => True
  end.

(** ** A concrete environment

    Audio is given as the list of the RMS values of its windows; a file
    decodes to five windows unless its name is ["corrupt.mp3"] (which cannot
    be decoded) or ["silence.mp3"] (all windows silent).  Display texts and
    actions are plain strings. *)
Definition demo_from_file (path : string) : result (list N) :=
  if String.eqb path "corrupt.mp3" then Raise (OtherException "CouldntDecodeError" "")
  else if String.eqb path "silence.mp3" then Ok [0; 0; 0]%N
  else Ok [10; 20; 0; 40; 20]%N.

Definition demo_externals : Externals := {|
  AudioSegment := list N;
  make_chunks := fun audio _ => (fun v => [v]) <$> audio;
  rms := fun chunk => hd 0%N chunk;
  from_file := demo_from_file;
  export_wav := fun audio => Ok audio;
  b64encode := fun _ => "UklGRg==";
  DisplayText := string;
  DisplayDict := string;
  display_to_dict := fun d => d;
  Actions := string;
  ActionsDict := string;
  actions_to_dict := fun a => a
|}.

(** An engine that writes [file_name_no_ext ++ ".mp3"], and one that is
    unreachable. *)
Definition demo_engine : TTSInterface :=
  mkTTS (fun _ file_name_no_ext => Ok (file_name_no_ext +:+ ".mp3"))
        (fun _ => Ok tt).
Definition offline_engine : TTSInterface :=
  mkTTS (fun _ _ => Raise (OtherException "NoAudioReceived" ""))
        (fun _ => Ok tt).

Section Scenarios.
#[local] Existing Instance demo_externals.

(** The world of a manager that has just been created. *)
Definition demo_world : World := init_world.

(** Five windows of audio, and three windows of silence. *)
Definition demo_audio : AudioSegment := [10; 20; 0; 40; 20]%N.
Definition demo_silence : AudioSegment := [0; 0; 0]%N.

(** Calls of [speak] with a display text and no actions. *)
Definition demo_speak (tts_text display_text : string) : Event :=
  EvSpeak (PyStr (text_of_string tts_text)) (Some display_text) None demo_engine.

(** An object whose [__str__] returns an [int]: [str()] raises
    [TypeError]. *)
Definition broken_str : PyAny :=
  Unprintable (TypeError "__str__ returned non-string (type int)").

(** The payloads the workers build in this environment. *)
Definition demo_audio_payload (display_text : string) : Payload :=
  mkPayload "audio" (Some "UklGRg==")
    [10 # 40; 20 # 40; 0 # 40; 40 # 40; 20 # 40]%Q 20 (Some display_text)
    None false.
Definition demo_silent_payload (display_text : string) : Payload :=
  silent_payload (Some display_text) None.

(** The scenario of three segments: "Hello." and "How are you?" are
    synthesized, the second finishing first; ".." is only punctuation. *)
Definition three_segments : list Event :=
  [demo_speak "Hello." "A"; demo_speak "How are you?" "B"; demo_speak ".." "C";
   EvSender send_ok; EvWorker 1 "b"; EvSender send_ok;
   EvWorker 0 "a"; EvSender send_ok].

(** A turn is interrupted while the worker of its one segment is still
    synthesizing; the next turn submits one segment; then the old worker
    finishes, then the new one. *)
Definition interrupted_turn : list Event :=
  [demo_speak "Hello" "old"; EvClear; EvSenderExit;
   demo_speak "Hi" "new"; EvWorker 0 "f0"; EvSender send_ok;
   EvWorker 1 "f1"; EvSender send_ok].

(** A turn all of whose segments are punctuation only. *)
Definition silent_turn : list Event :=
  [demo_speak "..." "A"; demo_speak "!?" "B";
   EvSender send_ok; EvSender send_ok; EvWaitPending send_ok].

(** The first send fails; the payloads at positions 1 and 2 arrive later
    on a channel that works again. *)
Definition failed_first_send : list (WebSocketSend * (Payload * nat)) :=
  [(send_fail, (demo_audio_payload "A", 0));
   (send_ok, (demo_audio_payload "B", 1));
   (send_ok, (demo_silent_payload "C", 2))].

(** The recording of [demo_audio] played three times as loud. *)
Definition demo_loud_audio : AudioSegment := [30; 60; 0; 120; 60]%N.

(** A turn on a channel that breaks: the silent segment "A" goes out, the
    send of the synthesized segment "B" fails. *)
Definition lossy_turn : list Event :=
  [demo_speak ".." "A"; demo_speak "Hello." "B"; EvSender send_ok;
   EvWorker 0 "b"; EvSender send_fail].

(** A sender that waits for position 0 with an empty buffer. *)
Definition demo_sender : SenderState := mkSender ∅ 0 [] [].

End Scenarios.

(** ** A concrete turn

    Agent outputs and tool statuses are plain strings, the batch input is
    the text of the user. *)
Definition demo_turn_types : TurnTypes := {|
  AgentOutput := string;
  BatchInput := text;
  ToolStatus := string
|}.

Section TurnScenarios.
#[local] Existing Instance demo_turn_types.

(** The agent yields a sentence, a tool status, a sentence-like object and
    an item of an unknown type, and then breaks. *)
Definition demo_stream : AgentStream :=
  mkStream [Output "Hello "; ToolCallStatus "running"; SentenceLike "world";
            Unexpected]
    (Raises (ValueError "stream broke")).

(** Collaborators that all succeed; [process_agent_output] returns the text
    of the output it is given, and one TTS task is pending. *)
Definition demo_collaborators : Collaborators := {|
  send_conversation_start_signals := λ _, Returns tt;
  process_user_input := λ _, Returns (text_of_string "hi");
  create_batch_input := λ _ input_text, Ok input_text;
  store_message := λ _ _ _, Ok tt;
  agent_chat := λ _, demo_stream;
  process_agent_output := λ _ o, Returns (PyStr (text_of_string o));
  websocket_send := λ _ _, Returns tt;
  task_list_nonempty := λ _, true;
  gather := λ _, Returns tt;
  finalize_conversation_turn := λ _, Returns tt;
  cleanup_conversation := λ _, Ok tt
|}.

(** The same collaborators on a channel that is closed. *)
Definition closed_channel : Collaborators := {|
  send_conversation_start_signals := λ _, Returns tt;
  process_user_input := λ _, Returns (text_of_string "hi");
  create_batch_input := λ _ input_text, Ok input_text;
  store_message := λ _ _ _, Ok tt;
  agent_chat := λ _, demo_stream;
  process_agent_output := λ _ o, Returns (PyStr (text_of_string o));
  websocket_send := λ _ _, Raises (OtherException "ConnectionClosed" "closed");
  task_list_nonempty := λ _, true;
  gather := λ _, Returns tt;
  finalize_conversation_turn := λ _, Returns tt;
  cleanup_conversation := λ _, Ok tt
|}.

(** The same collaborators with a user who interrupts while the input is
    transcribed. *)
Definition interrupted_input : Collaborators := {|
  send_conversation_start_signals := λ _, Returns tt;
  process_user_input := λ _, Cancelled;
  create_batch_input := λ _ input_text, Ok input_text;
  store_message := λ _ _ _, Ok tt;
  agent_chat := λ _, demo_stream;
  process_agent_output := λ _ o, Returns (PyStr (text_of_string o));
  websocket_send := λ _ _, Returns tt;
  task_list_nonempty := λ _, true;
  gather := λ _, Returns tt;
  finalize_conversation_turn := λ _, Returns tt;
  cleanup_conversation := λ _, Ok tt
|}.

Definition demo_context : ServiceContext :=
  mkContext (Some "history-1") "Human" "Mao" "mao.png".

End TurnScenarios.

(** ** A concrete file system

    The file system is the set of the paths of its files; the synthesis
    writes its file unless the text is empty. *)
Definition demo_edge_externals : EdgeExternals := {|
  FileSystem := gset string;
  os_remove := λ files path,
    if decide (path ∈ files) then Ok (files ∖ {[path]})
    else Raise (OtherException "FileNotFoundError" path);
  save_sync := λ files text_ _ file_name,
    match text_ with
    | [] => (files, Raise (OtherException "NoAudioReceived" ""))
    | _ => (files ∪ {[file_name]}, Ok tt)
    end;
  generate_cache_file_name := λ file_name_no_ext file_extension,
    "cache/" +:+ default "temp" file_name_no_ext +:+ "." +:+ file_extension
|}.

Definition demo_edge_engine : TTSEngine :=
  mkEngine "en-US-AvaMultilingualNeural" "mp3".

(** An engine on an empty disk, and one on a disk with one cache file. *)
Definition empty_disk : @EdgeState demo_edge_externals :=
  @mkEdge demo_edge_externals ∅ [].
Definition disk_with_cache_file : @EdgeState demo_edge_externals :=
  @mkEdge demo_edge_externals {["cache/a.mp3"]} [].

(** ** A concrete factory

    An LLM is given by the name of its provider, a loaded class by its
    name; only the module "my_agents" can be imported. *)
Definition demo_factory_types : FactoryTypes := {|
  LLM := string;
  AgentClass := string
|}.

Definition demo_factory : @FactoryExternals demo_factory_types :=
  @mkFactory demo_factory_types
    (λ provider _ _, Ok provider)
    (λ module_path class_name,
       if String.eqb module_path "my_agents" then Ok class_name
       else Raise (OtherException "ModuleNotFoundError" module_path))
    (λ _, Ok tt).

Definition demo_agent_settings : gmap string Settings :=
  {[ "basic_memory_agent" :=
       {[ "llm_provider" := CfgStr "ollama_llm";
          "segment_method" := CfgStr "regex" ]};
     "my_agents.EchoAgent" :=
       {[ "llm_provider" := CfgStr "ollama_llm";
          "use_mcpp" := CfgBool true;
          "system" := CfgStr "a prompt of its own";
          "echo_count" := CfgInt 3 ]} ]}.

Definition demo_llm_configs : gmap string Settings :=
  {[ "ollama_llm" :=
       {[ "model" := CfgStr "qwen"; "interrupt_method" := CfgStr "system" ]} ]}.

(** ** A concrete conversation with Ollama

    A user message of four parts, one of them an image and one a text part
    without text, and an answer; a server that answers with status 500. *)
Definition demo_ollama : OllamaNativeLLM :=
  mkOllama "qwen" "http://localhost:11434" 0.8 (-1).

Definition demo_messages : list ChatMessage :=
  [mkMessage "user"
     (ContentParts [TextPart (Some (PyStr (text_of_string "What is")));
                    OtherPart; TextPart None;
                    TextPart (Some (PyStr (text_of_string "this?")))]);
   mkMessage "assistant" (ContentValue (PyStr (text_of_string "A cat.")))].

Definition broken_messages : list ChatMessage :=
  [mkMessage "user" (ContentParts [TextPart (Some (PyStr (text_of_string "Hi")))]);
   mkMessage "user" (ContentParts [TextPart (Some PyNone)])].

Definition failing_server : OllamaRequest → outcome HttpResponse :=
  λ _, Returns (mkResponse 500 (Ok None)).

(** * Properties *)

Section LoudnessProperties.
Context `{Ext : Externals}.

Lemma foldl_max_spec (l : list N) (x : N) :
  (x ≤ foldl N.max x l)%N
  ∧ Forall (λ v, (v ≤ foldl N.max x l)%N) l
  ∧ foldl N.max x l ∈ x :: l.
Proof.
  revert x. induction l as [|a l IH]; intros x; cbn.
  - split_and!; [lia|constructor|apply list_elem_of_here].
  - destruct (IH (N.max x a)) as (Hle & Hall & Hin). split_and!.
    + lia.
    + constructor; [lia|done].
    + apply elem_of_cons in Hin as [Hm|Hin].
      * rewrite Hm. destruct (N.max_spec x a) as [[_ ->]|[_ ->]].
        -- apply list_elem_of_further, list_elem_of_here.
        -- apply list_elem_of_here.
      * by do 2 apply list_elem_of_further.
Qed.

Lemma py_max_spec (l : list N) (m : N) :
  py_max l = Ok m → Forall (λ v, (v ≤ m)%N) l ∧ m ∈ l.
Proof.
  destruct l as [|x l]; [done|]. cbn. intros [= <-].
  destruct (foldl_max_spec l x) as (? & ? & ?). split; [by constructor|done].
Qed.

Lemma py_max_nonempty (l : list N) :
  l ≠ [] → ∃ m, py_max l = Ok m.
Proof. destruct l; [done|]. eauto. Qed.

Lemma py_truediv_range (v m : N) :
  (v ≤ m)%N → m ≠ 0%N → (0 <= py_truediv v m /\ py_truediv v m <= 1)%Q.
Proof.
  intros Hle Hm. destruct m as [|p]; [done|].
  unfold py_truediv, Qdiv, Qmult, Qinv, Qle. cbn. lia.
Qed.

Lemma py_truediv_self (m : N) : m ≠ 0%N → (py_truediv m m == 1)%Q.
Proof.
  intros Hm. destruct m as [|p]; [done|].
  unfold py_truediv, Qdiv, Qmult, Qinv, Qeq. cbn. lia.
Qed.

(** C7.  Loudness normalization: when the RMS values of the windows are not
    all zero, the analyzer returns every window's RMS divided by the largest
    RMS; each value of the envelope lies between 0 and 1 and one of them is
    1.  For the RMS values 10, 20, 0, 40, 20 the envelope is
    0.25, 0.5, 0, 1, 0.5. *)
Theorem loudness_normalization (audio : AudioSegment) (chunk_length_ms : Z) :
  let volumes := map rms (make_chunks audio chunk_length_ms) in
  Exists (λ v, v ≠ 0%N) volumes →
  ∃ max_volume,
    py_max volumes = Ok max_volume
    ∧ Forall (λ v, (v ≤ max_volume)%N) volumes
    ∧ max_volume ∈ volumes
    ∧ _get_volume_by_chunks audio chunk_length_ms
      = Ok (map (λ v, py_truediv v max_volume) volumes)
    ∧ Forall (λ q, 0 <= q /\ q <= 1)%Q
        (map (λ v, py_truediv v max_volume) volumes)
    ∧ Exists (λ q, q == 1)%Q (map (λ v, py_truediv v max_volume) volumes)
    ∧ (volumes = [10; 20; 0; 40; 20]%N →
       Forall2 Qeq (map (λ v, py_truediv v max_volume) volumes)
         [0.25; 0.5; 0; 1; 0.5]%Q).
Proof.
  intros volumes Hex.
  assert (volumes ≠ []) as Hne by (intros Heq; rewrite Heq in Hex; inversion Hex).
  destruct (py_max_nonempty volumes Hne) as [m Hm].
  destruct (py_max_spec volumes m Hm) as [Hall Hin].
  assert (m ≠ 0%N) as Hm0.
  { intros ->. apply Exists_exists in Hex as (v & Hv & Hv0).
    rewrite Forall_forall in Hall. specialize (Hall v Hv). lia. }
  exists m. split_and!; [done..| | | |].
  - unfold _get_volume_by_chunks. fold volumes. rewrite Hm.
    destruct (N.eqb_spec m 0); [done|]. done.
  - apply Forall_fmap. eapply Forall_impl; [exact Hall|].
    intros v Hv. by apply py_truediv_range.
  - apply Exists_exists. exists (py_truediv m m). split.
    + apply list_elem_of_fmap. eauto.
    + by apply py_truediv_self.
  - intros Heq. rewrite Heq in Hm |- *. cbn in Hm. injection Hm as <-.
    repeat constructor.
Qed.

(** C8.  All-silence is an error: when every window has RMS zero (also when
    there is no window at all) the analyzer raises [ValueError] and returns
    no envelope. *)
Theorem all_silence_raises (audio : AudioSegment) (chunk_length_ms : Z) :
  Forall (λ v, v = 0%N) (map rms (make_chunks audio chunk_length_ms)) →
  ∃ msg, _get_volume_by_chunks audio chunk_length_ms = Raise (ValueError msg).
Proof.
  intros Hall. unfold _get_volume_by_chunks.
  destruct (map rms (make_chunks audio chunk_length_ms)) as [|x l] eqn:Hv;
    [by eexists|].
  destruct (py_max_spec (x :: l) _ eq_refl) as [_ Hin].
  rewrite Forall_forall in Hall. cbn [py_max]. rewrite (Hall _ Hin).
  by eexists.
Qed.

End LoudnessProperties.

Section SenderProperties.
Context `{Ext : Externals}.
Implicit Types (s : SenderState) (ws : WebSocketSend) (k n : nat).

(** ** The flush loop *)

Lemma flush_loop_unfold fuel ws s :
  flush_loop (S fuel) ws s =
  match buffered_payloads s !! next_sequence_to_send s with
  | None => (s, FlushDone)
  | Some next_payload =>
      let popped := delete (next_sequence_to_send s) (buffered_payloads s) in
      match ws (sent s) (AudioMsg next_payload) with
      | Raise _ =>
          (mkSender popped (next_sequence_to_send s) (sent s) (sender_log s),
           FlushRaised)
      | Ok _ =>
          flush_loop fuel ws
            (mkSender popped (S (next_sequence_to_send s))
               (sent s ++ [AudioMsg next_payload])
               (sender_log s ++ [LogSent (next_sequence_to_send s)]))
      end
  end.
Proof. reflexivity. Qed.

(** The fuel handed over by [sender_iteration] is never used up. *)
Lemma flush_loop_fuel fuel ws s :
  size (buffered_payloads s) < fuel → (flush_loop fuel ws s).2 ≠ FlushFuel.
Proof.
  revert s. induction fuel as [|fuel IH]; intros s Hsz; [lia|].
  rewrite flush_loop_unfold.
  destruct (buffered_payloads s !! next_sequence_to_send s) as [p|] eqn:Hl;
    [|done].
  cbn zeta. destruct (ws (sent s) (AudioMsg p)); [|done].
  apply IH; cbn.
  rewrite map_size_delete_Some; [|by eexists].
  assert (size (buffered_payloads s) ≠ 0)
    by (eapply map_size_ne_0_lookup_2; by eexists).
  lia.
Qed.

(** An invariant of the loop is carried to its exit, whichever way it is
    left. *)
Lemma flush_loop_ind (P : SenderState → Prop) fuel ws s :
  (∀ s p, P s → buffered_payloads s !! next_sequence_to_send s = Some p →
     ws (sent s) (AudioMsg p) = Ok tt →
     P (mkSender (delete (next_sequence_to_send s) (buffered_payloads s))
          (S (next_sequence_to_send s)) (sent s ++ [AudioMsg p])
          (sender_log s ++ [LogSent (next_sequence_to_send s)]))) →
  (∀ s p e, P s → buffered_payloads s !! next_sequence_to_send s = Some p →
     ws (sent s) (AudioMsg p) = Raise e →
     P (mkSender (delete (next_sequence_to_send s) (buffered_payloads s))
          (next_sequence_to_send s) (sent s) (sender_log s))) →
  P s → P (flush_loop fuel ws s).1.
Proof.
  intros Hok Hraise. revert s.
  induction fuel as [|fuel IH]; intros s HP; [done|].
  rewrite flush_loop_unfold.
  destruct (buffered_payloads s !! next_sequence_to_send s) as [p|] eqn:Hl;
    [|done].
  cbn zeta. destruct (ws (sent s) (AudioMsg p)) as [[]|e] eqn:Hws.
  - apply IH. by apply Hok.
  - cbn. by eapply Hraise.
Qed.

(** How the loop can be left: by its condition, with the next position
    absent from the buffer, or by a failed send, with the next position just
    removed from it. *)
Lemma flush_loop_exit fuel ws s :
  (flush_loop fuel ws s).2 ≠ FlushFuel →
  buffered_payloads (flush_loop fuel ws s).1
    !! next_sequence_to_send (flush_loop fuel ws s).1 = None.
Proof.
  revert s. induction fuel as [|fuel IH]; intros s; [done|].
  rewrite flush_loop_unfold.
  destruct (buffered_payloads s !! next_sequence_to_send s) as [p|] eqn:Hl;
    [|done].
  cbn zeta. destruct (ws (sent s) (AudioMsg p)) as [[]|e] eqn:Hws.
  - apply IH.
  - intros _. cbn. apply lookup_delete_eq.
Qed.

Lemma flush_loop_reliable fuel ws s :
  reliable ws → (flush_loop fuel ws s).2 ≠ FlushRaised.
Proof.
  intros Hws. revert s. induction fuel as [|fuel IH]; intros s; [done|].
  rewrite flush_loop_unfold.
  destruct (buffered_payloads s !! next_sequence_to_send s); [|done].
  cbn zeta. rewrite Hws. apply IH.
Qed.

(** ** One pass of the sender *)

Lemma sent_sequence_numbers_app (l1 l2 : list LogEvent) :
  sent_sequence_numbers (l1 ++ l2)
  = sent_sequence_numbers l1 ++ sent_sequence_numbers l2.
Proof. apply omap_app. Qed.

Lemma sender_iteration_inv ws p k seen s :
  sender_inv seen s → sender_inv (seen ++ [k]) (sender_iteration ws (p, k) s).
Proof.
  intros Hinv. unfold sender_iteration.
  set (s1 := mkSender _ _ _ _).
  assert (sender_inv (seen ++ [k]) (flush_loop (S (size (buffered_payloads s1))) ws s1).1)
    as Hloop.
  { apply flush_loop_ind.
    - intros s' p' [Hlog Hcnt Hbuf Hfl] Hl _. split; cbn -[seq].
      + rewrite sent_sequence_numbers_app, Hlog, seq_S. done.
      + unfold audio_payloads in *. rewrite omap_app, length_app, Hcnt. cbn. lia.
      + intros k' [x Hx]. apply lookup_delete_Some in Hx as [_ Hx]. eauto.
      + intros k' Hlt. destruct (decide (k' = next_sequence_to_send s')) as [->|].
        * apply Hbuf. eauto.
        * apply Hfl. lia.
    - intros s' p' e [Hlog Hcnt Hbuf Hfl] Hl _. split; cbn; [done..| |done].
      intros k' [x Hx]. apply lookup_delete_Some in Hx as [_ Hx]. eauto.
    - destruct Hinv as [Hlog Hcnt Hbuf Hfl]. split; cbn; [done..| |].
      + intros k' [x Hx]. apply lookup_insert_Some in Hx as [[-> _]|[_ Hx]].
        * set_solver.
        * apply elem_of_app. left. eauto.
      + intros k' Hlt. apply elem_of_app. left. eauto. }
  destruct (flush_loop _ ws s1) as [s2 []]; cbn in Hloop; [done| |done].
  destruct Hloop as [Hlog Hcnt Hbuf Hfl]. split; cbn; [|done..].
  rewrite sent_sequence_numbers_app, Hlog. cbn. apply app_nil_r.
Qed.

Lemma sender_iteration_above ws p k seen s :
  sender_inv seen s → k ∉ seen → buffer_above s →
  buffer_above (sender_iteration ws (p, k) s).
Proof.
  intros Hinv Hk Habove. unfold sender_iteration.
  set (s1 := mkSender _ _ _ _).
  pose proof (flush_loop_fuel (S (size (buffered_payloads s1))) ws s1
                ltac:(lia)) as Hfuel.
  pose proof (flush_loop_exit (S (size (buffered_payloads s1))) ws s1 Hfuel)
    as Hexit.
  assert (∀ k', is_Some
                  (buffered_payloads
                     (flush_loop (S (size (buffered_payloads s1))) ws s1).1 !! k')
                → next_sequence_to_send
                    (flush_loop (S (size (buffered_payloads s1))) ws s1).1 ≤ k')
    as Hloop.
  { apply (flush_loop_ind
             (λ s, ∀ k', is_Some (buffered_payloads s !! k')
                         → next_sequence_to_send s ≤ k')).
    - intros s' p' Hle Hl _ k' [x Hx]. cbn in *.
      apply lookup_delete_Some in Hx as [Hne Hx].
      specialize (Hle k' ltac:(eauto)). lia.
    - intros s' p' e Hle Hl _ k' [x Hx]. cbn in *.
      apply lookup_delete_Some in Hx as [Hne Hx]. eauto.
    - intros k' [x Hx]. cbn in *.
      apply lookup_insert_Some in Hx as [[-> _]|[_ Hx]].
      + destruct (decide (next_sequence_to_send s ≤ k')); [done|].
        exfalso. apply Hk, (inv_flushed_seen _ _ Hinv). lia.
      + specialize (Habove k' ltac:(eauto)). lia. }
  assert (buffer_above (flush_loop (S (size (buffered_payloads s1))) ws s1).1)
    as Hstrict.
  { intros k' Hk'. specialize (Hloop k' Hk').
    destruct (decide (k' = next_sequence_to_send
                             (flush_loop (S (size (buffered_payloads s1))) ws s1).1))
      as [->|]; [|lia].
    rewrite Hexit in Hk'. by destruct Hk'. }
  destruct (flush_loop _ ws s1) as [s2 []]; done.
Qed.

Lemma audio_payloads_app (l1 l2 : list Msg) :
  audio_payloads (l1 ++ l2) = audio_payloads l1 ++ audio_payloads l2.
Proof. apply omap_app. Qed.

Lemma sender_iteration_delivery (R : nat → Payload → Prop) ws p k seen s :
  reliable ws → R k p →
  sender_inv seen s → k ∉ seen →
  delivery_inv R seen s →
  delivery_inv R (seen ++ [k]) (sender_iteration ws (p, k) s).
Proof.
  intros Hws Hp Hinv Hk [Hsent Hbuf Hwait Hnext]. unfold sender_iteration.
  set (s1 := mkSender _ _ _ _).
  pose proof (flush_loop_fuel (S (size (buffered_payloads s1))) ws s1
                ltac:(lia)) as Hfuel.
  pose proof (flush_loop_exit (S (size (buffered_payloads s1))) ws s1 Hfuel)
    as Hexit.
  assert (next_sequence_to_send s ≤ k) as Hle.
  { destruct (decide (next_sequence_to_send s ≤ k)); [done|].
    exfalso. apply Hk, (inv_flushed_seen _ _ Hinv). lia. }
  set (P := λ s : SenderState,
         length (audio_payloads (sent s)) = next_sequence_to_send s
         ∧ (∀ (i : nat) p', audio_payloads (sent s) !! i = Some p' → R i p')
         ∧ (∀ (k' : nat) p', buffered_payloads s !! k' = Some p' → R k' p')
         ∧ (∀ k', k' ∈ seen ++ [k] → next_sequence_to_send s ≤ k' →
                  is_Some (buffered_payloads s !! k'))).
  assert (P (flush_loop (S (size (buffered_payloads s1))) ws s1).1) as Hloop.
  { apply flush_loop_ind.
    - intros s' p' (Hc & Hs & Hb & Hw) Hl _.
      split_and!; cbn [buffered_payloads next_sequence_to_send sent sender_log].
      + rewrite audio_payloads_app, length_app, Hc. cbn. lia.
      + intros i x. rewrite audio_payloads_app. cbn [audio_payloads omap].
        destruct (decide (i < length (audio_payloads (sent s')))) as [Hlt|Hge].
        * rewrite lookup_app_l by done. apply Hs.
        * rewrite lookup_app_r by lia.
          destruct (i - length (audio_payloads (sent s'))) as [|i'] eqn:Hi;
            cbn; [|by destruct i'].
          intros [= <-]. replace i with (next_sequence_to_send s') by lia.
          by apply Hb.
      + intros k' x Hx. apply lookup_delete_Some in Hx as [_ Hx]. eauto.
      + intros k' Hin Hlt. rewrite lookup_delete_ne by lia. apply Hw; [done|lia].
    - intros s' p' e _ _ Hraise. by rewrite Hws in Hraise.
    - split_and!; cbn.
      + apply (inv_count _ _ Hinv).
      + done.
      + intros k' x Hx. apply lookup_insert_Some in Hx as [[-> <-]|[_ Hx]]; eauto.
      + intros k' Hin Hlt. apply elem_of_app in Hin as [Hin|Hin].
        * destruct (decide (k = k')) as [->|]; [by rewrite lookup_insert_eq|].
          rewrite lookup_insert_ne by done. by apply Hwait.
        * apply list_elem_of_singleton in Hin as ->. by rewrite lookup_insert_eq. }
  pose proof (flush_loop_reliable (S (size (buffered_payloads s1))) ws s1 Hws)
    as Hnr.
  destruct (flush_loop _ ws s1) as [s2 []]; cbn in *; [|done..].
  destruct Hloop as (Hc & Hs & Hb & Hw). by split.
Qed.

(** ** The sender over a whole run *)

Lemma process_queue_snoc n sent0 items ws it :
  _process_payload_queue n sent0 (items ++ [(ws, it)])
  = sender_iteration ws it (_process_payload_queue n sent0 items).
Proof. unfold _process_payload_queue, sender_feed. by rewrite foldl_app. Qed.

Lemma process_queue_inv (items : list (WebSocketSend * (Payload * nat))) :
  sender_inv (items.*2.*2) (_process_payload_queue 0 [] items).
Proof.
  induction items as [|[ws [p k]] items IH] using rev_ind.
  - by split; cbn; [..|intros k [? ?]|intros k ?; lia].
  - rewrite process_queue_snoc, !fmap_app. by apply sender_iteration_inv.
Qed.

Lemma process_queue_above (items : list (WebSocketSend * (Payload * nat))) :
  NoDup (items.*2.*2) → buffer_above (_process_payload_queue 0 [] items).
Proof.
  induction items as [|[ws [p k]] items IH] using rev_ind; intros Hnd.
  - by intros k [? ?].
  - rewrite !fmap_app in Hnd. apply NoDup_app in Hnd as (Hnd & Hk & _).
    rewrite process_queue_snoc.
    eapply sender_iteration_above; [apply process_queue_inv| |by apply IH].
    intros Hin. apply (Hk _ Hin). cbn. apply list_elem_of_here.
Qed.

Lemma deliver_all_items (arrivals : list (Payload * nat)) :
  ((λ it, (send_ok, it)) <$> arrivals).*2 = arrivals.
Proof. rewrite <-list_fmap_compose. apply list_fmap_id. Qed.

Lemma deliver_all_snoc arrivals it :
  deliver_all (arrivals ++ [it]) = sender_iteration send_ok it (deliver_all arrivals).
Proof. unfold deliver_all. rewrite fmap_app. apply process_queue_snoc. Qed.

Lemma deliver_all_inv (arrivals : list (Payload * nat)) :
  sender_inv (arrivals.*2) (deliver_all arrivals).
Proof.
  unfold deliver_all. rewrite <-(deliver_all_items arrivals) at 1.
  apply process_queue_inv.
Qed.

Lemma deliver_all_above (arrivals : list (Payload * nat)) :
  NoDup (arrivals.*2) → buffer_above (deliver_all arrivals).
Proof.
  intros Hnd. apply process_queue_above. by rewrite deliver_all_items.
Qed.

Lemma send_ok_reliable : reliable send_ok.
Proof. done. Qed.

Lemma deliver_all_delivery (R : nat → Payload → Prop)
    (arrivals : list (Payload * nat)) :
  NoDup (arrivals.*2) →
  (∀ p k, (p, k) ∈ arrivals → R k p) →
  delivery_inv R (arrivals.*2) (deliver_all arrivals).
Proof.
  induction arrivals as [|[p k] arrivals IH] using rev_ind; intros Hnd Hpl.
  - split; cbn; [by intros i p|by intros k p|by intros k ?%elem_of_nil|done].
  - rewrite fmap_app in *. apply NoDup_app in Hnd as (Hnd & Hk & _).
    rewrite deliver_all_snoc.
    apply sender_iteration_delivery.
    + apply send_ok_reliable.
    + apply Hpl. set_solver.
    + apply deliver_all_inv.
    + intros Hin. apply (Hk _ Hin). cbn. apply list_elem_of_here.
    + apply IH; [done|]. intros ???. apply Hpl. set_solver.
Qed.

(** The sender puts nothing but audio payloads on the channel. *)
Lemma deliver_all_audio (arrivals : list (Payload * nat)) :
  sent (deliver_all arrivals) = AudioMsg <$> audio_payloads (sent (deliver_all arrivals)).
Proof.
  induction arrivals as [|[p k] arrivals IH] using rev_ind; [done|].
  rewrite deliver_all_snoc. unfold sender_iteration.
  set (s1 := mkSender _ _ _ _).
  assert (sent (flush_loop (S (size (buffered_payloads s1))) send_ok s1).1
          = AudioMsg <$> audio_payloads
                           (sent (flush_loop (S (size (buffered_payloads s1)))
                                    send_ok s1).1)) as Hloop.
  { apply (flush_loop_ind (λ s, sent s = AudioMsg <$> audio_payloads (sent s))).
    - intros s' p' Hs _ _. cbn [sent].
      rewrite audio_payloads_app, fmap_app, <-Hs. done.
    - intros s' p' e Hs _ _. done.
    - done. }
  by destruct (flush_loop _ send_ok s1) as [s2 []].
Qed.

(** The sequence numbers the Sequencer hands to [payloads], in order. *)
Lemma submitted_positions (payloads : list Payload) (arrivals : list (Payload * nat)) :
  arrivals ≡ₚ zip payloads (seq 0 (length payloads)) →
  arrivals.*2 ≡ₚ seq 0 (length payloads)
  ∧ ∀ p k, (p, k) ∈ arrivals → payloads !! k = Some p.
Proof.
  intros Hperm. split.
  - rewrite Hperm, snd_zip; [done|]. by rewrite length_seq.
  - intros p k Hin. rewrite Hperm in Hin.
    apply list_elem_of_lookup in Hin as [i Hi].
    apply lookup_zip_Some in Hi as [Hp Hk].
    apply lookup_seq in Hk as [-> _]. done.
Qed.

(** Whatever the order of arrival, the channel receives the payloads in the
    order of their positions. *)
Lemma deliver_all_in_order (payloads : list Payload)
    (arrivals : list (Payload * nat)) :
  arrivals ≡ₚ zip payloads (seq 0 (length payloads)) →
  sent (deliver_all arrivals) = AudioMsg <$> payloads
  ∧ sent_sequence_numbers (sender_log (deliver_all arrivals))
    = seq 0 (length payloads)
  ∧ next_sequence_to_send (deliver_all arrivals) = length payloads
  ∧ buffered_payloads (deliver_all arrivals) = ∅.
Proof.
  intros Hperm.
  destruct (submitted_positions _ _ Hperm) as [Hseen Hpl].
  assert (NoDup (arrivals.*2)) as Hnd by (rewrite Hseen; apply NoDup_seq).
  pose proof (deliver_all_inv arrivals) as [Hlog Hcnt Hbuf Hfl].
  pose proof (deliver_all_delivery (λ k p, payloads !! k = Some p) arrivals
                Hnd Hpl) as [Hsent Hcontent Hwait Hnext].
  pose proof (deliver_all_above arrivals Hnd) as Habove.
  pose proof (deliver_all_audio arrivals) as Haudio.
  set (s := deliver_all arrivals) in *.
  assert (next_sequence_to_send s = length payloads) as Hn.
  { destruct (Nat.lt_trichotomy (next_sequence_to_send s) (length payloads))
      as [Hlt|[?|Hgt]]; [|done|].
    - exfalso. destruct (Hwait (next_sequence_to_send s)) as [x Hx]; [|lia|].
      + rewrite Hseen. apply elem_of_seq. lia.
      + by rewrite Hnext in Hx.
    - exfalso. specialize (Hfl (length payloads) Hgt).
      rewrite Hseen in Hfl. apply elem_of_seq in Hfl. lia. }
  assert (audio_payloads (sent s) = payloads) as Hall.
  { apply list_eq_same_length with (length payloads); [done|lia|].
    intros i x y Hi Hx Hy. apply Hsent in Hx. congruence. }
  split_and!.
  - by rewrite Haudio, Hall.
  - by rewrite Hlog, Hn.
  - done.
  - apply map_empty. intros k.
    destruct (buffered_payloads s !! k) as [p|] eqn:Hk; [exfalso|done].
    assert (k ∈ arrivals.*2) as Hin by (apply Hbuf; eauto).
    rewrite Hseen in Hin. apply elem_of_seq in Hin.
    specialize (Habove k ltac:(eauto)). lia.
Qed.


(** ** Delivery order on a channel that may fail *)

Lemma sender_iteration_carries (R : nat → Payload → Prop) ws p (k : nat) s :
  R k p →
  length (audio_payloads (sent s)) = next_sequence_to_send s →
  (∀ (i : nat) p', audio_payloads (sent s) !! i = Some p' → R i p') →
  (∀ (k' : nat) p', buffered_payloads s !! k' = Some p' → R k' p') →
  (∀ (i : nat) p',
     audio_payloads (sent (sender_iteration ws (p, k) s)) !! i = Some p' → R i p')
  ∧ (∀ (k' : nat) p',
       buffered_payloads (sender_iteration ws (p, k) s) !! k' = Some p' → R k' p').
Proof.
  intros Hp Hcnt Hsent Hbuf. unfold sender_iteration.
  set (s1 := mkSender _ _ _ _).
  set (P := λ s : SenderState,
         length (audio_payloads (sent s)) = next_sequence_to_send s
         ∧ (∀ (i : nat) p', audio_payloads (sent s) !! i = Some p' → R i p')
         ∧ (∀ (k' : nat) p', buffered_payloads s !! k' = Some p' → R k' p')).
  assert (P (flush_loop (S (size (buffered_payloads s1))) ws s1).1) as Hloop.
  { apply flush_loop_ind.
    - intros s' p' (Hc & Hs & Hb) Hl _.
      split_and!; cbn [buffered_payloads next_sequence_to_send sent sender_log].
      + rewrite audio_payloads_app, length_app, Hc. cbn. lia.
      + intros i x. rewrite audio_payloads_app. cbn [audio_payloads omap].
        destruct (decide (i < length (audio_payloads (sent s')))) as [Hlt|Hge].
        * rewrite lookup_app_l by done. apply Hs.
        * rewrite lookup_app_r by lia.
          destruct (i - length (audio_payloads (sent s'))) as [|i'] eqn:Hi;
            cbn; [|by destruct i'].
          intros [= <-]. replace i with (next_sequence_to_send s') by lia.
          by apply Hb.
      + intros k' x Hx. apply lookup_delete_Some in Hx as [_ Hx]. eauto.
    - intros s' p' e (Hc & Hs & Hb) _ _. split_and!; cbn; [done..|].
      intros k' x Hx. apply lookup_delete_Some in Hx as [_ Hx]. eauto.
    - split_and!; cbn; [done..|].
      intros k' x Hx. apply lookup_insert_Some in Hx as [[-> <-]|[_ Hx]]; eauto. }
  destruct (flush_loop _ ws s1) as [s2 []]; cbn in *;
    destruct Hloop as (_ & Hs & Hb); by split.
Qed.

(** The sender alone, whatever the channel does: when every arrival is
    the payload of its position in [payloads], what has been delivered is
    the beginning of [payloads]: nothing goes out before its predecessors
    or out of its place. *)
Lemma process_queue_in_place (payloads : list Payload)
    (items : list (WebSocketSend * (Payload * nat))) :
  Forall (λ it, payloads !! it.2.2 = Some it.2.1) items →
  audio_payloads (sent (_process_payload_queue 0 [] items))
  = take (next_sequence_to_send (_process_payload_queue 0 [] items)) payloads.
Proof.
  intros Hitems.
  set (R := λ (k : nat) (p : Payload), payloads !! k = Some p).
  assert ((∀ (i : nat) p,
             audio_payloads (sent (_process_payload_queue 0 [] items)) !! i
             = Some p → R i p)
          ∧ (∀ (k : nat) p,
               buffered_payloads (_process_payload_queue 0 [] items) !! k
               = Some p → R k p)) as [Hsent _].
  { induction items as [|[ws [p k]] items IH] using rev_ind; [done|].
    apply Forall_app in Hitems as [Hitems Hit%Forall_inv].
    destruct (IH Hitems) as [Hs Hb]. rewrite process_queue_snoc.
    apply sender_iteration_carries; [done| |done..].
    by destruct (process_queue_inv items). }
  destruct (process_queue_inv items) as [_ Hcnt _ _].
  set (st := _process_payload_queue 0 [] items) in *.
  apply list_eq. intros i.
  destruct (decide (i < next_sequence_to_send st)) as [Hlt|Hge].
  - destruct (lookup_lt_is_Some_2 (audio_payloads (sent st)) i) as [p Hp];
      [lia|].
    rewrite Hp. symmetry. apply lookup_take_Some. split; [|done].
    by apply Hsent.
  - rewrite lookup_ge_None_2 by lia. symmetry.
    apply lookup_take_ge. lia.
Qed.

(** ** A failed send *)

Lemma sender_feed_app s items1 items2 :
  sender_feed s (items1 ++ items2) = sender_feed (sender_feed s items1) items2.
Proof. apply foldl_app. Qed.

(** With the next position absent from the buffer, an arrival at another
    position is buffered and nothing else happens. *)
Lemma stalled_iteration ws p k s :
  buffered_payloads s !! next_sequence_to_send s = None →
  k ≠ next_sequence_to_send s →
  sender_iteration ws (p, k) s
  = mkSender (<[k := p]> (buffered_payloads s)) (next_sequence_to_send s)
      (sent s) (sender_log s).
Proof.
  intros Hnone Hk. unfold sender_iteration. rewrite flush_loop_unfold. cbn.
  by rewrite lookup_insert_ne, Hnone.
Qed.

Lemma stalled_feed s (later : list (WebSocketSend * (Payload * nat))) :
  buffered_payloads s !! next_sequence_to_send s = None →
  Forall (λ it, it.2.2 ≠ next_sequence_to_send s) later →
  next_sequence_to_send (sender_feed s later) = next_sequence_to_send s
  ∧ sent (sender_feed s later) = sent s
  ∧ sender_log (sender_feed s later) = sender_log s
  ∧ buffered_payloads (sender_feed s later)
      !! next_sequence_to_send (sender_feed s later) = None.
Proof.
  revert s. induction later as [|[ws [p k]] later IH]; intros s Hnone Hall;
    [done|].
  apply Forall_cons in Hall as [Hk Hall]. cbn in Hk.
  change (sender_feed s ((ws, (p, k)) :: later))
    with (sender_feed (sender_iteration ws (p, k) s) later).
  rewrite stalled_iteration by done.
  apply (IH (mkSender _ _ _ _)); cbn; [|done].
  by rewrite lookup_insert_ne.
Qed.

(** The send of the payload at the next position raises: the payload has
    been popped, the counter has not moved. *)
Lemma failed_iteration ws e p s :
  ws (sent s) (AudioMsg p) = Raise e →
  sender_iteration ws (p, next_sequence_to_send s) s
  = mkSender
      (delete (next_sequence_to_send s)
         (<[next_sequence_to_send s := p]> (buffered_payloads s)))
      (next_sequence_to_send s) (sent s) (sender_log s ++ [LogSenderError]).
Proof.
  intros Hws. unfold sender_iteration. rewrite flush_loop_unfold. cbn.
  by rewrite lookup_insert_eq, Hws.
Qed.

(** C4.  What a failed send does: when the send of the payload at the next
    position [k] raises, the payload is gone from the buffer and
    [_next_sequence_to_send] stays at [k]; as long as position [k] does not
    arrive again, nothing that arrives later is ever delivered, whatever the
    channel does from then on. *)
Theorem send_failure_stalls
    (items later : list (WebSocketSend * (Payload * nat)))
    (ws : WebSocketSend) (e : exn) (p : Payload) :
  let s := _process_payload_queue 0 [] items in
  let k := next_sequence_to_send s in
  let s' := _process_payload_queue 0 [] (items ++ (ws, (p, k)) :: later) in
  ws (sent s) (AudioMsg p) = Raise e →
  Forall (λ it, it.2.2 ≠ k) later →
  next_sequence_to_send s' = k
  ∧ sent s' = sent s
  ∧ sent_sequence_numbers (sender_log s') = sent_sequence_numbers (sender_log s)
  ∧ buffered_payloads s' !! k = None.
Proof.
  intros s k s' Hws Hlater. subst s'.
  unfold _process_payload_queue.
  rewrite sender_feed_app. fold (_process_payload_queue 0 [] items). fold s.
  change (sender_feed s ((ws, (p, k)) :: later))
    with (sender_feed (sender_iteration ws (p, k) s) later).
  subst k. rewrite (failed_iteration ws e) by done.
  set (s1 := mkSender _ _ _ _).
  assert (buffered_payloads s1 !! next_sequence_to_send s1 = None) as Hnone
    by apply lookup_delete_eq.
  destruct (stalled_feed s1 later Hnone Hlater) as (Hn & Hs & Hl & Hb).
  split_and!.
  - by rewrite Hn.
  - by rewrite Hs.
  - rewrite Hl. cbn. rewrite sent_sequence_numbers_app. cbn. apply app_nil_r.
  - change (next_sequence_to_send s) with (next_sequence_to_send s1).
    by rewrite <-Hn.
Qed.

End SenderProperties.

Section ManagerProperties.
Context `{Ext : Externals}.
Implicit Types (w : World) (v : PyObj) (obj : PyAny) (n : nat).

(** ** Building blocks of [speak] and [_process_tts] *)

Lemma prepare_silent (display_text : option DisplayDict)
    (actions : option ActionsDict) :
  prepare_audio_payload_default None display_text actions
  = Ok (mkPayload "audio" None [] 20 display_text actions false).
Proof. reflexivity. Qed.

Lemma ensure_sender_fields w :
  let w' := _ensure_sender_task w in
  task_list (manager w') = task_list (manager w)
  ∧ _payload_queue (manager w') = _payload_queue (manager w)
  ∧ _sequence_counter (manager w') = _sequence_counter (manager w)
  ∧ _next_sequence_to_send (manager w') = _next_sequence_to_send (manager w)
  ∧ tasks w' = tasks w ∧ outbound w' = outbound w
  ∧ removed_files w' = removed_files w
  ∧ engine_calls (log w') = engine_calls (log w)
  ∧ sent_sequence_numbers (log w') = sent_sequence_numbers (log w).
Proof.
  unfold _ensure_sender_task.
  destruct (_sender_task (manager w)) as [[]|]; cbn;
    unfold engine_calls, sent_sequence_numbers;
    rewrite ?omap_app, ?app_nil_r; done.
Qed.

Lemma cleanup_fields w tts_engine audio_file_path :
  let w' := cleanup_audio_file w tts_engine audio_file_path in
  manager w' = manager w ∧ tasks w' = tasks w ∧ outbound w' = outbound w
  ∧ engine_calls (log w') = engine_calls (log w)
  ∧ sent_sequence_numbers (log w') = sent_sequence_numbers (log w).
Proof.
  unfold cleanup_audio_file.
  destruct (path_truthy audio_file_path); [|done].
  destruct (remove_file _ _); cbn; unfold engine_calls, sent_sequence_numbers;
    rewrite ?omap_app, ?app_nil_r; done.
Qed.

(** [speak] begins with the conversion of its text argument. *)
Lemma speak_coerced w obj display_text actions tts_engine :
  speak w obj display_text actions tts_engine
  = match builtin_str obj with
    | Ok t => speak w (PyStr t) display_text actions tts_engine
    | Raise e => Raise e
    end.
Proof. by destruct obj as [[]|]. Qed.

Lemma speak_printable w obj display_text actions tts_engine w' :
  speak w obj display_text actions tts_engine = Ok w' →
  ∃ v, obj = Printable v.
Proof. destruct obj as [v|e]; [by eexists|done]. Qed.

(** In the empty-text branch [speak] comes down to these steps. *)
Lemma speak_silent w v display_text actions tts_engine :
  re_sub_strip (py_str v) = [] →
  speak w v display_text actions tts_engine
  = Ok (add_log
          (queue_put
             (_ensure_sender_task (take_sequence (add_log w LogEmptyText)).2)
             (silent_payload display_text actions, _sequence_counter (manager w)))
          (LogQueuedSilent (_sequence_counter (manager w)))).
Proof.
  intros Hempty. rewrite speak_coerced. cbn [builtin_str].
  unfold speak. cbv beta iota. by rewrite Hempty.
Qed.

(** In the other branch it spawns a worker, unless [display_text] is
    [None]. *)
Lemma speak_spoken w v display_text actions tts_engine :
  re_sub_strip (py_str v) ≠ [] →
  speak w v display_text actions tts_engine
  = match display_text with
    | None => Raise (AttributeError "'NoneType' object has no attribute 'name'")
    | Some _ =>
        Ok (spawn_worker
              (_ensure_sender_task
                 (take_sequence (add_log w (LogQueuingTask (py_str v)))).2)
              (mkWorkerTask (py_str v) display_text actions tts_engine
                 (_sequence_counter (manager w)) false))
    end.
Proof.
  intros Hne. rewrite speak_coerced. cbn [builtin_str].
  unfold speak. cbv beta iota.
  destruct (re_sub_strip (py_str v)) eqn:Hs; [done|]. done.
Qed.

(** C6.  Silent short-circuit: when nothing is left of the text after
    stripping whitespace and the sentence punctuation, [speak] spawns no
    worker and the synthesis engine is not called; the silent payload (no
    audio, empty volume list, the display and action metadata of the call)
    is enqueued under the segment's sequence number. *)
Theorem silent_short_circuit w v display_text actions tts_engine :
  re_sub_strip (py_str v) = [] →
  ∃ w', speak w v display_text actions tts_engine = Ok w'
    ∧ _payload_queue (manager w')
      = _payload_queue (manager w)
        ++ [(silent_payload display_text actions, _sequence_counter (manager w))]
    ∧ pl_audio (silent_payload display_text actions) = None
    ∧ pl_volumes (silent_payload display_text actions) = []
    ∧ pl_display_text (silent_payload display_text actions)
      = display_to_dict <$> display_text
    ∧ pl_actions (silent_payload display_text actions)
      = actions_to_dict <$> actions
    ∧ tasks w' = tasks w
    ∧ task_list (manager w') = task_list (manager w)
    ∧ engine_calls (log w') = engine_calls (log w)
    ∧ outbound w' = outbound w.
Proof.
  intros Hempty. eexists. split; [by apply speak_silent|].
  set (w1 := (take_sequence (add_log w LogEmptyText)).2).
  destruct (ensure_sender_fields w1)
    as (Htl & Hq & _ & _ & Hts & Hout & _ & Hcalls & _).
  assert (engine_calls (log w1) = engine_calls (log w)) as Hcalls1.
  { cbn. unfold engine_calls. rewrite omap_app. cbn. apply app_nil_r. }
  assert (task_list (manager w1) = task_list (manager w)
          ∧ _payload_queue (manager w1) = _payload_queue (manager w)
          ∧ tasks w1 = tasks w ∧ outbound w1 = outbound w)
    as (Htl1 & Hq1 & Hts1 & Hout1) by done.
  clearbody w1. cbn -[_ensure_sender_task].
  rewrite Hq, Hts, Htl, Hout, Hq1, Hts1, Htl1, Hout1. split_and!; try done.
  unfold engine_calls in *. rewrite omap_app. cbn. rewrite app_nil_r.
  by rewrite Hcalls, Hcalls1.
Qed.

(** C10, amended.  Coercion of the text argument: a [tts_text] that is
    not a [str] is replaced by [str(tts_text)] before the emptiness check.
    When [str()] returns, [speak] does from there exactly what it does for
    the string returned, and it raises no [TypeError].  When [str()] raises
    (the [__str__] of the object raises, or it returns something that is
    not a [str], for which [str()] raises [TypeError]), [speak] raises the
    same exception, and the call takes no sequence number and submits
    nothing. *)
Theorem speak_coerces_text w obj display_text actions tts_engine :
  match builtin_str obj with
  | Ok t =>
      speak w obj display_text actions tts_engine
      = speak w (PyStr t) display_text actions tts_engine
      ∧ ∀ msg, speak w obj display_text actions tts_engine ≠ Raise (TypeError msg)
  | Raise e =>
      speak w obj display_text actions tts_engine = Raise e
      ∧ step w (EvSpeak obj display_text actions tts_engine) = w
      ∧ speak_accepts obj display_text = false
  end.
Proof.
  destruct obj as [v|e]; cbn [builtin_str]; [|done]. split.
  - by rewrite speak_coerced.
  - intros msg. destruct (re_sub_strip (py_str v)) eqn:Hs.
    + by rewrite speak_silent.
    + rewrite speak_spoken by (by rewrite Hs). by destruct display_text.
Qed.

(** ** The worker *)

Lemma fallback_payload_spec w (display_text : option DisplayText)
    (actions : option Actions) n :
  fallback_payload w (display_to_dict <$> display_text)
    (actions_to_dict <$> actions) n
  = (add_log
       (queue_put (add_log w (LogTTSError n))
          (silent_payload display_text actions, n))
       (LogQueuedFallback n),
     Ok tt).
Proof. reflexivity. Qed.

(** When synthesis fails after the engine returned a path, it is
    [prepare_audio_payload] that raises. *)
Lemma prepare_raises tts_engine tts_text file_name path
    (display_text : option DisplayDict) (actions : option ActionsDict) :
  async_generate_audio tts_engine tts_text file_name = Ok path →
  synthesis_fails tts_engine tts_text file_name = true →
  ∃ e, prepare_audio_payload_default (Some path) display_text actions = Raise e.
Proof.
  intros Hgen. unfold synthesis_fails. rewrite Hgen.
  intros [Hpath Hfail]%andb_prop.
  unfold prepare_audio_payload_default, prepare_audio_payload.
  rewrite Hpath. cbn.
  destruct (from_file path) as [audio|]; [|by eexists].
  destruct (export_wav audio); [|by eexists].
  destruct (_get_volume_by_chunks audio 20); [done|by eexists].
Qed.

(** [prepare_audio_payload] hands on the metadata it is given. *)
Lemma prepare_metadata audio_path (display_text : option DisplayDict)
    (actions : option ActionsDict) payload :
  prepare_audio_payload_default audio_path display_text actions = Ok payload →
  pl_display_text payload = display_text ∧ pl_actions payload = actions.
Proof.
  unfold prepare_audio_payload_default, prepare_audio_payload.
  destruct (negb (path_truthy audio_path)); [by intros [= <-]|].
  destruct (from_file _) as [audio|]; [|done].
  destruct (export_wav audio); [|done].
  destruct (_get_volume_by_chunks audio 20); [|done].
  by intros [= <-].
Qed.

(** A worker that is not cancelled returns, and it puts exactly one item on
    the queue, under its own sequence number and with its own metadata. *)
Lemma process_tts_enqueues_once w tts_text display_text actions tts_engine n
    file_name :
  ∃ w' payload,
    _process_tts w tts_text display_text actions tts_engine n file_name
      NotCancelled
    = (w', Returns tt)
    ∧ manager w'
      = mkManager (task_list (manager w))
          (_payload_queue (manager w) ++ [(payload, n)])
          (_sender_task (manager w)) (_sequence_counter (manager w))
          (_next_sequence_to_send (manager w))
    ∧ pl_display_text payload = display_to_dict <$> display_text
    ∧ pl_actions payload = actions_to_dict <$> actions
    ∧ (synthesis_fails tts_engine tts_text file_name = true →
       payload = silent_payload display_text actions)
    ∧ tasks w' = tasks w ∧ outbound w' = outbound w
    ∧ engine_calls (log w') = engine_calls (log w) ++ [tts_text]
    ∧ sent_sequence_numbers (log w') = sent_sequence_numbers (log w).
Proof.
  unfold _process_tts, _generate_audio.
  destruct (async_generate_audio tts_engine tts_text file_name)
    as [path|e] eqn:Hgen; cbn [of_result].
  - destruct (prepare_audio_payload_default (Some path)
                (display_to_dict <$> display_text) (actions_to_dict <$> actions))
      as [payload|e] eqn:Hprep.
    + pose proof (cleanup_fields
                    (add_log (queue_put (add_log w (LogGenerating tts_text))
                                (payload, n)) (LogQueuedAudio n))
                    tts_engine (Some path)) as (Hm & Hts & Hout & Hcalls & Hsent).
      destruct (prepare_metadata _ _ _ _ Hprep) as [Hd Ha].
      eexists _, payload. split; [done|].
      rewrite Hm, Hts, Hout, Hcalls, Hsent. split_and!; try done.
      * intros Hfail. destruct (prepare_raises _ _ _ _
                                  (display_to_dict <$> display_text)
                                  (actions_to_dict <$> actions) Hgen Hfail) as [e He].
        by rewrite He in Hprep.
      * cbn. unfold engine_calls. rewrite !omap_app. cbn. by rewrite !app_nil_r.
      * cbn. unfold sent_sequence_numbers. rewrite !omap_app. cbn.
        by rewrite !app_nil_r.
    + rewrite fallback_payload_spec.
      pose proof (cleanup_fields
                    (add_log (queue_put
                                (add_log (add_log w (LogGenerating tts_text))
                                   (LogTTSError n))
                                (silent_payload display_text actions, n))
                       (LogQueuedFallback n))
                    tts_engine (Some path)) as (Hm & Hts & Hout & Hcalls & Hsent).
      eexists _, _. split; [done|].
      rewrite Hm, Hts, Hout, Hcalls, Hsent. split_and!; try done.
      * cbn. unfold engine_calls. rewrite !omap_app. cbn. by rewrite !app_nil_r.
      * cbn. unfold sent_sequence_numbers. rewrite !omap_app. cbn.
        by rewrite !app_nil_r.
  - rewrite fallback_payload_spec. eexists _, _. split; [done|].
    cbn. split_and!; try done.
    + unfold engine_calls. rewrite !omap_app. cbn. by rewrite !app_nil_r.
    + unfold sent_sequence_numbers. rewrite !omap_app. cbn.
      by rewrite !app_nil_r.
Qed.

(** What a cancellation leaves of a worker: nothing but, at most, the log
    line written before the engine is called. *)
Lemma process_tts_cancelled w tts_text display_text actions tts_engine n
    file_name cancellation :
  cancellation ≠ NotCancelled →
  ∃ w', _process_tts w tts_text display_text actions tts_engine n file_name
          cancellation
        = (w', Cancelled)
    ∧ manager w' = manager w ∧ tasks w' = tasks w ∧ outbound w' = outbound w
    ∧ removed_files w' = removed_files w
    ∧ (log w' = log w ∨ log w' = log w ++ [LogGenerating tts_text]).
Proof.
  intros Hc. destruct cancellation; [done| |]; eexists; (split; [done|]);
    cbn; split_and!; eauto.
Qed.

(** C3, amended.  Fallback on failure.  (1) When the engine raises an
    exception (a subclass of [Exception]), or the generated file cannot be
    decoded, or its envelope cannot be computed, a worker that is not
    cancelled does not raise: it returns, having put the silent payload of
    the segment (audio absent, same metadata) on the queue under the
    segment's sequence number, and nothing else.  (2) Whatever the engine
    does, a worker that is not cancelled puts exactly one payload on the
    queue.  (3) A worker that is cancelled, before it has started or while
    it awaits the engine, ends with the cancellation, which [except
    Exception] does not catch: it puts nothing on the queue and leaves the
    manager as it was.  (4) Whatever the channel does, the payloads
    delivered are the first ones in submission order: the fallback payload
    of segment [n] never goes out before one of its [n] predecessors or
    after one of its successors.  (5) When moreover no send fails and every
    payload has arrived, in whatever order, the fallback payload is
    delivered at place [n], between its neighbours. *)
Theorem fallback_on_failure w tts_text display_text actions tts_engine n
    file_name :
  synthesis_fails tts_engine tts_text file_name = true →
  (∃ w', _process_tts w tts_text display_text actions tts_engine n file_name
           NotCancelled
         = (w', Returns tt)
     ∧ _payload_queue (manager w')
       = _payload_queue (manager w) ++ [(silent_payload display_text actions, n)]
     ∧ pl_audio (silent_payload display_text actions) = None
     ∧ task_list (manager w') = task_list (manager w)
     ∧ _sender_task (manager w') = _sender_task (manager w)
     ∧ _sequence_counter (manager w') = _sequence_counter (manager w)
     ∧ _next_sequence_to_send (manager w') = _next_sequence_to_send (manager w)
     ∧ outbound w' = outbound w)
  ∧ (∀ w0 tts_text' tts_engine' file_name',
       ∃ w' payload,
         _process_tts w0 tts_text' display_text actions tts_engine' n file_name'
           NotCancelled
         = (w', Returns tt)
         ∧ _payload_queue (manager w')
           = _payload_queue (manager w0) ++ [(payload, n)])
  ∧ (∀ w0 tts_text' tts_engine' file_name' cancellation,
       cancellation ≠ NotCancelled →
       ∃ w',
         _process_tts w0 tts_text' display_text actions tts_engine' n file_name'
           cancellation
         = (w', Cancelled)
         ∧ manager w' = manager w0 ∧ tasks w' = tasks w0
         ∧ outbound w' = outbound w0 ∧ removed_files w' = removed_files w0)
  ∧ (∀ before after (items : list (WebSocketSend * (Payload * nat))),
       length before = n →
       Forall (λ it, (before ++ silent_payload display_text actions :: after)
                       !! it.2.2 = Some it.2.1) items →
       audio_payloads (sent (_process_payload_queue 0 [] items))
       = take (next_sequence_to_send (_process_payload_queue 0 [] items))
           (before ++ silent_payload display_text actions :: after))
  ∧ (∀ before after arrivals,
       length before = n →
       arrivals ≡ₚ zip (before ++ silent_payload display_text actions :: after)
                       (seq 0 (length (before ++ silent_payload display_text
                                                   actions :: after))) →
       sent (deliver_all arrivals)
       = (AudioMsg <$> before)
         ++ AudioMsg (silent_payload display_text actions) :: (AudioMsg <$> after)).
Proof.
  intros Hfail. split_and!.
  - destruct (process_tts_enqueues_once w tts_text display_text actions
                tts_engine n file_name)
      as (w' & payload & Hrun & Hm & _ & _ & Hsilent & _ & Hout & _).
    exists w'. rewrite Hm, (Hsilent Hfail). by split_and!.
  - intros w0 tts_text' tts_engine' file_name'.
    destruct (process_tts_enqueues_once w0 tts_text' display_text actions
                tts_engine' n file_name')
      as (w' & payload & Hrun & Hm & _).
    exists w', payload. by rewrite Hm.
  - intros w0 tts_text' tts_engine' file_name' cancellation Hc.
    destruct (process_tts_cancelled w0 tts_text' display_text actions
                tts_engine' n file_name' cancellation Hc)
      as (w' & Hrun & Hm & Hts & Hout & Hfiles & _).
    by exists w'.
  - intros before after items _ Hitems. by apply process_queue_in_place.
  - intros before after arrivals _ Hperm.
    destruct (deliver_all_in_order _ _ Hperm) as [-> _].
    by rewrite fmap_app.
Qed.

(** ** Sequence numbers *)

Lemma speak_first_sequence w obj display_text actions tts_engine w' :
  speak w obj display_text actions tts_engine = Ok w' →
  _sequence_counter (manager w') = S (_sequence_counter (manager w))
  ∧ ((∃ payload,
        _payload_queue (manager w')
        = _payload_queue (manager w) ++ [(payload, _sequence_counter (manager w))]
        ∧ tasks w' = tasks w)
     ∨ (∃ t, tasks w' = tasks w ++ [t]
             ∧ wt_sequence_number t = _sequence_counter (manager w)
             ∧ wt_done t = false
             ∧ task_list (manager w') = task_list (manager w) ++ [length (tasks w)]
             ∧ _payload_queue (manager w') = _payload_queue (manager w))).
Proof.
  intros Hspeak. destruct (speak_printable _ _ _ _ _ _ Hspeak) as [v ->].
  revert Hspeak. destruct (re_sub_strip (py_str v)) eqn:Hs.
  - rewrite speak_silent by done. intros Hspeak.
    set (w1 := (take_sequence (add_log w LogEmptyText)).2) in Hspeak.
    destruct (ensure_sender_fields w1) as (_ & Hq & Hc & _ & Hts & _).
    assert (_payload_queue (manager w1) = _payload_queue (manager w)
            ∧ _sequence_counter (manager w1) = S (_sequence_counter (manager w))
            ∧ tasks w1 = tasks w) as (Hq1 & Hc1 & Hts1) by done.
    clearbody w1. injection Hspeak as <-. cbn -[_ensure_sender_task].
    rewrite Hq, Hc, Hts, Hq1, Hc1, Hts1. split; [done|]. left. by eexists.
  - rewrite speak_spoken by (by rewrite Hs).
    destruct display_text as [d|]; [|done]. intros Hspeak.
    set (w1 := (take_sequence (add_log w (LogQueuingTask (py_str v)))).2)
      in Hspeak.
    destruct (ensure_sender_fields w1) as (Htl & Hq & Hc & _ & Hts & _).
    assert (_payload_queue (manager w1) = _payload_queue (manager w)
            ∧ _sequence_counter (manager w1) = S (_sequence_counter (manager w))
            ∧ tasks w1 = tasks w
            ∧ task_list (manager w1) = task_list (manager w))
      as (Hq1 & Hc1 & Hts1 & Htl1) by done.
    clearbody w1. injection Hspeak as <-. cbn -[_ensure_sender_task].
    rewrite Hq, Hc, Hts, Htl, Hq1, Hc1, Hts1, Htl1. split; [done|]. right.
    by eexists.
Qed.

(** ** Waiting for the pending tasks *)

Lemma task_done_worker_finish w task_id file_name task_id' :
  task_done (worker_finish w task_id file_name) task_id'
  = if decide (task_id' = task_id)
    then bool_decide (is_Some (tasks w !! task_id))
    else task_done w task_id'.
Proof.
  unfold worker_finish, task_done.
  destruct (tasks w !! task_id) as [t|] eqn:Ht.
  - destruct (wt_done t) eqn:Hd.
    + case_decide as Heq; [|done]. subst. by rewrite Ht, Hd.
    + destruct (process_tts_enqueues_once w (wt_tts_text t) (wt_display_text t)
                  (wt_actions t) (wt_tts_engine t) (wt_sequence_number t)
                  file_name) as (w' & payload & -> & _ & _ & _ & _ & Hts & _).
      cbn [fst tasks]. rewrite Hts. case_decide as Heq.
      * subst. rewrite list_lookup_insert_eq; [done|]. by eapply lookup_lt_Some.
      * by rewrite list_lookup_insert_ne.
  - case_decide as Heq; [|done]. subst. by rewrite Ht.
Qed.

(** A task that is not finished finishes by [worker_finish], which puts its
    one payload on the queue. *)
Lemma worker_finish_enqueues w task_id file_name t :
  tasks w !! task_id = Some t → wt_done t = false →
  ∃ payload,
    _payload_queue (manager (worker_finish w task_id file_name))
    = _payload_queue (manager w) ++ [(payload, wt_sequence_number t)]
    ∧ task_done (worker_finish w task_id file_name) task_id = true.
Proof.
  intros Ht Hd.
  pose proof (task_done_worker_finish w task_id file_name task_id) as Hdone.
  rewrite decide_True in Hdone by done.
  rewrite Hdone, Ht. unfold worker_finish. rewrite Ht, Hd.
  destruct (process_tts_enqueues_once w (wt_tts_text t) (wt_display_text t)
              (wt_actions t) (wt_tts_engine t) (wt_sequence_number t)
              file_name) as (w' & payload & -> & Hm & _).
  exists payload. cbn. by rewrite Hm.
Qed.

(** No other event finishes a task. *)
Lemma task_done_step w ev task_id :
  task_done (step w ev) task_id = true →
  task_done w task_id = true
  ∨ ∃ file_name t, ev = EvWorker task_id file_name
                   ∧ tasks w !! task_id = Some t ∧ wt_done t = false.
Proof.
  destruct ev as [v d a e|id f|ws| | |ws]; cbn.
  - destruct (speak w v d a e) as [w'|] eqn:Hs; [|by left].
    apply speak_first_sequence in Hs as (_ & [(p & _ & Hts)|(t & Hts & _ & Hd & _)]).
    + unfold task_done. rewrite Hts. by left.
    + unfold task_done. rewrite Hts. intros Hdone. left.
      destruct (decide (task_id < length (tasks w))) as [Hlt|Hge].
      * by rewrite lookup_app_l in Hdone.
      * rewrite lookup_app_r in Hdone by lia.
        destruct (task_id - length (tasks w)) as [|i]; cbn in Hdone.
        -- congruence.
        -- by destruct i.
  - rewrite task_done_worker_finish. case_decide as Heq; [|by left].
    subst. intros [t Ht]%bool_decide_eq_true.
    destruct (wt_done t) eqn:Hd.
    + left. unfold task_done. by rewrite Ht.
    + right. by exists f, t.
  - unfold sender_step.
    destruct (_sender_task (manager w)) as [[]|]; try by left.
    destruct (_payload_queue (manager w)); by left.
  - unfold sender_exit. destruct (_sender_task (manager w)) as [[]|]; by left.
  - by left.
  - unfold wait_for_pending_tts.
    destruct (task_list (manager w)); [by left|].
    destruct (forallb _ _); [|by left].
    destruct (ws _ _); by left.
Qed.

(** C9, amended.  The completion signal: when [task_list] is
    empty (no synthesis task was spawned: every segment took the silent
    short-circuit) the step sends nothing; otherwise it waits as long as a
    task of [task_list] is unfinished, and once all are finished (each
    having put its payload on the queue at the moment it finished) it sends
    the bare signal, once. *)
Theorem synth_complete_signal w ws :
  (task_list (manager w) = [] → wait_for_pending_tts w ws = Some (Ok w))
  ∧ (Exists (λ task_id, task_done w task_id = false) (task_list (manager w)) →
     wait_for_pending_tts w ws = None)
  ∧ (task_list (manager w) ≠ [] →
     Forall (λ task_id, task_done w task_id = true) (task_list (manager w)) →
     ws (outbound w) SynthComplete = Ok tt →
     ∃ w', wait_for_pending_tts w ws = Some (Ok w')
           ∧ outbound w' = outbound w ++ [SynthComplete]
           ∧ manager w' = manager w ∧ tasks w' = tasks w)
  ∧ (∀ w0 ev task_id,
       task_done w0 task_id = false → task_done (step w0 ev) task_id = true →
       ∃ file_name t payload,
         ev = EvWorker task_id file_name
         ∧ tasks w0 !! task_id = Some t
         ∧ _payload_queue (manager (step w0 ev))
           = _payload_queue (manager w0) ++ [(payload, wt_sequence_number t)]).
Proof.
  split_and!.
  - intros Hnil. unfold wait_for_pending_tts. by rewrite Hnil.
  - intros Hex. unfold wait_for_pending_tts.
    destruct (task_list (manager w)) as [|i l] eqn:Hl; [by inversion Hex|].
    destruct (forallb (task_done w) (i :: l)) eqn:Hall; [|done].
    rewrite forallb_forall in Hall.
    apply Exists_exists in Hex as (j & Hj & Hfalse).
    specialize (Hall j). rewrite <-list_elem_of_In in Hall.
    rewrite (Hall Hj) in Hfalse. done.
  - intros Hne Hall Hws. unfold wait_for_pending_tts.
    destruct (task_list (manager w)) as [|i l] eqn:Hl; [done|].
    assert (forallb (task_done w) (i :: l) = true) as ->.
    { apply forallb_forall. intros j Hj%list_elem_of_In.
      rewrite Forall_forall in Hall. by apply Hall. }
    rewrite Hws. by eexists.
  - intros w0 ev task_id Hnot Hdone.
    apply task_done_step in Hdone as [Hdone|(f & t & -> & Ht & Hd)];
      [congruence|].
    destruct (worker_finish_enqueues w0 task_id f t Ht Hd) as (payload & Hq & _).
    by exists f, t, payload.
Qed.

(** ** [clear] *)

(** C5, amended.  Reset: after [clear] both counters are 0, the
    queue and the task list are empty and no sender is running, so that the
    next submission is given sequence number 0; what the queue and the
    sender's buffer held before [clear] has no influence on the world after
    it, and no message goes out until a new sender is created.  The worker
    tasks are left as they are: one that was unfinished at [clear] puts its
    payload on the new queue, under the sequence number it was given. *)
Theorem clear_resets w :
  _sequence_counter (manager (clear w)) = 0
  ∧ _next_sequence_to_send (manager (clear w)) = 0
  ∧ _payload_queue (manager (clear w)) = []
  ∧ task_list (manager (clear w)) = []
  ∧ (∀ buffered, _sender_task (manager (clear w)) ≠ Some (SenderRunning buffered))
  ∧ tasks (clear w) = tasks w
  ∧ outbound (clear w) = outbound w
  ∧ (∀ ws, sender_step (clear w) ws = clear w)
  ∧ (∀ (v : PyAny) display_text actions tts_engine w',
       speak (clear w) v display_text actions tts_engine = Ok w' →
       _sequence_counter (manager w') = 1
       ∧ ((∃ payload, _payload_queue (manager w') = [(payload, 0)])
          ∨ (∃ t, tasks w' = tasks w ++ [t] ∧ wt_sequence_number t = 0)))
  ∧ (∀ tl q sender c n tl' q' c' n',
       clear (with_manager w (mkManager tl q sender c n))
       = clear (with_manager w (mkManager tl' q' sender c' n')))
  ∧ (∀ tl q buffered c n tl' q' buffered' c' n',
       clear (with_manager w (mkManager tl q (Some (SenderRunning buffered)) c n))
       = clear (with_manager w
                  (mkManager tl' q' (Some (SenderRunning buffered')) c' n')))
  ∧ (∀ task_id file_name t,
       tasks w !! task_id = Some t → wt_done t = false →
       ∃ payload,
         _payload_queue (manager (worker_finish (clear w) task_id file_name))
         = [(payload, wt_sequence_number t)]).
Proof.
  split_and!; try done.
  - intros buffered. unfold clear. cbn.
    by destruct (_sender_task (manager w)) as [[]|].
  - intros ws. unfold sender_step, clear. cbn.
    by destruct (_sender_task (manager w)) as [[]|].
  - intros v display_text actions tts_engine w' Hspeak.
    apply speak_first_sequence in Hspeak as [Hc Hcases]. split; [done|].
    destruct Hcases as [(payload & Hq & _)|(t & Hts & Hn & _)].
    + left. by exists payload.
    + right. by exists t.
  - intros task_id file_name t Ht Hd.
    destruct (worker_finish_enqueues (clear w) task_id file_name t Ht Hd)
      as (payload & Hq & _).
    by exists payload.
Qed.

End ManagerProperties.

Section LifecycleProperties.
Context `{Ext : Externals}.
Implicit Types (w : World) (v : PyObj) (obj : PyAny) (n k : nat).
Implicit Types (seen : list nat).

(** ** What the events change *)

Lemma ensure_sender_spec w :
  _ensure_sender_task w
  = mkWorld
      (mkManager (task_list (manager w)) (_payload_queue (manager w))
         (match _sender_task (manager w) with
          | None | Some SenderDone => Some (SenderRunning ∅)
          | other => other
          end)
         (_sequence_counter (manager w)) (_next_sequence_to_send (manager w)))
      (tasks w) (outbound w)
      (log w ++ match _sender_task (manager w) with
                | None | Some SenderDone => [LogSenderCreated]
                | _ => []
                end)
      (removed_files w).
Proof.
  unfold _ensure_sender_task. destruct w as [[tl q st c n] ts out lg rf]. cbn.
  destruct st as [[]|]; cbn; by rewrite ?app_nil_r.
Qed.

Lemma speak_accepted w obj display_text actions tts_engine :
  speak_accepts obj display_text = true ↔
  ∃ w', speak w obj display_text actions tts_engine = Ok w'.
Proof.
  destruct obj as [v|err]; [|split; [done|by intros [w' ?]]].
  unfold speak_accepts. cbn [builtin_str].
  destruct (re_sub_strip (py_str v)) as [|c l] eqn:Hs.
  - rewrite speak_silent by done. cbn. split; eauto.
  - rewrite speak_spoken by (by rewrite Hs). cbn.
    destruct display_text; split; try done; eauto. by intros [w' ?].
Qed.

Lemma speak_effect w v display_text actions tts_engine w' :
  speak w v display_text actions tts_engine = Ok w' →
  sender_buffer w' = sender_buffer w
  ∧ _sender_task (manager w')
    = match _sender_task (manager w) with
      | None | Some SenderDone => Some (SenderRunning ∅)
      | other => other
      end
  ∧ _next_sequence_to_send (manager w') = _next_sequence_to_send (manager w)
  ∧ _sequence_counter (manager w') = S (_sequence_counter (manager w))
  ∧ outbound w' = outbound w
  ∧ sent_sequence_numbers (log w') = sent_sequence_numbers (log w)
  ∧ ((_payload_queue (manager w')
      = _payload_queue (manager w)
        ++ [(silent_payload display_text actions, _sequence_counter (manager w))]
      ∧ tasks w' = tasks w)
     ∨ (tasks w'
        = tasks w ++ [mkWorkerTask (py_str v) display_text actions tts_engine
                        (_sequence_counter (manager w)) false]
        ∧ _payload_queue (manager w') = _payload_queue (manager w))).
Proof.
  destruct (re_sub_strip (py_str v)) as [|c l] eqn:Hs.
  - rewrite speak_silent by done. intros [= <-].
    rewrite ensure_sender_spec. unfold sender_buffer. cbn.
    split_and!; try done.
    + by destruct (_sender_task (manager w)) as [[]|].
    + unfold sent_sequence_numbers. rewrite !omap_app. cbn.
      destruct (_sender_task (manager w)) as [[]|]; cbn; by rewrite !app_nil_r.
    + by left.
  - rewrite speak_spoken by (by rewrite Hs).
    destruct display_text as [d|]; [|done]. intros [= <-].
    rewrite ensure_sender_spec. unfold sender_buffer. cbn.
    split_and!; try done.
    + by destruct (_sender_task (manager w)) as [[]|].
    + unfold sent_sequence_numbers. rewrite !omap_app. cbn.
      destruct (_sender_task (manager w)) as [[]|]; cbn; by rewrite !app_nil_r.
    + by right.
Qed.

Lemma worker_finish_effect w task_id file_name :
  worker_finish w task_id file_name = w
  ∨ ∃ t payload,
      tasks w !! task_id = Some t ∧ wt_done t = false
      ∧ manager (worker_finish w task_id file_name)
        = mkManager (task_list (manager w))
            (_payload_queue (manager w) ++ [(payload, wt_sequence_number t)])
            (_sender_task (manager w)) (_sequence_counter (manager w))
            (_next_sequence_to_send (manager w))
      ∧ pl_display_text payload = display_to_dict <$> wt_display_text t
      ∧ pl_actions payload = actions_to_dict <$> wt_actions t
      ∧ tasks (worker_finish w task_id file_name)
        = <[task_id := mkWorkerTask (wt_tts_text t) (wt_display_text t)
                         (wt_actions t) (wt_tts_engine t)
                         (wt_sequence_number t) true]> (tasks w)
      ∧ outbound (worker_finish w task_id file_name) = outbound w
      ∧ sent_sequence_numbers (log (worker_finish w task_id file_name))
        = sent_sequence_numbers (log w).
Proof.
  unfold worker_finish.
  destruct (tasks w !! task_id) as [t|] eqn:Ht; [|by left].
  destruct (wt_done t) eqn:Hd; [by left|]. right.
  destruct (process_tts_enqueues_once w (wt_tts_text t) (wt_display_text t)
              (wt_actions t) (wt_tts_engine t) (wt_sequence_number t)
              file_name)
    as (w' & payload & -> & Hm & Hdt & Hact & _ & Hts & Hout & _ & Hsent).
  exists t, payload. cbn. by rewrite Hts.
Qed.

(** ** Unfinished workers *)

Lemma pending_snoc (ts : list WorkerTask) t :
  pending_sequence_numbers (ts ++ [t])
  = pending_sequence_numbers ts
    ++ (if wt_done t then [] else [wt_sequence_number t]).
Proof.
  unfold pending_sequence_numbers. rewrite List.filter_app, fmap_app. cbn.
  by destruct (wt_done t).
Qed.

Lemma pending_finish (ts : list WorkerTask) task_id t t' :
  ts !! task_id = Some t → wt_done t = false → wt_done t' = true →
  pending_sequence_numbers ts
  ≡ₚ wt_sequence_number t :: pending_sequence_numbers (<[task_id := t']> ts).
Proof.
  unfold pending_sequence_numbers. revert task_id.
  induction ts as [|t0 ts IH]; intros [|i] Ht Hd Hd'; try done; cbn in *.
  - injection Ht as ->. by rewrite Hd, Hd'.
  - destruct (wt_done t0); cbn.
    + by apply IH.
    + rewrite (IH i Ht Hd Hd'). apply perm_swap.
Qed.

Lemma pending_done (ts : list WorkerTask) :
  Forall (λ t, wt_done t = true) ts → pending_sequence_numbers ts = [].
Proof.
  unfold pending_sequence_numbers.
  induction ts as [|t ts IH]; intros Hall; [done|].
  apply Forall_cons in Hall as [Ht Hall]. cbn. rewrite Ht. by apply IH.
Qed.

(** ** The invariants depend on the channel and the log only through the
    audio payloads and the "Sent" lines *)

Lemma sender_inv_ext seen (s s' : SenderState) :
  buffered_payloads s' = buffered_payloads s →
  next_sequence_to_send s' = next_sequence_to_send s →
  audio_payloads (sent s') = audio_payloads (sent s) →
  sent_sequence_numbers (sender_log s') = sent_sequence_numbers (sender_log s) →
  sender_inv seen s → sender_inv seen s'.
Proof.
  intros Hb Hn Hs Hl [Hlog Hcnt Hbuf Hfl].
  split; rewrite ?Hb, ?Hn, ?Hs, ?Hl; done.
Qed.

Lemma buffer_above_ext (s s' : SenderState) :
  buffered_payloads s' = buffered_payloads s →
  next_sequence_to_send s' = next_sequence_to_send s →
  buffer_above s → buffer_above s'.
Proof. unfold buffer_above. intros -> ->. done. Qed.

Lemma delivery_inv_ext (R R' : nat → Payload → Prop) seen (s s' : SenderState) :
  (∀ k p, R k p → R' k p) →
  buffered_payloads s' = buffered_payloads s →
  next_sequence_to_send s' = next_sequence_to_send s →
  audio_payloads (sent s') = audio_payloads (sent s) →
  delivery_inv R seen s → delivery_inv R' seen s'.
Proof.
  intros HR Hb Hn Hs [Hsent Hbuf Hwait Hnext].
  split; rewrite ?Hb, ?Hn, ?Hs; eauto.
Qed.

Lemma carries_app segments more k (p : Payload) :
  carries segments k p → carries (segments ++ more) k p.
Proof.
  intros (d & a & Hk & ?). exists d, a. split; [|done].
  by apply lookup_app_l_Some.
Qed.

Lemma submitted_snoc (evs : list Event) ev :
  submitted (evs ++ [ev]) = submitted evs ++ submitted [ev].
Proof. apply omap_app. Qed.

(** ** The lifecycle invariant *)

(** An event that leaves the sender alone keeps the invariant when it keeps
    the positions in place. *)
Lemma lifecycle_inv_keep seen w w' :
  lifecycle_inv seen w →
  (_sender_task (manager w') = None
   ∨ ∃ buffered, _sender_task (manager w') = Some (SenderRunning buffered)) →
  sender_buffer w' = sender_buffer w →
  _next_sequence_to_send (manager w') = _next_sequence_to_send (manager w) →
  audio_payloads (outbound w') = audio_payloads (outbound w) →
  sent_sequence_numbers (log w') = sent_sequence_numbers (log w) →
  seen ++ (_payload_queue (manager w')).*2
       ++ pending_sequence_numbers (tasks w')
  ≡ₚ seq 0 (_sequence_counter (manager w')) →
  lifecycle_inv seen w'.
Proof.
  intros [Hst Hinv Habove Hpos] Hst' Hb Hn Hout Hlog Hpos'. split.
  - done.
  - by eapply sender_inv_ext; [..|exact Hinv].
  - by eapply buffer_above_ext; [..|exact Habove].
  - done.
Qed.

Lemma sender_step_view w ws buffered p k rest :
  _sender_task (manager w) = Some (SenderRunning buffered) →
  _payload_queue (manager w) = (p, k) :: rest →
  sender_view (sender_step w ws) = sender_iteration ws (p, k) (sender_view w)
  ∧ _sender_task (manager (sender_step w ws))
    = Some (SenderRunning
              (buffered_payloads (sender_iteration ws (p, k) (sender_view w))))
  ∧ _payload_queue (manager (sender_step w ws)) = rest
  ∧ _sequence_counter (manager (sender_step w ws))
    = _sequence_counter (manager w)
  ∧ task_list (manager (sender_step w ws)) = task_list (manager w)
  ∧ tasks (sender_step w ws) = tasks w.
Proof.
  intros Hst Hq. unfold sender_step, sender_view, sender_buffer.
  rewrite Hst, Hq. cbn -[sender_iteration].
  match goal with
  | |- context [sender_iteration ws (p, k) ?s] =>
      by destruct (sender_iteration ws (p, k) s)
  end.
Qed.

Lemma lifecycle_step seen w ev :
  lifecycle_event ev → lifecycle_inv seen w →
  lifecycle_inv (seen ++ dequeued w ev) (step w ev).
Proof.
  intros Hev Hinv. pose proof Hinv as [Hst Hsinv Habove Hpos].
  destruct ev as [v d a e|task_id f|ws| | |ws]; cbn [step].
  - (* speak *)
    replace (dequeued w (EvSpeak v d a e)) with (@nil nat)
      by (unfold dequeued; by destruct (_sender_task (manager w)) as [[]|]).
    rewrite app_nil_r.
    destruct (speak w v d a e) as [w'|] eqn:Hspeak; [|done].
    destruct (speak_printable _ _ _ _ _ _ Hspeak) as [? ->].
      apply speak_effect in Hspeak
      as (Hb & Hst' & Hn & Hc & Hout & Hlog & Hcase).
    eapply lifecycle_inv_keep; [exact Hinv| |done|done|by rewrite Hout|done|].
    + rewrite Hst'. destruct Hst as [->|[b ->]]; eauto.
    + rewrite Hc, seq_S, <-Hpos. cbn.
      destruct Hcase as [[-> ->]|[-> ->]].
      * rewrite fmap_app. cbn. solve_Permutation.
      * rewrite pending_snoc. cbn. solve_Permutation.
  - (* a worker finishes *)
    replace (dequeued w (EvWorker task_id f)) with (@nil nat)
      by (unfold dequeued; by destruct (_sender_task (manager w)) as [[]|]).
    rewrite app_nil_r.
    destruct (worker_finish_effect w task_id f)
      as [->|(t & payload & Ht & Hd & Hm & _ & _ & Hts & Hout & Hlog)]; [done|].
    eapply lifecycle_inv_keep; [exact Hinv|..].
    + by rewrite Hm.
    + unfold sender_buffer. by rewrite Hm.
    + by rewrite Hm.
    + by rewrite Hout.
    + done.
    + rewrite Hm, Hts. cbn. rewrite <-Hpos, fmap_app. cbn.
      rewrite (pending_finish (tasks w) task_id t
                 (mkWorkerTask (wt_tts_text t) (wt_display_text t) (wt_actions t)
                    (wt_tts_engine t) (wt_sequence_number t) true)
                 Ht Hd eq_refl).
      cbn. solve_Permutation.
  - (* the sender takes an item *)
    unfold dequeued.
    destruct (_sender_task (manager w)) as [[buffered| |]|] eqn:Hsender;
      try (rewrite app_nil_r; unfold sender_step; by rewrite Hsender).
    destruct (_payload_queue (manager w)) as [|[p k] rest] eqn:Hq;
      [rewrite app_nil_r; unfold sender_step; by rewrite Hsender, Hq|].
    destruct (sender_step_view w ws buffered p k rest Hsender Hq)
      as (Hview & Hst' & Hq' & Hc' & _ & Hts').
    cbn in Hpos.
    assert (k ∉ seen) as Hk.
    { assert (NoDup (seen ++ k :: rest.*2
                          ++ pending_sequence_numbers (tasks w))) as Hnd
        by (rewrite Hpos; apply NoDup_seq).
      apply NoDup_app in Hnd as (_ & Hnot & _).
      intros Hin. apply (Hnot _ Hin). apply list_elem_of_here. }
    split.
    + right. eauto.
    + rewrite Hview. by apply sender_iteration_inv.
    + rewrite Hview. by eapply sender_iteration_above.
    + rewrite Hq', Hc', Hts', <-Hpos. solve_Permutation.
  - (* the cancelled sender leaves: there is none in a lifecycle *)
    replace (dequeued w EvSenderExit) with (@nil nat)
      by (unfold dequeued; by destruct (_sender_task (manager w)) as [[]|]).
    rewrite app_nil_r. unfold sender_exit.
    by destruct Hst as [->|[b ->]].
  - done.
  - (* waiting for the pending tasks *)
    replace (dequeued w (EvWaitPending ws)) with (@nil nat)
      by (unfold dequeued; by destruct (_sender_task (manager w)) as [[]|]).
    rewrite app_nil_r. unfold wait_for_pending_tts.
    destruct (task_list (manager w)); [done|].
    destruct (forallb _ _); [|done].
    destruct (ws _ _); [|done].
    eapply lifecycle_inv_keep; [exact Hinv|done..| |done|done].
    cbn [outbound]. rewrite audio_payloads_app. cbn. apply app_nil_r.
Qed.

(** ** The invariant of reliable runs *)

Lemma reliable_inv_keep segments segments' seen w w' :
  reliable_inv segments seen w →
  (∀ k (p : Payload), carries segments k p → carries segments' k p) →
  sender_buffer w' = sender_buffer w →
  _next_sequence_to_send (manager w') = _next_sequence_to_send (manager w) →
  audio_payloads (outbound w') = audio_payloads (outbound w) →
  (∀ p (k : nat), (p, k) ∈ _payload_queue (manager w') → carries segments' k p) →
  (∀ t, t ∈ tasks w' → wt_done t = false →
        segments' !! wt_sequence_number t
        = Some (wt_display_text t, wt_actions t)) →
  _sequence_counter (manager w') = length segments' →
  reliable_inv segments' seen w'.
Proof.
  intros [Hdel Hq Hts Hc] Hmono Hb Hn Hout Hq' Hts' Hc'. split; try done.
  by eapply delivery_inv_ext; [..|exact Hdel].
Qed.

Lemma reliable_step segments seen w ev :
  reliable_event ev → lifecycle_inv seen w → reliable_inv segments seen w →
  reliable_inv (segments ++ submitted [ev]) (seen ++ dequeued w ev) (step w ev).
Proof.
  intros Hev Hinv Hrel. pose proof Hinv as [Hst Hsinv Habove Hpos].
  pose proof Hrel as [Hdel Hq Hts Hc].
  destruct ev as [v d a e|task_id f|ws| | |ws]; cbn [step].
  - (* speak *)
    replace (dequeued w (EvSpeak v d a e)) with (@nil nat)
      by (unfold dequeued; by destruct (_sender_task (manager w)) as [[]|]).
    rewrite app_nil_r. cbn.
    destruct (speak w v d a e) as [w'|] eqn:Hspeak.
    + assert (speak_accepts v d = true) as ->
        by (eapply speak_accepted; eauto).
      destruct (speak_printable _ _ _ _ _ _ Hspeak) as [? ->].
      apply speak_effect in Hspeak
        as (Hb & Hst' & Hn & Hc' & Hout & Hlog & Hcase).
      assert ((segments ++ [(d, a)]) !! _sequence_counter (manager w)
              = Some (d, a)) as Hnew by (by apply list_lookup_middle).
      eapply reliable_inv_keep; [exact Hrel|apply carries_app|done|done| | | |].
      * by rewrite Hout.
      * destruct Hcase as [[-> _]|[_ ->]].
        -- intros p k [Hin|Hin]%elem_of_app.
           ++ by apply carries_app, Hq.
           ++ apply list_elem_of_singleton in Hin as [= -> ->].
              by exists d, a.
        -- intros p k Hin. by apply carries_app, Hq.
      * destruct Hcase as [[_ ->]|[-> _]].
        -- intros t Hin Hd. by apply lookup_app_l_Some, Hts.
        -- intros t [Hin|Hin]%elem_of_app Hd.
           ++ by apply lookup_app_l_Some, Hts.
           ++ apply list_elem_of_singleton in Hin as ->. done.
      * rewrite Hc', length_app, Hc. cbn. lia.
    + assert (speak_accepts v d = false) as ->.
      { destruct (speak_accepts v d) eqn:Hacc; [|done].
        apply (speak_accepted w v d a e) in Hacc as [w' Hw'].
        by rewrite Hw' in Hspeak. }
      by rewrite app_nil_r.
  - (* a worker finishes *)
    replace (dequeued w (EvWorker task_id f)) with (@nil nat)
      by (unfold dequeued; by destruct (_sender_task (manager w)) as [[]|]).
    rewrite !app_nil_r.
    destruct (worker_finish_effect w task_id f)
      as [->|(t & payload & Ht & Hd & Hm & Hdt & Hact & Hts' & Hout & Hlog)];
      [done|].
    eapply reliable_inv_keep; [exact Hrel|done|..].
    + unfold sender_buffer. by rewrite Hm.
    + by rewrite Hm.
    + by rewrite Hout.
    + rewrite Hm. cbn. intros p k [Hin|Hin]%elem_of_app; [by apply Hq|].
      apply list_elem_of_singleton in Hin as [= -> ->].
      exists (wt_display_text t), (wt_actions t). split; [|done].
      apply Hts; [|done]. by eapply list_elem_of_lookup_2.
    + rewrite Hts'. intros t' Hin Hd'.
      apply list_elem_of_lookup in Hin as [i Hi].
      apply list_lookup_insert_Some in Hi as [(_ & <- & _)|[_ Hi]]; [done|].
      apply Hts; [|done]. by eapply list_elem_of_lookup_2.
    + by rewrite Hm.
  - (* the sender takes an item *)
    rewrite app_nil_r. unfold dequeued.
    destruct (_sender_task (manager w)) as [[buffered| |]|] eqn:Hsender;
      try (rewrite app_nil_r; unfold sender_step; by rewrite Hsender).
    destruct (_payload_queue (manager w)) as [|[p k] rest] eqn:Hqueue;
      [rewrite app_nil_r; unfold sender_step; by rewrite Hsender, Hqueue|].
    destruct (sender_step_view w ws buffered p k rest Hsender Hqueue)
      as (Hview & Hst' & Hq' & Hc' & _ & Hts').
    cbn in Hpos.
    assert (k ∉ seen) as Hk.
    { assert (NoDup (seen ++ k :: rest.*2
                          ++ pending_sequence_numbers (tasks w))) as Hnd
        by (rewrite Hpos; apply NoDup_seq).
      apply NoDup_app in Hnd as (_ & Hnot & _).
      intros Hin. apply (Hnot _ Hin). apply list_elem_of_here. }
    split.
    + rewrite Hview. apply sender_iteration_delivery; try done.
      apply Hq. apply list_elem_of_here.
    + rewrite Hq'. intros p' k' Hin. apply Hq. by apply list_elem_of_further.
    + by rewrite Hts'.
    + by rewrite Hc'.
  - (* the cancelled sender leaves: there is none in a lifecycle *)
    replace (dequeued w EvSenderExit) with (@nil nat)
      by (unfold dequeued; by destruct (_sender_task (manager w)) as [[]|]).
    rewrite !app_nil_r. unfold sender_exit.
    by destruct Hst as [->|[b ->]].
  - done.
  - (* waiting for the pending tasks *)
    replace (dequeued w (EvWaitPending ws)) with (@nil nat)
      by (unfold dequeued; by destruct (_sender_task (manager w)) as [[]|]).
    rewrite !app_nil_r. unfold wait_for_pending_tts.
    destruct (task_list (manager w)); [done|].
    destruct (forallb _ _); [|done].
    destruct (ws _ _); [|done].
    eapply reliable_inv_keep; [exact Hrel|done..| |done|done|done].
    cbn [outbound]. rewrite audio_payloads_app. cbn. apply app_nil_r.
Qed.

Lemma reliable_lifecycle_event ev : reliable_event ev → lifecycle_event ev.
Proof. by destruct ev. Qed.

Lemma init_world_inv :
  lifecycle_inv [] init_world ∧ reliable_inv [] [] init_world.
Proof.
  split.
  - split; cbn; [by left| |by intros k [? ?]|done].
    split; cbn; [done|done|by intros k [? ?]|intros k ?; lia].
  - split; cbn; [|by intros p k ?%elem_of_nil|by intros t ?%elem_of_nil|done].
    split; cbn; [by intros i p|by intros k p|by intros k ?%elem_of_nil|done].
Qed.

Lemma lifecycle_run (evs : list Event) :
  Forall lifecycle_event evs → ∃ seen, lifecycle_inv seen (run init_world evs).
Proof.
  induction evs as [|ev evs IH] using rev_ind; intros Hall.
  - exists []. apply init_world_inv.
  - apply Forall_app in Hall as [Hall Hev%Forall_inv].
    destruct (IH Hall) as [seen Hinv].
    unfold run. rewrite foldl_app. cbn. eexists.
    by apply lifecycle_step.
Qed.

Lemma reliable_run (evs : list Event) :
  Forall reliable_event evs →
  ∃ seen, lifecycle_inv seen (run init_world evs)
          ∧ reliable_inv (submitted evs) seen (run init_world evs).
Proof.
  induction evs as [|ev evs IH] using rev_ind; intros Hall.
  - exists []. apply init_world_inv.
  - apply Forall_app in Hall as [Hall Hev%Forall_inv].
    destruct (IH Hall) as (seen & Hinv & Hrel).
    unfold run. rewrite foldl_app, submitted_snoc. cbn -[submitted]. eexists.
    split.
    + apply lifecycle_step; [by apply reliable_lifecycle_event|done].
    + by apply reliable_step.
Qed.

(** ** A lifecycle as a whole *)

Lemma lifecycle_counter (evs : list Event) :
  Forall lifecycle_event evs →
  let w := run init_world evs in
  sent_sequence_numbers (log w) = seq 0 (_next_sequence_to_send (manager w))
  ∧ length (audio_payloads (outbound w)) = _next_sequence_to_send (manager w)
  ∧ _next_sequence_to_send (manager w) ≤ _sequence_counter (manager w)
  ∧ NoDup ((_payload_queue (manager w)).*2)
  ∧ ∀ k, k ≤ _next_sequence_to_send (manager w) → sender_buffer w !! k = None.
Proof.
  intros Hall w. destruct (lifecycle_run evs Hall) as [seen Hinv].
  fold w in Hinv. destruct Hinv as [Hst [Hlog Hcnt Hbuf Hfl] Habove Hpos].
  cbn in *. split_and!; [done..| | |].
  - destruct (_next_sequence_to_send (manager w)) as [|n] eqn:Hn; [lia|].
    assert (n ∈ seq 0 (_sequence_counter (manager w))) as Hin.
    { rewrite <-Hpos. apply elem_of_app. left. apply Hfl. lia. }
    apply elem_of_seq in Hin. lia.
  - assert (NoDup (seen ++ (_payload_queue (manager w)).*2
                        ++ pending_sequence_numbers (tasks w))) as Hnd
      by (rewrite Hpos; apply NoDup_seq).
    apply NoDup_app in Hnd as (_ & _ & Hnd).
    by apply NoDup_app in Hnd as (Hnd & _).
  - intros k Hle. destruct (sender_buffer w !! k) as [p|] eqn:Hk; [exfalso|done].
    specialize (Habove k ltac:(eauto)). cbn in Habove. lia.
Qed.

Lemma lifecycle_delivery (evs : list Event) :
  Forall reliable_event evs →
  let w := run init_world evs in
  Forall2 (λ p segment,
             pl_display_text p = display_to_dict <$> segment.1
             ∧ pl_actions p = actions_to_dict <$> segment.2)
    (audio_payloads (outbound w))
    (take (_next_sequence_to_send (manager w)) (submitted evs))
  ∧ _sequence_counter (manager w) = length (submitted evs)
  ∧ (quiescent w →
     _next_sequence_to_send (manager w) = length (submitted evs)).
Proof.
  intros Hall w. destruct (reliable_run evs Hall) as (seen & Hinv & Hrel).
  fold w in Hinv, Hrel.
  destruct Hinv as [Hst [Hlog Hcnt Hbuf Hfl] Habove Hpos].
  destruct Hrel as [[Hsent Hcontent Hwait Hnext] Hq Hts Hc]. cbn in *.
  assert (_next_sequence_to_send (manager w) ≤ _sequence_counter (manager w))
    as Hle by (apply (lifecycle_counter evs),
                 (Forall_impl _ _ _ Hall reliable_lifecycle_event)).
  split_and!.
  - apply Forall2_same_length_lookup_2.
    + rewrite length_take_le; [done|]. by rewrite <-Hc.
    + intros i p [d a] Hp [Hseg Hi]%lookup_take_Some.
      destruct (Hsent i p Hp) as (d' & a' & Hseg' & Hd & Ha).
      rewrite Hseg in Hseg'. by injection Hseg' as <- <-.
  - done.
  - intros (Hdone & Hempty).
    rewrite Hempty, (pending_done _ Hdone), !app_nil_r in Hpos. rewrite <-Hc.
    destruct (decide (_next_sequence_to_send (manager w)
                      = _sequence_counter (manager w))) as [|Hne]; [done|].
    exfalso. destruct (Hwait (_next_sequence_to_send (manager w)))
      as [p Hp]; [|lia|].
    + rewrite Hpos. apply elem_of_seq. lia.
    + by rewrite Hnext in Hp.
Qed.

(** Order of delivery on a channel on which no send fails.  (1) The
    Reorder Sender: when the payloads of the segments submitted with
    sequence numbers 0, 1, ..., n-1 arrive on the submission queue in any
    order whatsoever and no send fails, the channel receives them in
    submission order, one message per segment, the positions 0, ..., n-1
    being flushed once each and nothing staying buffered.  (2) The manager
    as a whole: in every run of a lifecycle in which no send fails, however
    submissions, worker completions and sender steps interleave, the
    payloads delivered so far carry, in order, the metadata of the first
    segments submitted; once every worker has finished and the queue is
    empty, every submitted segment has been delivered. *)
Theorem order_on_reliable_channel (payloads : list Payload)
    (arrivals : list (Payload * nat)) (evs : list Event) :
  (arrivals ≡ₚ zip payloads (seq 0 (length payloads)) →
   sent (deliver_all arrivals) = AudioMsg <$> payloads
   ∧ sent_sequence_numbers (sender_log (deliver_all arrivals))
     = seq 0 (length payloads)
   ∧ next_sequence_to_send (deliver_all arrivals) = length payloads
   ∧ buffered_payloads (deliver_all arrivals) = ∅)
  ∧ (Forall reliable_event evs →
     let w := run init_world evs in
     Forall2 (λ p segment,
                pl_display_text p = display_to_dict <$> segment.1
                ∧ pl_actions p = actions_to_dict <$> segment.2)
       (audio_payloads (outbound w))
       (take (_next_sequence_to_send (manager w)) (submitted evs))
     ∧ _sequence_counter (manager w) = length (submitted evs)
     ∧ (quiescent w →
        _next_sequence_to_send (manager w) = length (submitted evs))).
Proof.
  split; [apply deliver_all_in_order|apply lifecycle_delivery].
Qed.


End LifecycleProperties.

(** * Further properties of the payload builder *)

Section PayloadProperties.
Context `{Ext : Externals}.

Lemma py_truediv_zero (v m : N) :
  m ≠ 0%N → (py_truediv v m == 0)%Q ↔ v = 0%N.
Proof.
  intros Hm. destruct m as [|p]; [done|].
  unfold py_truediv, Qdiv, Qmult, Qinv, Qeq. cbn.
  rewrite Z.mul_0_l, !Z.mul_1_r. lia.
Qed.

Lemma py_truediv_mono (v1 v2 m : N) :
  (v1 ≤ v2)%N → (py_truediv v1 m <= py_truediv v2 m)%Q.
Proof.
  intros Hle. unfold py_truediv, Qdiv. apply Qmult_le_compat_r.
  - rewrite <-Zle_Qle. lia.
  - apply Qinv_le_0_compat. change 0%Q with (inject_Z 0).
    rewrite <-Zle_Qle. lia.
Qed.

Lemma py_truediv_scale (c v m : N) :
  c ≠ 0%N → (py_truediv (c * v) (c * m) == py_truediv v m)%Q.
Proof.
  intros Hc. unfold py_truediv. rewrite !N2Z.inj_mul, !inject_Z_mult.
  destruct (decide (m = 0%N)) as [->|Hm].
  - cbn. unfold Qdiv. rewrite Qmult_0_r. cbn. by rewrite !Qmult_0_r.
  - field. split.
    + change 0%Q with (inject_Z 0). rewrite inject_Z_injective. lia.
    + change 0%Q with (inject_Z 0). rewrite inject_Z_injective. lia.
Qed.

Lemma foldl_max_scale (c x : N) (l : list N) :
  foldl N.max (c * x)%N (map (N.mul c) l) = (c * foldl N.max x l)%N.
Proof.
  revert x. induction l as [|a l IH]; intros x; [done|].
  cbn [foldl map]. rewrite N.mul_max_distr_l. apply IH.
Qed.

Lemma envelope_scale (c m : N) (vs : list N) :
  c ≠ 0%N →
  Forall2 Qeq (map (λ v, py_truediv v m) vs)
    (map (λ v, py_truediv v (c * m)) (map (N.mul c) vs)).
Proof.
  intros Hc. induction vs as [|v vs IH]; [constructor|].
  cbn [map]. constructor; [|exact IH].
  symmetry. by apply py_truediv_scale.
Qed.

Lemma get_volume_Ok (audio : AudioSegment) (chunk_length_ms : Z) envelope :
  _get_volume_by_chunks audio chunk_length_ms = Ok envelope →
  ∃ max_volume,
    py_max (map rms (make_chunks audio chunk_length_ms)) = Ok max_volume
    ∧ max_volume ≠ 0%N
    ∧ envelope = map (λ v, py_truediv v max_volume)
                   (map rms (make_chunks audio chunk_length_ms)).
Proof.
  unfold _get_volume_by_chunks.
  destruct (py_max _) as [m|]; [|done].
  destruct (N.eqb_spec m 0); [done|]. intros [= <-]. by exists m.
Qed.

Lemma get_volume_Raise (audio : AudioSegment) (chunk_length_ms : Z) e :
  _get_volume_by_chunks audio chunk_length_ms = Raise e →
  ∃ msg, e = ValueError msg.
Proof.
  unfold _get_volume_by_chunks.
  destruct (map rms (make_chunks audio chunk_length_ms)) as [|x l];
    [intros [= <-]; eauto|].
  cbn [py_max]. destruct (N.eqb_spec (foldl N.max x l) 0); [|done].
  intros [= <-]. eauto.
Qed.

(** The envelope has one value per window; a window is silent exactly when
    its value is 0; and a window at least as loud as another gets a value at
    least as large. *)
Theorem envelope_shape (audio : AudioSegment) (chunk_length_ms : Z) envelope :
  _get_volume_by_chunks audio chunk_length_ms = Ok envelope →
  length envelope = length (make_chunks audio chunk_length_ms)
  ∧ (∀ (i : nat) chunk q,
       make_chunks audio chunk_length_ms !! i = Some chunk →
       envelope !! i = Some q →
       (q == 0)%Q ↔ rms chunk = 0%N)
  ∧ (∀ (i j : nat) chunk_i chunk_j q_i q_j,
       make_chunks audio chunk_length_ms !! i = Some chunk_i →
       make_chunks audio chunk_length_ms !! j = Some chunk_j →
       envelope !! i = Some q_i → envelope !! j = Some q_j →
       (rms chunk_i ≤ rms chunk_j)%N → (q_i <= q_j)%Q).
Proof.
  intros (m & Hm & Hm0 & ->)%get_volume_Ok. split_and!.
  - by rewrite !length_map.
  - intros i chunk q Hc. rewrite <-list_fmap_compose, list_lookup_fmap, Hc.
    cbn. intros [= <-]. by apply py_truediv_zero.
  - intros i j ci cj qi qj Hci Hcj.
    rewrite <-list_fmap_compose, !list_lookup_fmap, Hci, Hcj. cbn.
    intros [= <-] [= <-]. apply py_truediv_mono.
Qed.

(** The envelope does not depend on the gain: when every window of a
    second recording is [c] times as loud as the same window of the first,
    both recordings are rejected or both get the same envelope. *)
Theorem envelope_scale_invariant (audio1 audio2 : AudioSegment)
    (ms1 ms2 : Z) (c : N) :
  c ≠ 0%N →
  map rms (make_chunks audio2 ms2)
  = map (N.mul c) (map rms (make_chunks audio1 ms1)) →
  match _get_volume_by_chunks audio1 ms1, _get_volume_by_chunks audio2 ms2 with
  | Ok envelope1, Ok envelope2 => Forall2 Qeq envelope1 envelope2
  | Raise _, Raise _ => True
  | _, _ => False
  end.
Proof.
  intros Hc Hscaled. unfold _get_volume_by_chunks. rewrite Hscaled.
  destruct (map rms (make_chunks audio1 ms1)) as [|x l]; [done|].
  cbn [py_max map]. rewrite foldl_max_scale.
  set (m := foldl N.max x l).
  destruct (N.eqb_spec m 0) as [->|Hm].
  - by rewrite N.mul_0_r.
  - destruct (N.eqb_spec (c * m) 0) as [Hz|_]; [lia|].
    by apply (envelope_scale c m (x :: l)).
Qed.

(** What a returned payload looks like: it has type "audio" and the
    slice length, metadata and forwarded flag it was given; without an audio
    path it has neither audio nor volumes; with one it has audio and a
    non-empty list of volumes between 0 and 1, one of them 1.  So the volume
    list is empty exactly when the audio is absent. *)
Theorem payload_schema (audio_path : option string) (chunk_length_ms : Z)
    (display_text : option DisplayDict) (actions : option ActionsDict)
    (forwarded : bool) (payload : Payload) :
  prepare_audio_payload audio_path chunk_length_ms display_text actions forwarded
  = Ok payload →
  pl_type payload = "audio"
  ∧ pl_slice_length payload = chunk_length_ms
  ∧ pl_display_text payload = display_text
  ∧ pl_actions payload = actions
  ∧ pl_forwarded payload = forwarded
  ∧ (path_truthy audio_path = false →
     pl_audio payload = None ∧ pl_volumes payload = [])
  ∧ (path_truthy audio_path = true →
     is_Some (pl_audio payload)
     ∧ pl_volumes payload ≠ []
     ∧ Forall (λ q, 0 <= q /\ q <= 1)%Q (pl_volumes payload)
     ∧ Exists (λ q, q == 1)%Q (pl_volumes payload))
  ∧ (pl_audio payload = None ↔ pl_volumes payload = []).
Proof.
  unfold prepare_audio_payload.
  destruct (path_truthy audio_path) eqn:Hpath; cbn [negb].
  - destruct (from_file _) as [audio|]; [|done].
    destruct (export_wav audio) as [bytes|]; [|done].
    destruct (_get_volume_by_chunks audio chunk_length_ms) as [volumes|] eqn:Hv;
      [|done].
    intros [= <-]. cbn.
    apply get_volume_Ok in Hv as (m & Hm & Hm0 & ->).
    destruct (py_max_spec _ _ Hm) as [Hall Hin].
    assert (map rms (make_chunks audio chunk_length_ms) ≠ []) as Hne
      by (intros Heq; rewrite Heq in Hin; by apply elem_of_nil in Hin).
    assert (map (λ v, py_truediv v m) (map rms (make_chunks audio chunk_length_ms))
            ≠ []) as Hne'
      by (destruct (map rms (make_chunks audio chunk_length_ms)); done).
    split_and!; try done.
    + intros _. split_and!; [by eexists|done| |].
      * apply Forall_fmap. eapply Forall_impl; [exact Hall|].
        intros v Hv. by apply py_truediv_range.
      * apply Exists_exists. exists (py_truediv m m). split.
        -- apply list_elem_of_fmap. eauto.
        -- by apply py_truediv_self.
  - intros [= <-]. cbn. by split_and!.
Qed.

(** With a chunk length other than 0 (the repository uses 20; at 0
    [make_chunks] itself raises [ZeroDivisionError]), the only exception
    the payload builder raises is [ValueError], and it raises only when it
    was given an audio path. *)
Theorem payload_error_is_value_error (audio_path : option string)
    (chunk_length_ms : Z) (display_text : option DisplayDict)
    (actions : option ActionsDict) (forwarded : bool) (e : exn) :
  chunk_length_ms ≠ 0%Z →
  prepare_audio_payload audio_path chunk_length_ms display_text actions forwarded
  = Raise e →
  path_truthy audio_path = true ∧ ∃ msg, e = ValueError msg.
Proof.
  intros _. unfold prepare_audio_payload.
  destruct (path_truthy audio_path) eqn:Hpath; cbn [negb]; [|done].
  destruct (from_file _) as [audio|]; [|intros [= <-]; eauto].
  destruct (export_wav audio) as [bytes|]; [|intros [= <-]; eauto].
  destruct (_get_volume_by_chunks audio chunk_length_ms) as [volumes|e'] eqn:Hv;
    [done|].
  intros [= <-]. split; [done|].
  destruct (get_volume_Raise audio chunk_length_ms e' Hv) as [msg ->]. eauto.
Qed.

End PayloadProperties.

(** * Further properties of the manager *)

Section ManagerExtras.
Context `{Ext : Externals}.
Implicit Types (w : World) (v : PyObj) (obj : PyAny) (n k : nat).
Implicit Types (s : SenderState).

(** ** The worker's cleanup *)

(** The [finally] clause of the worker.  A worker raises no exception:
    it returns, or, when it is cancelled, it ends with the cancellation.
    The generated file is removed exactly when the worker was not cancelled
    and the engine returned a non-empty path, whether the payload could be
    built from it or not; when the removal raises, the worker logs it and
    still returns.  A cancelled worker calls [remove_file] for no file:
    the path has not been assigned when the cancellation arrives. *)
Theorem worker_cleanup w tts_text display_text actions tts_engine n file_name
    cancellation :
  ∃ w', _process_tts w tts_text display_text actions tts_engine n file_name
          cancellation
        = (w', match cancellation with
               | NotCancelled => Returns tt
               | _ => Cancelled
               end)
    ∧ match cancellation with
      | NotCancelled =>
          match async_generate_audio tts_engine tts_text file_name with
          | Raise _ => removed_files w' = removed_files w
          | Ok path =>
              if path_truthy (Some path) then
                match remove_file tts_engine path with
                | Ok _ => removed_files w' = removed_files w ++ [path]
                | Raise _ =>
                    removed_files w' = removed_files w
                    ∧ last (log w') = Some (LogRemoveFailed path)
                end
              else removed_files w' = removed_files w
          end
      | _ =>
          removed_files w' = removed_files w
          ∧ Forall (λ e, ∀ path, e ≠ LogRemoveFailed path)
              (drop (length (log w)) (log w'))
      end.
Proof.
  destruct cancellation; [|eexists; split; [done|]; cbn..].
  - unfold _process_tts, _generate_audio.
    destruct (async_generate_audio tts_engine tts_text file_name) as [path|e];
      cbn [of_result].
    + destruct (prepare_audio_payload_default (Some path) _ _) as [payload|e];
        [|rewrite fallback_payload_spec];
        (eexists; split; [done|]);
        unfold cleanup_audio_file;
        (destruct (path_truthy (Some path)); [|done]);
        (destruct (remove_file tts_engine _); cbn; [done|]);
        (split; [done|]); by rewrite last_snoc.
    + rewrite fallback_payload_spec. by eexists.
  - split; [done|]. by rewrite drop_all.
  - split; [done|]. rewrite drop_app_length. by repeat constructor.
Qed.

(** ** When [speak] raises *)

(** [speak] raises in two cases only: [str(tts_text)] raises, and then
    [speak] raises the same exception; or the text is not empty after
    stripping and there is no display text, and then the exception is the
    [AttributeError] of reading [display_text.name].  A silent segment
    without display text is accepted. *)
Theorem speak_raises_iff w obj display_text actions tts_engine err :
  speak w obj display_text actions tts_engine = Raise err
  ↔ builtin_str obj = Raise err
    ∨ (∃ t, builtin_str obj = Ok t ∧ re_sub_strip t ≠ []
            ∧ display_text = None
            ∧ err = AttributeError "'NoneType' object has no attribute 'name'").
Proof.
  destruct obj as [v|e]; cbn [builtin_str].
  - destruct (re_sub_strip (py_str v)) as [|c l] eqn:Hs.
    + rewrite speak_silent by done. split; [done|].
      intros [?|(t & [= <-] & ? & _)]; [done|]. congruence.
    + rewrite speak_spoken by (by rewrite Hs).
      destruct display_text as [d|]; split; try done.
      * intros [?|(t & _ & _ & ? & _)]; done.
      * intros [= <-]. right. exists (py_str v). by rewrite Hs.
      * intros [?|(t & _ & _ & _ & ->)]; done.
  - split.
    + intros [= <-]. by left.
    + intros [[= <-]|(t & ? & _)]; done.
Qed.

(** ** A submission between [clear] and the exit of the sender *)

(** When [speak] follows [clear] before the cancelled sender has left its
    loop, no new sender is started: the cancelled task is not [done()] yet.
    The submission is accepted, but nothing is delivered, neither before nor
    after the old sender has left, until a later [speak] starts a sender. *)
Theorem speak_before_sender_exit w buffered (v : PyAny) display_text actions
    tts_engine w' :
  _sender_task (manager w) = Some (SenderRunning buffered) →
  speak (clear w) v display_text actions tts_engine = Ok w' →
  _sender_task (manager w') = Some SenderCancelling
  ∧ (∀ ws, sender_step w' ws = w')
  ∧ (∀ ws, sender_step (sender_exit w') ws = sender_exit w')
  ∧ _payload_queue (manager (sender_exit w')) = _payload_queue (manager w')
  ∧ _sequence_counter (manager w') = 1
  ∧ (∀ (v2 : PyAny) display_text2 actions2 tts_engine2 w'',
       speak (sender_exit w') v2 display_text2 actions2 tts_engine2 = Ok w'' →
       _sender_task (manager w'') = Some (SenderRunning ∅)).
Proof.
  intros Hrun Hspeak.
  destruct (speak_printable _ _ _ _ _ _ Hspeak) as [? ->].
    apply speak_effect in Hspeak as (_ & Hst & _ & Hc & _).
  assert (_sender_task (manager (clear w)) = Some SenderCancelling) as Hcl
    by (unfold clear; cbn; by rewrite Hrun).
  rewrite Hcl in Hst.
  assert (_sender_task (manager (sender_exit w')) = Some SenderDone) as Hexit
    by (unfold sender_exit; by rewrite Hst).
  split_and!.
  - done.
  - intros ws. unfold sender_step. by rewrite Hst.
  - intros ws. unfold sender_step. by rewrite Hexit.
  - unfold sender_exit. by rewrite Hst.
  - by rewrite Hc.
  - intros v2 d2 a2 e2 w'' Hspeak2.
    destruct (speak_printable _ _ _ _ _ _ Hspeak2) as [? ->].
    apply speak_effect in Hspeak2 as (_ & Hst2 & _). by rewrite Hst2, Hexit.
Qed.

(** ** A sequence number that arrives twice *)

(** The buffer is a dict: a payload arriving under a sequence number that
    is already buffered replaces the buffered one, which is then never
    delivered. *)
Theorem duplicate_sequence_number_overwrites
    (ws ws' : WebSocketSend) (p p' : Payload) k s :
  buffered_payloads s !! next_sequence_to_send s = None →
  k ≠ next_sequence_to_send s →
  sender_iteration ws' (p', k) (sender_iteration ws (p, k) s)
  = sender_iteration ws' (p', k) s.
Proof.
  intros Hnone Hk. rewrite (stalled_iteration ws p k s) by done.
  rewrite !stalled_iteration; cbn; try done.
  - by rewrite insert_insert_eq.
  - by rewrite lookup_insert_ne.
Qed.

(** ** Every run, with [clear], failing sends and late workers *)

Lemma since_cleared_snoc (l : list LogEvent) e :
  since_cleared (l ++ [e])
  = match e with LogCleared => [] | _ => since_cleared l ++ [e] end.
Proof. unfold since_cleared. by rewrite foldl_app. Qed.

Lemma since_cleared_quiet (l l' : list LogEvent) :
  Forall quiet l' → since_cleared (l ++ l') = since_cleared l ++ l'.
Proof.
  induction l' as [|e l' IH] using rev_ind; intros Hq.
  - by rewrite !app_nil_r.
  - apply Forall_app in Hq as [Hq He%Forall_inv].
    rewrite !(assoc_L (++)), since_cleared_snoc, IH by done.
    by destruct e.
Qed.

Lemma sent_sequence_numbers_quiet (l : list LogEvent) :
  Forall quiet l → sent_sequence_numbers l = [].
Proof.
  induction 1 as [|e l He Hl IH]; [done|]. cbn. destruct e; try done.
Qed.

Lemma speak_log w obj display_text actions tts_engine w' :
  speak w obj display_text actions tts_engine = Ok w' →
  ∃ l, log w' = log w ++ l ∧ Forall quiet l.
Proof.
  intros Hspeak. destruct (speak_printable _ _ _ _ _ _ Hspeak) as [v ->].
  revert Hspeak. destruct (re_sub_strip (py_str v)) as [|c l] eqn:Hs.
  - rewrite speak_silent by done. intros [= <-].
    rewrite ensure_sender_spec. cbn. rewrite <-!(assoc_L (++)).
    eexists. split; [done|].
    destruct (_sender_task (manager w)) as [[]|]; by repeat constructor.
  - rewrite speak_spoken by (by rewrite Hs).
    destruct display_text as [d|]; [|done]. intros [= <-].
    rewrite ensure_sender_spec. cbn. rewrite <-!(assoc_L (++)).
    eexists. split; [done|].
    destruct (_sender_task (manager w)) as [[]|]; by repeat constructor.
Qed.

Lemma process_tts_log w tts_text display_text actions tts_engine n file_name
    cancellation :
  ∃ l, log (_process_tts w tts_text display_text actions tts_engine n
              file_name cancellation).1
       = log w ++ l
       ∧ Forall quiet l.
Proof.
  destruct cancellation;
    [|exists []; by rewrite app_nil_r
     |cbn; eexists; split; [done|]; by repeat constructor].
  unfold _process_tts, _generate_audio.
  destruct (async_generate_audio tts_engine tts_text file_name) as [path|e];
    cbn [of_result].
  - destruct (prepare_audio_payload_default (Some path) _ _) as [payload|e];
      [|rewrite fallback_payload_spec];
      unfold cleanup_audio_file;
      (destruct (path_truthy (Some path));
       [destruct (remove_file tts_engine _)|]); cbn;
      rewrite <-?(assoc_L (++)); eexists; (split; [done|]);
      by repeat constructor.
  - rewrite fallback_payload_spec. cbn.
    rewrite <-?(assoc_L (++)). eexists. split; [done|]. by repeat constructor.
Qed.

Lemma worker_finish_log w task_id file_name :
  ∃ l, log (worker_finish w task_id file_name) = log w ++ l ∧ Forall quiet l.
Proof.
  unfold worker_finish.
  destruct (tasks w !! task_id) as [t|]; [|exists []; by rewrite app_nil_r].
  destruct (wt_done t); [exists []; by rewrite app_nil_r|].
  cbn [log]. apply process_tts_log.
Qed.

Lemma sender_iteration_since ws (item : Payload * nat) s :
  sent_sequence_numbers (since_cleared (sender_log s))
  = seq 0 (next_sequence_to_send s) →
  sent_sequence_numbers (since_cleared (sender_log (sender_iteration ws item s)))
  = seq 0 (next_sequence_to_send (sender_iteration ws item s)).
Proof.
  intros Hs. destruct item as [p k]. unfold sender_iteration.
  set (s1 := mkSender _ _ _ _).
  assert (sent_sequence_numbers
            (since_cleared
               (sender_log (flush_loop (S (size (buffered_payloads s1))) ws s1).1))
          = seq 0 (next_sequence_to_send
                     (flush_loop (S (size (buffered_payloads s1))) ws s1).1))
    as Hloop.
  { apply (flush_loop_ind
             (λ s, sent_sequence_numbers (since_cleared (sender_log s))
                   = seq 0 (next_sequence_to_send s))); [| |done].
    - intros s' p' Hs' _ _. cbn [sender_log next_sequence_to_send].
      rewrite since_cleared_snoc, sent_sequence_numbers_app, Hs', seq_S. done.
    - intros s' p' e Hs' _ _. done. }
  destruct (flush_loop _ ws s1) as [s2 []]; cbn in *; [done| |done].
  by rewrite since_cleared_snoc, sent_sequence_numbers_app, Hloop, app_nil_r.
Qed.

(** In every run whatsoever, the "Sent payload" lines written since the
    last [clear] name the positions 0, 1, ..., [_next_sequence_to_send - 1]
    in this order: within a lifecycle nothing is flushed twice or out of
    turn, whatever the channel and late workers do. *)
Theorem flush_order_in_every_run (evs : list Event) :
  sent_sequence_numbers (since_cleared (log (run init_world evs)))
  = seq 0 (_next_sequence_to_send (manager (run init_world evs))).
Proof.
  induction evs as [|ev evs IH] using rev_ind; [done|].
  unfold run in *. rewrite foldl_app. cbn [foldl].
  set (w := foldl step init_world evs) in *.
  destruct ev as [v d a e|task_id f|ws| | |ws]; cbn [step].
  - destruct (speak w v d a e) as [w'|] eqn:Hspeak; [|done].
    destruct (speak_log _ _ _ _ _ _ Hspeak) as (l & -> & Hq).
    destruct (speak_printable _ _ _ _ _ _ Hspeak) as [? ->].
    apply speak_effect in Hspeak as (_ & _ & -> & _).
    rewrite since_cleared_quiet, sent_sequence_numbers_app by done.
    by rewrite (sent_sequence_numbers_quiet l), app_nil_r.
  - destruct (worker_finish_log w task_id f) as (l & -> & Hq).
    rewrite since_cleared_quiet, sent_sequence_numbers_app by done.
    rewrite (sent_sequence_numbers_quiet l), app_nil_r by done.
    destruct (worker_finish_effect w task_id f)
      as [->|(t & payload & _ & _ & -> & _)]; done.
  - unfold sender_step.
    destruct (_sender_task (manager w)) as [[buffered| |]|]; try done.
    destruct (_payload_queue (manager w)) as [|item rest]; [done|].
    cbn [log manager _next_sequence_to_send].
    by apply sender_iteration_since.
  - unfold sender_exit.
    by destruct (_sender_task (manager w)) as [[]|].
  - unfold clear. cbn. by rewrite since_cleared_snoc.
  - unfold wait_for_pending_tts.
    destruct (task_list (manager w)); [done|].
    destruct (forallb _ _); [|done].
    by destruct (ws _ _).
Qed.

Lemma since_clear_snoc (evs : list Event) ev :
  since_clear (evs ++ [ev])
  = match ev with EvClear => [] | _ => since_clear evs ++ [ev] end.
Proof. unfold since_clear. by rewrite foldl_app. Qed.

(** The Sequencer: in every run, [_sequence_counter] is the number of
    submissions [speak] has accepted since the last [clear]; a call that
    raises uses up no sequence number. *)
Theorem sequencer_counts_submissions (evs : list Event) :
  _sequence_counter (manager (run init_world evs))
  = length (submitted (since_clear evs)).
Proof.
  induction evs as [|ev evs IH] using rev_ind; [done|].
  unfold run in *. rewrite foldl_app. cbn [foldl].
  set (w := foldl step init_world evs) in *.
  rewrite since_clear_snoc.
  destruct ev as [v d a e|task_id f|ws| | |ws]; cbn [step];
    rewrite ?submitted_snoc, ?length_app; cbn -[speak_accepts].
  - destruct (speak w v d a e) as [w'|] eqn:Hspeak.
    + assert (speak_accepts v d = true) as ->
        by (eapply speak_accepted; eauto).
      destruct (speak_printable _ _ _ _ _ _ Hspeak) as [? ->].
    apply speak_effect in Hspeak as (_ & _ & _ & -> & _). cbn. lia.
    + assert (speak_accepts v d = false) as ->.
      { destruct (speak_accepts v d) eqn:Hacc; [|done].
        apply (speak_accepted w v d a e) in Hacc as [w' Hw'].
        by rewrite Hw' in Hspeak. }
      cbn. lia.
  - destruct (worker_finish_effect w task_id f)
      as [->|(t & payload & _ & _ & -> & _)]; cbn; lia.
  - unfold sender_step.
    destruct (_sender_task (manager w)) as [[buffered| |]|]; try lia.
    destruct (_payload_queue (manager w)) as [|item rest]; cbn; lia.
  - unfold sender_exit.
    destruct (_sender_task (manager w)) as [[]|]; cbn; lia.
  - done.
  - unfold wait_for_pending_tts.
    destruct (task_list (manager w)); [lia|].
    destruct (forallb _ _); [|lia].
    destruct (ws _ _); cbn; lia.
Qed.

(** ** Delivery order in a run on a channel that may fail *)

Lemma ordered_inv_keep segments segments' w w' :
  ordered_inv segments w →
  (∀ k (p : Payload), carries segments k p → carries segments' k p) →
  sender_buffer w' = sender_buffer w →
  audio_payloads (outbound w') = audio_payloads (outbound w) →
  (∀ p (k : nat), (p, k) ∈ _payload_queue (manager w') → carries segments' k p) →
  (∀ t, t ∈ tasks w' → wt_done t = false →
        segments' !! wt_sequence_number t
        = Some (wt_display_text t, wt_actions t)) →
  _sequence_counter (manager w') = length segments' →
  ordered_inv segments' w'.
Proof.
  intros [Hsent Hbuf Hq Hts Hc] Hmono Hb Hout Hq' Hts' Hc'.
  split; rewrite ?Hb, ?Hout; eauto.
Qed.

Lemma ordered_step segments seen w ev :
  lifecycle_event ev → lifecycle_inv seen w → ordered_inv segments w →
  ordered_inv (segments ++ submitted [ev]) (step w ev).
Proof.
  intros Hev Hinv Hord. pose proof Hinv as [Hst Hsinv Habove Hpos].
  pose proof Hord as [Hsent Hbuf Hq Hts Hc].
  destruct ev as [v d a e|task_id f|ws| | |ws]; cbn [step].
  - (* speak *)
    cbn.
    destruct (speak w v d a e) as [w'|] eqn:Hspeak.
    + assert (speak_accepts v d = true) as ->
        by (eapply speak_accepted; eauto).
      destruct (speak_printable _ _ _ _ _ _ Hspeak) as [? ->].
      apply speak_effect in Hspeak
        as (Hb & Hst' & Hn & Hc' & Hout & Hlog & Hcase).
      assert ((segments ++ [(d, a)]) !! _sequence_counter (manager w)
              = Some (d, a)) as Hnew by (by apply list_lookup_middle).
      eapply ordered_inv_keep; [exact Hord|apply carries_app|done| | | |].
      * by rewrite Hout.
      * destruct Hcase as [[-> _]|[_ ->]].
        -- intros p k [Hin|Hin]%elem_of_app.
           ++ by apply carries_app, Hq.
           ++ apply list_elem_of_singleton in Hin as [= -> ->].
              by exists d, a.
        -- intros p k Hin. by apply carries_app, Hq.
      * destruct Hcase as [[_ ->]|[-> _]].
        -- intros t Hin Hd. by apply lookup_app_l_Some, Hts.
        -- intros t [Hin|Hin]%elem_of_app Hd.
           ++ by apply lookup_app_l_Some, Hts.
           ++ apply list_elem_of_singleton in Hin as ->. done.
      * rewrite Hc', length_app, Hc. cbn. lia.
    + assert (speak_accepts v d = false) as ->.
      { destruct (speak_accepts v d) eqn:Hacc; [|done].
        apply (speak_accepted w v d a e) in Hacc as [w' Hw'].
        by rewrite Hw' in Hspeak. }
      by rewrite app_nil_r.
  - (* a worker finishes *)
    rewrite !app_nil_r.
    destruct (worker_finish_effect w task_id f)
      as [->|(t & payload & Ht & Hd & Hm & Hdt & Hact & Hts' & Hout & Hlog)];
      [done|].
    eapply ordered_inv_keep; [exact Hord|done|..].
    + unfold sender_buffer. by rewrite Hm.
    + by rewrite Hout.
    + rewrite Hm. cbn. intros p k [Hin|Hin]%elem_of_app; [by apply Hq|].
      apply list_elem_of_singleton in Hin as [= -> ->].
      exists (wt_display_text t), (wt_actions t). split; [|done].
      apply Hts; [|done]. by eapply list_elem_of_lookup_2.
    + rewrite Hts'. intros t' Hin Hd'.
      apply list_elem_of_lookup in Hin as [i Hi].
      apply list_lookup_insert_Some in Hi as [(_ & <- & _)|[_ Hi]]; [done|].
      apply Hts; [|done]. by eapply list_elem_of_lookup_2.
    + by rewrite Hm.
  - (* the sender takes an item: the send may fail *)
    rewrite app_nil_r.
    destruct (_sender_task (manager w)) as [[buffered| |]|] eqn:Hsender;
      try (unfold sender_step; by rewrite Hsender).
    destruct (_payload_queue (manager w)) as [|[p k] rest] eqn:Hqueue;
      [unfold sender_step; by rewrite Hsender, Hqueue|].
    destruct (sender_step_view w ws buffered p k rest Hsender Hqueue)
      as (Hview & Hst' & Hq' & Hc' & _ & Hts').
    destruct (sender_iteration_carries (carries segments) ws p k (sender_view w))
      as [Hsent' Hbuf'].
    { apply Hq. apply list_elem_of_here. }
    { apply (inv_count _ _ Hsinv). }
    { done. }
    { done. }
    rewrite <-Hview in Hsent', Hbuf'. split.
    + exact Hsent'.
    + intros k' p' Hk'. apply Hbuf'. unfold sender_view. cbn. done.
    + rewrite Hq'. intros p' k' Hin. apply Hq. by apply list_elem_of_further.
    + by rewrite Hts'.
    + by rewrite Hc'.
  - (* the cancelled sender leaves: there is none in a lifecycle *)
    rewrite !app_nil_r. unfold sender_exit.
    by destruct Hst as [->|[b ->]].
  - done.
  - (* waiting for the pending tasks *)
    rewrite !app_nil_r. unfold wait_for_pending_tts.
    destruct (task_list (manager w)); [done|].
    destruct (forallb _ _); [|done].
    destruct (ws _ _); [|done].
    eapply ordered_inv_keep; [exact Hord|done..| |done|done|done].
    cbn [outbound]. rewrite audio_payloads_app. cbn. apply app_nil_r.
Qed.

Lemma ordered_run (evs : list Event) :
  Forall lifecycle_event evs →
  ∃ seen, lifecycle_inv seen (run init_world evs)
          ∧ ordered_inv (submitted evs) (run init_world evs).
Proof.
  induction evs as [|ev evs IH] using rev_ind; intros Hall.
  - exists []. split; [apply init_world_inv|].
    split; cbn; [by intros i p|by intros k p|by intros p k ?%elem_of_nil
                |by intros t ?%elem_of_nil|done].
  - apply Forall_app in Hall as [Hall Hev%Forall_inv].
    destruct (IH Hall) as (seen & Hinv & Hord).
    unfold run. rewrite foldl_app, submitted_snoc. cbn -[submitted]. eexists.
    split; [by apply lifecycle_step|by eapply ordered_step].
Qed.

(** Delivery order does not depend on the channel: in every run of a
    lifecycle, sends failing or not, the payloads that reached the channel
    carry, in order, the metadata of the first [_next_sequence_to_send]
    segments submitted.  A failed send loses payloads, it never reorders or
    duplicates them. *)
Theorem delivery_order_despite_failures (evs : list Event) :
  Forall lifecycle_event evs →
  let w := run init_world evs in
  Forall2 (λ p segment,
             pl_display_text p = display_to_dict <$> segment.1
             ∧ pl_actions p = actions_to_dict <$> segment.2)
    (audio_payloads (outbound w))
    (take (_next_sequence_to_send (manager w)) (submitted evs)).
Proof.
  intros Hall w. destruct (ordered_run evs Hall) as (seen & Hinv & Hord).
  fold w in Hinv, Hord.
  destruct (lifecycle_counter evs Hall) as (_ & Hlen & Hle & _). fold w in Hlen, Hle.
  destruct Hord as [Hsent _ _ _ Hc].
  apply Forall2_same_length_lookup_2.
  - rewrite length_take_le; [done|]. by rewrite <-Hc.
  - intros i p [d a] Hp [Hseg Hi]%lookup_take_Some.
    destruct (Hsent i p Hp) as (d' & a' & Hseg' & Hd & Ha).
    rewrite Hseg in Hseg'. by injection Hseg' as <- <-.
Qed.

End ManagerExtras.

(** * Properties of a conversation turn *)

Section TurnProperties.
Context `{TT : TurnTypes}.
Variable env : Collaborators.
Variable context : ServiceContext.
Implicit Types (s : TurnState) (a : Action) (tr : list Action).

(** ** Statements that follow a relation *)

Lemma follows_bind {A B} (R : relation TurnState) `{!Transitive R}
    (m : Conv A) (f : A → Conv B) :
  follows R m → (∀ x, follows R (f x)) → follows R (conv_bind m f).
Proof.
  intros Hm Hf s. unfold conv_bind. specialize (Hm s).
  destruct (m s) as [s' [x|e|]]; cbn in *; [|done..].
  etrans; [exact Hm|apply Hf].
Qed.

Lemma follows_call {A} (R : relation TurnState) a
    (answer : list Action → outcome A) :
  (∀ s, R s (record a s)) → follows R (call a answer).
Proof. intros Hrec s. apply Hrec. Qed.

Lemma follows_logger (R : relation TurnState) line :
  (∀ s, R s (record (Logged line) s)) → follows R (logger line).
Proof. intros Hrec s. apply Hrec. Qed.

Lemma follows_when (R : relation TurnState) `{!Reflexive R} b (m : Conv unit) :
  follows R m → follows R (when b m).
Proof. intros Hm s. destruct b; [apply Hm|done]. Qed.

Lemma follows_try_except {A} (R : relation TurnState) `{!Transitive R}
    (m : Conv A) (handler : exn → Conv A) :
  follows R m → (∀ e, follows R (handler e)) → follows R (try_except m handler).
Proof.
  intros Hm Hh s. unfold try_except. specialize (Hm s).
  destruct (m s) as [s' [x|e|]]; cbn in *; [done| |done].
  etrans; [exact Hm|apply Hh].
Qed.

Section Follows.
Variable R : relation TurnState.
Context `{!PreOrder R}.
Hypothesis R_plain : ∀ s a, plain a → R s (record a s).
Hypothesis R_accumulate : ∀ o, follows R (accumulate env o).

Lemma follows_send m :
  plain (CallSend m) → follows R (send env m).
Proof using Type*. intros Hm. apply follows_call. intros s. by apply R_plain. Qed.

Lemma follows_handle_output_item output_item :
  follows R (handle_output_item env context output_item).
Proof using Type*.
  destruct output_item as [status|o|o|o|]; cbn [handle_output_item].
  - apply follows_bind; [apply _|apply follows_logger|intros _; by apply follows_send].
    intros s. by apply R_plain.
  - apply R_accumulate.
  - apply follows_bind; [apply _|apply follows_logger|intros _; apply R_accumulate].
    intros s. by apply R_plain.
  - apply follows_bind; [apply _|apply follows_logger|intros _; apply R_accumulate].
    intros s. by apply R_plain.
  - apply follows_bind; [apply _|apply follows_logger|intros _; apply follows_logger];
      intros s; by apply R_plain.
Qed.

Lemma follows_consume items ending :
  follows R (consume env context items ending).
Proof using Type*.
  induction items as [|output_item rest IH]; cbn [consume].
  - by intros s.
  - apply follows_bind; [apply _|apply follows_handle_output_item|by intros _].
Qed.

Lemma follows_agent_response batch_input :
  follows R (agent_response env context batch_input).
Proof using Type*.
  apply follows_try_except; [apply _|apply follows_consume|].
  intros e. apply follows_bind; [apply _|apply follows_logger|intros _; by apply follows_send].
  intros s. by apply R_plain.
Qed.

Lemma follows_wait_pending : follows R (wait_pending env).
Proof using Type*.
  intros s. unfold wait_pending.
  apply (follows_when R). apply follows_bind; [apply _| |intros _; by apply follows_send].
  apply follows_call. intros s'. by apply R_plain.
Qed.

Lemma follows_turn_before_record images metadata :
  follows R (turn_before_record env context images metadata).
Proof using Type*.
  unfold turn_before_record.
  repeat first
    [ apply follows_agent_response
    | apply follows_wait_pending
    | apply follows_when; [apply _|]
    | apply follows_logger; intros s; by apply R_plain
    | apply follows_call; intros s; by apply R_plain
    | apply follows_bind; [apply _| |intros ?] ].
Qed.

End Follows.

#[local] Instance added_preorder (P : Action → Prop) : PreOrder (added P).
Proof.
  split.
  - intros s. exists []. by rewrite app_nil_r.
  - intros s1 s2 s3 (t1 & H1 & F1) (t2 & H2 & F2). exists (t1 ++ t2).
    rewrite H2, H1, (assoc_L (++)). split; [done|by apply Forall_app].
Qed.

#[local] Instance keeps_preorder (I : TurnState → Prop) : PreOrder (keeps I).
Proof.
  split.
  - intros s Hs. exact Hs.
  - intros s1 s2 s3 H1 H2 Hs. apply H2, H1, Hs.
Qed.

Lemma added_record (P : Action → Prop) s a : P a → added P s (record a s).
Proof. intros Ha. exists [a]. split; [done|by constructor]. Qed.

Lemma added_accumulate (P : Action → Prop) o :
  (∀ answer, P (CallProcessAgentOutput o answer)) →
  follows (added P) (accumulate env o).
Proof.
  intros Ho s. unfold accumulate.
  exists [CallProcessAgentOutput o (process_agent_output env (trace s) o)].
  split; [|by constructor].
  by destruct (process_agent_output env (trace s) o).
Qed.

Lemma added_turn_before_record (P : Action → Prop) images metadata :
  (∀ a, plain a → P a) → (∀ o answer, P (CallProcessAgentOutput o answer)) →
  follows (added P) (turn_before_record env context images metadata).
Proof.
  intros Hplain Hacc. apply follows_turn_before_record; [apply _| |].
  - intros s a Ha. by apply added_record, Hplain.
  - intros o. by apply added_accumulate.
Qed.

Lemma response_text_snoc tr a :
  response_text (tr ++ [a])
  = response_text tr
    ++ match a with
       | CallProcessAgentOutput _ (Returns response_part) =>
           response_part_str response_part
       | _ => []
       end.
Proof.
  unfold response_text. rewrite omap_app, concat_app. f_equal.
  destruct a as [| | | |o [v| |]| | | | |]; cbn; by rewrite ?app_nil_r.
Qed.

Lemma coherent_record s a :
  (∀ o answer, a ≠ CallProcessAgentOutput o answer) →
  keeps coherent s (record a s).
Proof.
  intros Ha Hs. unfold coherent, record in *. cbn [trace full_response].
  rewrite response_text_snoc, Hs.
  destruct a as [| | | |o answer| | | | |]; try by rewrite app_nil_r.
  by destruct (Ha o answer).
Qed.

Lemma coherent_accumulate o : follows (keeps coherent) (accumulate env o).
Proof.
  intros s Hs. unfold accumulate, coherent in *.
  destruct (process_agent_output env (trace s) o) as [v| |] eqn:Hans;
    unfold record; cbn [fst trace full_response];
    rewrite response_text_snoc, Hs; by rewrite ?app_nil_r.
Qed.

Lemma coherent_turn_before_record images metadata :
  follows (keeps coherent) (turn_before_record env context images metadata).
Proof.
  apply follows_turn_before_record; [apply _| |apply coherent_accumulate].
  intros s a Ha. apply coherent_record. intros o answer ->. done.
Qed.

(** ** The record of the answer, and the handlers *)

Lemma store_response_spec s :
  ∃ tr,
    (store_response env context s).1 = mkTurn (trace s ++ tr) (full_response s)
    ∧ (tr = []
       ∨ (str_truthy (history_uid context) = true ∧ full_response s ≠ []
          ∧ (tr = take 1 (record_actions context (full_response s))
             ∨ tr = record_actions context (full_response s))))
    ∧ ((store_response env context s).2 = Returns tt →
       str_truthy (history_uid context) = true → full_response s ≠ [] →
       tr = record_actions context (full_response s)).
Proof.
  unfold store_response.
  destruct (str_truthy (history_uid context)) eqn:Hh; cbn [andb when].
  - destruct (full_response s) as [|c l] eqn:Hr; cbn [length Nat.eqb negb when].
    + exists []. rewrite app_nil_r. split; [destruct s; cbn in *; by subst|].
      split; [by left|done].
    + unfold conv_bind, call, logger, send, call, record.
      cbn [trace full_response].
      destruct (store_message env (trace s) AI (c :: l)) as [[]|e]; cbn.
      * eexists. split; [by rewrite <-!(assoc_L (++)), Hr|].
        split; [right; split_and!; [done..|by right]|done].
      * eexists. split; [by rewrite Hr|].
        split; [right; split_and!; [done..|by left]|done].
  - exists []. rewrite app_nil_r. split; [by destruct s|].
    split; [by left|done].
Qed.

Lemma turn_handled_spec images metadata s :
  let b := turn_before_record env context images metadata s in
  let body := turn_body env context images metadata s in
  let r := turn_handled env context images metadata s in
  ∃ tr,
    body.1 = mkTurn (trace b.1 ++ tr) (full_response b.1)
    ∧ r.1 = mkTurn (trace body.1 ++ handler_actions body.2) (full_response b.1)
    ∧ (tr = []
       ∨ (b.2 = Returns tt
          ∧ str_truthy (history_uid context) = true ∧ full_response b.1 ≠ []
          ∧ (tr = take 1 (record_actions context (full_response b.1))
             ∨ tr = record_actions context (full_response b.1))))
    ∧ match body.2 with
      | Returns t =>
          r.2 = Returns t ∧ t = full_response b.1
          ∧ (str_truthy (history_uid context) = true → t ≠ [] →
             tr = record_actions context t)
      | Cancelled => r.2 = Cancelled
      | Raises e =>
          r.2 = match websocket_send env
                        (trace body.1 ++ [Logged (TurnChainError e)])
                        (MsgError (conversation_error_message e)) with
                | Returns _ => Raises e
                | Raises e' => Raises e'
                | Cancelled => Cancelled
                end
      end.
Proof.
  intros b body r. subst b body r.
  unfold turn_handled, turn_body, conv_bind.
  destruct (turn_before_record env context images metadata s)
    as [sb [[]|e|]] eqn:Hb; cbn [fst snd].
  - destruct (store_response_spec sb) as (tr & Hst & Hshape & Hfull).
    destruct (store_response env context sb) as [s1 out1]. cbn [fst snd] in *.
    subst s1. exists tr.
    assert (tr = []
            ∨ Returns () = Returns ()
              ∧ str_truthy (history_uid context) = true
              ∧ full_response sb ≠ []
              ∧ (tr = take 1 (record_actions context (full_response sb))
                 ∨ tr = record_actions context (full_response sb))) as Hshape'
      by (destruct Hshape as [->|(?&?&?)]; [by left|right; by split_and!]).
    destruct out1 as [[]|e|];
      unfold logger, send, call, record, conversation_error_message;
      cbn [fst snd handler_actions trace full_response].
    + rewrite app_nil_r. split_and!; try done. by apply Hfull.
    + split; [done|]. split; [|split; [done|]];
        by destruct (websocket_send env _ _) as [[]| |]; cbn;
          rewrite <-?(assoc_L (++)).
    + by split_and!.
  - exists []. rewrite app_nil_r.
    unfold logger, send, call, record, conversation_error_message.
    cbn [fst snd handler_actions trace full_response].
    split; [by destruct sb|]. split; [|split; [by left|]];
      by destruct (websocket_send env _ _) as [[]| |]; cbn;
        rewrite <-?(assoc_L (++)).
  - exists []. rewrite app_nil_r.
    unfold logger, record. cbn [fst snd handler_actions trace full_response].
    split_and!; [by destruct sb|done|by left|done].
Qed.

Lemma process_single_conversation_spec images metadata :
  let h := turn_handled env context images metadata init_turn in
  let r := process_single_conversation env context images metadata in
  r.1 = record CallCleanup h.1
  ∧ r.2 = match cleanup_conversation env (trace h.1) with
          | Ok _ => h.2
          | Raise e => Raises e
          end.
Proof.
  intros h r. subst h r. unfold process_single_conversation.
  destruct (turn_handled env context images metadata init_turn) as [s out].
  cbn [fst snd]. by destruct (cleanup_conversation env (trace s)).
Qed.

(** The anatomy of a turn: what happens up to [finalize_conversation_turn],
    then the record of the answer, then the handlers, then the cleanup. *)
Lemma turn_anatomy images metadata :
  let b := turn_before_record env context images metadata init_turn in
  let body := turn_body env context images metadata init_turn in
  let r := process_single_conversation env context images metadata in
  ∃ tr,
    trace body.1 = trace b.1 ++ tr
    ∧ trace r.1 = trace body.1 ++ handler_actions body.2 ++ [CallCleanup]
    ∧ full_response r.1 = full_response b.1
    ∧ Forall (λ a, ¬ is_record a ∧ a ≠ CallCleanup) (trace b.1)
    ∧ coherent b.1
    ∧ (tr = []
       ∨ (b.2 = Returns tt
          ∧ str_truthy (history_uid context) = true ∧ full_response b.1 ≠ []
          ∧ (tr = take 1 (record_actions context (full_response b.1))
             ∨ tr = record_actions context (full_response b.1))))
    ∧ (∀ t, r.2 = Returns t →
         body.2 = Returns t ∧ t = full_response b.1
         ∧ (str_truthy (history_uid context) = true → t ≠ [] →
            tr = record_actions context t)).
Proof.
  intros b body r.
  destruct (turn_handled_spec images metadata init_turn)
    as (tr & Hbody & Hh & Hshape & Hout).
  destruct (process_single_conversation_spec images metadata) as [Hr1 Hr2].
  fold b body in Hbody, Hh, Hshape, Hout. fold r in Hr1, Hr2.
  exists tr. split_and!.
  - by rewrite Hbody.
  - rewrite Hr1, Hh. cbn. by rewrite <-(assoc_L (++)).
  - by rewrite Hr1, Hh.
  - destruct (added_turn_before_record (λ a, ¬ is_record a ∧ a ≠ CallCleanup)
                images metadata) with (s := init_turn) as (tr0 & Htr0 & Hall).
    + intros a Ha.
      destruct a as [| | |[]| |[]| | | |]; cbn in Ha |- *; try done;
        (split; [by intros ?|done]).
    + intros o answer. split; [by intros ?|done].
    + fold b in Htr0. by rewrite Htr0.
  - by apply (coherent_turn_before_record images metadata init_turn).
  - done.
  - intros t Ht. rewrite Hr2 in Ht.
    destruct (body.2) as [t'|e|] eqn:Hb2.
    + destruct Hout as (Hrt & -> & Hfull). rewrite Hrt in Ht.
      destruct (cleanup_conversation env _); [|done].
      injection Ht as <-. by split_and!.
    + rewrite Hout in Ht. destruct (cleanup_conversation env _); [|done].
      by destruct (websocket_send env _ _).
    + rewrite Hout in Ht. by destruct (cleanup_conversation env _).
Qed.

Lemma response_text_app tr1 tr2 :
  response_text (tr1 ++ tr2) = response_text tr1 ++ response_text tr2.
Proof. unfold response_text. by rewrite omap_app, concat_app. Qed.

Lemma sends_app tr1 tr2 : sends (tr1 ++ tr2) = sends tr1 ++ sends tr2.
Proof. apply omap_app. Qed.

Lemma processed_app tr1 tr2 :
  processed (tr1 ++ tr2) = processed tr1 ++ processed tr2.
Proof. apply omap_app. Qed.

Lemma elem_of_sends m tr : m ∈ sends tr ↔ CallSend m ∈ tr.
Proof.
  unfold sends. rewrite list_elem_of_omap. split.
  - intros (a & Ha & Hm). destruct a; try done. by injection Hm as ->.
  - intros Hin. by exists (CallSend m).
Qed.

Lemma record_actions_shape tr t :
  tr = [] ∨ tr = take 1 (record_actions context t)
  ∨ tr = record_actions context t →
  response_text tr = []
  ∧ sends tr `sublist_of` [MsgFullText t (character_name context) (avatar context)]
  ∧ (CallCleanup ∉ tr)
  ∧ ∀ a, a ∈ tr → is_record a →
         CallStoreMessage AI t (character_name context) ∈ tr
         ∧ (a = CallStoreMessage AI t (character_name context)
            ∨ a = CallSend (MsgFullText t (character_name context)
                              (avatar context))).
Proof.
  intros [->|[->| ->]]; cbn; (split; [done|]).
  - split; [apply sublist_nil_l|]. split; [by intros ?%elem_of_nil|].
    by intros a ?%elem_of_nil.
  - split; [apply sublist_nil_l|]. split.
    + by intros ?%list_elem_of_singleton.
    + intros a ->%list_elem_of_singleton _.
      split; [apply list_elem_of_here|by left].
  - split; [done|]. split.
    + intros Hin. repeat (apply elem_of_cons in Hin as [Hin|Hin]; [done|]).
      by apply elem_of_nil in Hin.
    + intros a Hin Ha. split; [apply list_elem_of_here|].
      repeat (apply elem_of_cons in Hin as [->|Hin]; [by eauto|]).
      by apply elem_of_nil in Hin.
Qed.

Lemma handler_actions_shape {A} (out : outcome A) :
  response_text (handler_actions out) = []
  ∧ Forall (λ a, ¬ is_record a ∧ a ≠ CallCleanup) (handler_actions out)
  ∧ sends (handler_actions out)
    = match out with
      | Raises e => [MsgError (conversation_error_message e)]
      | _ => []
      end.
Proof.
  destruct out as [x|e|]; cbn; split_and!; try done;
    repeat constructor; by intros ?.
Qed.

(** The [finally] clause: whatever the collaborators do, the turn calls
    [cleanup_conversation] exactly once, as the last thing it does; and an
    exception raised by the cleanup is the outcome of the turn. *)
Theorem cleanup_runs_last images metadata :
  let r := process_single_conversation env context images metadata in
  ∃ tr, trace r.1 = tr ++ [CallCleanup]
        ∧ (CallCleanup ∉ tr)
        ∧ ∀ e, cleanup_conversation env tr = Raise e → r.2 = Raises e.
Proof.
  intros r. destruct (turn_anatomy images metadata)
    as (tr1 & Hbody & Htrace & _ & Hb & _ & Hshape & _).
  destruct (process_single_conversation_spec images metadata) as [Hr1 Hr2].
  fold r in Htrace, Hr1, Hr2.
  exists (trace (turn_handled env context images metadata init_turn).1).
  split; [by rewrite Hr1|]. split; [|by intros e He; rewrite Hr2, He].
  rewrite Hr1 in Htrace. cbn in Htrace. rewrite (assoc_L (++)) in Htrace.
  apply app_inj_tail in Htrace as [-> _]. rewrite Hbody.
  rewrite !elem_of_app. intros [[Hin|Hin]|Hin].
  - rewrite Forall_forall in Hb. by destruct (Hb _ Hin).
  - eapply record_actions_shape; [|exact Hin].
    destruct Hshape as [->|(_ & _ & _ & [->| ->])]; eauto.
  - destruct (handler_actions_shape
                (turn_body env context images metadata init_turn).2)
      as (_ & Hall & _).
    rewrite Forall_forall in Hall. by destruct (Hall _ Hin).
Qed.

Lemma response_text_turn images metadata :
  response_text
    (trace (process_single_conversation env context images metadata).1)
  = full_response (turn_before_record env context images metadata init_turn).1.
Proof.
  destruct (turn_anatomy images metadata)
    as (tr1 & Hbody & Htrace & Hfull & _ & Hco & Hshape & Hret).
  rewrite Htrace, Hbody, !response_text_app, <-Hco.
  destruct (handler_actions_shape
              (turn_body env context images metadata init_turn).2)
    as (-> & _).
  destruct (record_actions_shape tr1
              (full_response
                 (turn_before_record env context images metadata init_turn).1))
    as (-> & _).
  { destruct Hshape as [->|(_ & _ & _ & [->| ->])]; eauto. }
  by rewrite !app_nil_r.
Qed.

(** What the turn returns: [full_response] is at every end of the turn the
    concatenation, in the order of the calls, of the parts
    [process_agent_output] returned, [None] counting as the empty string;
    this is the text a turn returns, also when the stream of the agent
    broke off and the answer is partial. *)
Theorem response_is_concatenation images metadata :
  let r := process_single_conversation env context images metadata in
  full_response r.1 = response_text (trace r.1)
  ∧ ∀ t, r.2 = Returns t → t = response_text (trace r.1).
Proof.
  intros r. destruct (turn_anatomy images metadata)
    as (tr1 & _ & _ & Hfull & _ & _ & _ & Hret).
  fold r in Hfull, Hret. unfold r at 2 4. rewrite response_text_turn.
  split; [done|].
  intros t Ht. by destruct (Hret t Ht) as (_ & -> & _).
Qed.

(** The record of the answer.  A turn stores an answer in the history, and
    sends a full text, only for the text it has accumulated, only when there
    is a history and the text is not empty, and the full text only after the
    answer is stored; and a turn that returns a non-empty text with a history
    has stored it and sent it as full text. *)
Theorem answer_recorded images metadata :
  let r := process_single_conversation env context images metadata in
  (∀ content name,
     CallStoreMessage AI content name ∈ trace r.1 →
     content = response_text (trace r.1) ∧ content ≠ []
     ∧ str_truthy (history_uid context) = true
     ∧ name = character_name context)
  ∧ (∀ t name avatar_,
       MsgFullText t name avatar_ ∈ sends (trace r.1) →
       t = response_text (trace r.1)
       ∧ CallStoreMessage AI t name ∈ trace r.1)
  ∧ (∀ t, r.2 = Returns t →
       str_truthy (history_uid context) = true → t ≠ [] →
       CallStoreMessage AI t (character_name context) ∈ trace r.1
       ∧ MsgFullText t (character_name context) (avatar context)
         ∈ sends (trace r.1)).
Proof.
  intros r. destruct (turn_anatomy images metadata)
    as (tr1 & Hbody & Htrace & _ & Hb & _ & Hshape & Hret).
  fold r in Htrace, Hret. unfold r at 2 4. rewrite response_text_turn.
  set (b := turn_before_record env context images metadata init_turn) in *.
  set (body := turn_body env context images metadata init_turn) in *.
  destruct (handler_actions_shape body.2) as (_ & Hh & _).
  rewrite Forall_forall in Hb, Hh.
  assert (tr1 = [] ∨ tr1 = take 1 (record_actions context (full_response b.1))
          ∨ tr1 = record_actions context (full_response b.1)) as Hshape'
    by (destruct Hshape as [->|(_ & _ & _ & [->| ->])]; eauto).
  destruct (record_actions_shape tr1 _ Hshape') as (_ & _ & _ & Hrec).
  assert (∀ a, a ∈ trace r.1 → is_record a →
               a ∈ tr1 ∧ str_truthy (history_uid context) = true
               ∧ full_response b.1 ≠ []) as Hin1.
  { intros a Hin Ha. rewrite Htrace, Hbody in Hin.
    rewrite !elem_of_app in Hin. destruct Hin as [[Hin|Hin]|[Hin|Hin]].
    - by destruct (Hb _ Hin).
    - destruct Hshape as [->|(_ & ? & ? & _)]; [by apply elem_of_nil in Hin|done].
    - by destruct (Hh _ Hin).
    - by apply list_elem_of_singleton in Hin as ->. }
  assert (∀ a, a ∈ tr1 → a ∈ trace r.1) as Hsub.
  { intros a Hin. rewrite Htrace, Hbody, !elem_of_app. eauto. }
  split_and!.
  - intros content name Hin.
    destruct (Hin1 _ Hin I) as (Hin' & Hh' & Hne).
    destruct (Hrec _ Hin' I) as [_ [[= -> ->]|[=]]]. done.
  - intros t name avatar_ Hin%elem_of_sends.
    destruct (Hin1 _ Hin I) as (Hin' & Hh' & Hne).
    destruct (Hrec _ Hin' I) as [Hst [[=]|[= -> -> ->]]]. split; [done|].
    by apply Hsub.
  - intros t Ht Hhist Hne. destruct (Hret t Ht) as (_ & -> & Htr).
    rewrite elem_of_sends. rewrite (Htr Hhist Hne) in Hsub.
    split; apply Hsub; cbn.
    + apply list_elem_of_here.
    + do 2 apply list_elem_of_further. apply list_elem_of_here.
Qed.

(** How a turn ends.  After its body a turn sends one more message exactly
    when the body raised an exception: the report "Conversation error: ..."
    of that exception; a cancelled turn is not reported.  And a turn returns
    only the text its body returned: neither handler turns a failure into a
    return. *)
Theorem failure_is_reported images metadata :
  let body := turn_body env context images metadata init_turn in
  let r := process_single_conversation env context images metadata in
  sends (trace r.1)
  = sends (trace body.1)
    ++ match body.2 with
       | Raises e => [MsgError (conversation_error_message e)]
       | _ => []
       end
  ∧ (∀ t, r.2 = Returns t → body.2 = Returns t)
  ∧ (body.2 = Cancelled →
     r.2 = Cancelled
     ∨ ∃ e, cleanup_conversation env (trace body.1 ++ [Logged TurnCancelled])
            = Raise e
            ∧ r.2 = Raises e).
Proof.
  intros body r. destruct (turn_anatomy images metadata)
    as (tr1 & Hbody & Htrace & _ & _ & _ & _ & Hret).
  fold body r in Htrace, Hret.
  destruct (handler_actions_shape body.2) as (_ & _ & Hsends).
  split_and!.
  - rewrite Htrace, !sends_app, Hsends. cbn. by rewrite app_nil_r.
  - intros t Ht. by destruct (Hret t Ht).
  - intros Hc.
    destruct (process_single_conversation_spec images metadata) as [_ Hr2].
    destruct (turn_handled_spec images metadata init_turn)
      as (tr & _ & Hh & _ & Hout).
    fold body in Hh, Hout. fold r in Hr2. rewrite Hc in Hout, Hh.
    rewrite Hr2, Hh, Hout. cbn.
    destruct (cleanup_conversation env
                (trace body.1 ++ [Logged TurnCancelled])) as [u|e];
      [by left|right; by exists e].
Qed.

(** ** The stream of the agent *)

Lemma handle_output_item_processed output_item s :
  processed (trace (handle_output_item env context output_item s).1)
  = processed (trace s) ++ processable [output_item].
Proof.
  destruct output_item as [status|o|o|o|];
    unfold handle_output_item, conv_bind, logger, send, call, accumulate, record;
    cbn [fst snd trace full_response];
    try (destruct (process_agent_output env _ o) as [v|e|]);
    cbn [fst snd trace full_response];
    rewrite ?processed_app; cbn; by rewrite ?app_nil_r.
Qed.

Lemma processable_cons output_item items :
  processable (output_item :: items)
  = processable [output_item] ++ processable items.
Proof. apply (omap_app _ [output_item] items). Qed.

Lemma consume_processed items ending s :
  ∃ outputs,
    processed (trace (consume env context items ending s).1)
    = processed (trace s) ++ outputs
    ∧ outputs `prefix_of` processable items.
Proof.
  revert s. induction items as [|output_item rest IH]; intros s.
  - exists []. cbn. by rewrite app_nil_r.
  - cbn [consume]. unfold conv_bind.
    pose proof (handle_output_item_processed output_item s) as Hitem.
    destruct (handle_output_item env context output_item s) as [s1 [[]|e|]];
      cbn [fst snd] in *.
    + destruct (IH s1) as (outputs & Hout & Hpre).
      exists (processable [output_item] ++ outputs).
      rewrite Hout, Hitem, (assoc_L (++)), (processable_cons output_item rest).
      split; [done|]. by apply prefix_app.
    + exists (processable [output_item]). split; [done|].
      rewrite (processable_cons output_item rest). by apply prefix_app_r.
    + exists (processable [output_item]). split; [done|].
      rewrite (processable_cons output_item rest). by apply prefix_app_r.
Qed.

Lemma consume_through items ending s :
  (∀ h o, ∃ response_part, process_agent_output env h o = Returns response_part) →
  (∀ h m, websocket_send env h m = Returns tt) →
  (consume env context items ending s).2 = ending
  ∧ processed (trace (consume env context items ending s).1)
    = processed (trace s) ++ processable items.
Proof.
  intros Hproc Hsend. revert s.
  induction items as [|output_item rest IH]; intros s.
  - cbn. by rewrite app_nil_r.
  - cbn [consume]. unfold conv_bind.
    pose proof (handle_output_item_processed output_item s) as Hitem.
    assert ((handle_output_item env context output_item s).2 = Returns tt)
      as Hret.
    { destruct output_item as [status|o|o|o|];
        unfold handle_output_item, conv_bind, logger, send, call, accumulate,
          record; cbn [fst snd trace full_response]; rewrite ?Hsend; try done;
        by destruct (Hproc (trace s) o) as [v ->] ||
           by destruct (Hproc (trace s ++ [Logged TurnSentenceFallback]) o)
             as [v ->] ||
           by destruct (Hproc (trace s ++ [Logged TurnAudioFallback]) o)
             as [v ->]. }
    destruct (handle_output_item env context output_item s) as [s1 out].
    cbn [fst snd] in *. subst out.
    destruct (IH s1) as [Hend Hall].
    by rewrite Hend, Hall, Hitem, (processable_cons output_item rest),
         (assoc_L (++)).
Qed.

(** The outputs handed to [process_agent_output] are the outputs of the
    stream in the order of the stream, each once and none left out, up to the
    point where the stream, the processing or the channel fails; and when
    neither the processing nor the channel fails, they are all the outputs
    of the stream, and the phase returns unless it is cancelled. *)
Theorem stream_processed_in_order batch_input s :
  let stream := agent_chat env batch_input in
  let r := agent_response env context batch_input s in
  ∃ outputs,
    processed (trace r.1) = processed (trace s) ++ outputs
    ∧ outputs `prefix_of` processable (yielded stream)
    ∧ ((∀ h o, ∃ response_part,
          process_agent_output env h o = Returns response_part) →
       (∀ h m, websocket_send env h m = Returns tt) →
       outputs = processable (yielded stream)
       ∧ r.2 = match ending stream with
               | Cancelled => Cancelled
               | _ => Returns tt
               end).
Proof.
  intros stream r. subst r. unfold agent_response, try_except. fold stream.
  destruct (consume_processed (yielded stream) (ending stream) s)
    as (outputs & Hout & Hpre).
  exists outputs.
  assert (processed
            (trace
               match consume env context (yielded stream) (ending stream) s with
               | (s', Raises e) =>
                   conv_bind (logger (TurnStreamError e))
                     (λ _, send env (MsgError (stream_error_message e))) s'
               | other => other
               end.1)
          = processed (trace s) ++ outputs) as Hsame.
  { destruct (consume env context (yielded stream) (ending stream) s)
      as [s1 [[]|e|]]; cbn [fst snd] in *; try done.
    unfold conv_bind, logger, send, call, record. cbn [fst snd trace].
    rewrite !processed_app, Hout. cbn. by rewrite !app_nil_r. }
  split; [done|]. split; [done|].
  intros Hproc Hsend.
  destruct (consume_through (yielded stream) (ending stream) s Hproc Hsend)
    as [Hend Hall].
  rewrite Hall in Hout. apply app_inv_head in Hout as <-. split; [done|].
  destruct (consume env context (yielded stream) (ending stream) s)
    as [s1 out]; cbn [fst snd] in *. subst out.
  destruct (ending stream) as [[]|e|]; try done.
  unfold conv_bind, logger, send, call, record. cbn [fst snd trace].
  by rewrite Hsend.
Qed.

(** A failure of the agent or of the processing of its output does not end
    the turn: the phase raises only when the report of the failure, the
    message "Error processing agent response: ...", could not be sent. *)
Theorem stream_failure_contained batch_input s e :
  (agent_response env context batch_input s).2 = Raises e →
  ∃ e0 tr,
    trace (agent_response env context batch_input s).1
    = tr ++ [Logged (TurnStreamError e0);
             CallSend (MsgError (stream_error_message e0))]
    ∧ websocket_send env (tr ++ [Logged (TurnStreamError e0)])
        (MsgError (stream_error_message e0)) = Raises e.
Proof.
  unfold agent_response, try_except.
  destruct (consume env context _ _ s) as [s1 [[]|e0|]]; cbn [fst snd];
    [done| |done].
  unfold conv_bind, logger, send, call, record. cbn [fst snd trace].
  destruct (websocket_send env (trace s1 ++ [Logged (TurnStreamError e0)])
              (MsgError (stream_error_message e0))) as [[]|e'|] eqn:Hsend;
    cbn [fst snd trace]; [done| |done].
  intros [= ->]. exists e0, (trace s1). by rewrite <-(assoc_L (++)).
Qed.

End TurnProperties.

(** * Properties of the Edge TTS engine *)

Section EdgeProperties.
Context `{Ext : Externals} `{EE : EdgeExternals}.

Lemma TTSEngine_remove_file_Ok st file_path :
  (TTSEngine_remove_file st file_path).2 = Ok tt.
Proof.
  unfold TTSEngine_remove_file. destruct (negb (path_truthy file_path)); [done|].
  destruct (os_remove (fs st) _) as [fs'|e]; [done|].
  by destruct (is_file_not_found e).
Qed.

(** Removing twice is safe.  [remove_file] never raises; and on a file
    system where a file that was removed is not found again, a second
    [remove_file] of the same path leaves the file system as the first left
    it, and does nothing at all unless the first removal failed for another
    reason than a missing file. *)
Theorem edge_remove_file_twice st file_path :
  (∀ files files' path,
     os_remove files path = Ok files' →
     ∃ e, os_remove files' path = Raise e ∧ is_file_not_found e = true) →
  let first := TTSEngine_remove_file st file_path in
  let second := TTSEngine_remove_file first.1 file_path in
  first.2 = Ok tt ∧ second.2 = Ok tt
  ∧ fs second.1 = fs first.1
  ∧ ((∀ e, os_remove (fs st) (default "" file_path) = Raise e →
           is_file_not_found e = true) →
     second.1 = first.1).
Proof.
  intros Hgone first second. subst first second.
  split; [apply TTSEngine_remove_file_Ok|].
  split; [apply TTSEngine_remove_file_Ok|].
  unfold TTSEngine_remove_file.
  destruct (negb (path_truthy file_path)) eqn:Hpath; cbn [fst snd];
    rewrite ?Hpath; [done|].
  destruct (os_remove (fs st) (default "" file_path)) as [fs'|e] eqn:Hrm;
    cbn [fst snd fs edge_log].
  - destruct (Hgone _ _ _ Hrm) as (e & -> & ->). done.
  - destruct (is_file_not_found e) eqn:Hnf; cbn [fst snd fs edge_log];
      rewrite ?Hrm, ?Hnf; [done|].
    split; [done|]. intros Hno. specialize (Hno e eq_refl). congruence.
Qed.

End EdgeProperties.

(** * Properties of the agent factory *)

Section FactoryProperties.
Context `{FT : FactoryTypes}.
Variable env : FactoryExternals.
Implicit Types (llm_configs : gmap string Settings) (llm_config : Settings).

Lemma add_optional_args_lookup (custom_settings : Settings)
    (base_args : gmap string ArgValue) (key : string) :
  add_optional_args custom_settings base_args !! key
  = if decide (key ∈ optional_arg_names)
    then match custom_settings !! key with
         | Some v => Some (ArgSetting v)
         | None => base_args !! key
         end
    else base_args !! key.
Proof.
  unfold add_optional_args.
  assert (NoDup optional_arg_names) as Hnd by (by compute_done).
  revert base_args. induction optional_arg_names as [|name names IH];
    intros base_args; [done|].
  apply NoDup_cons in Hnd as [Hname Hnd]. cbn [foldl]. rewrite (IH Hnd).
  destruct (decide (key = name)) as [->|Hne].
  - rewrite decide_False by done. rewrite decide_True by apply list_elem_of_here.
    destruct (custom_settings !! name); [by rewrite lookup_insert_eq|done].
  - destruct (decide (key ∈ names)) as [Hin|Hin].
    + rewrite decide_True by (by apply list_elem_of_further).
      destruct (custom_settings !! key); [done|].
      destruct (custom_settings !! name); [by rewrite lookup_insert_ne|done].
    + rewrite decide_False by (by intros [?|?]%elem_of_cons).
      destruct (custom_settings !! name); [by rewrite lookup_insert_ne|done].
Qed.

Lemma pop_twice llm_configs provider llm_config :
  llm_configs !! provider = Some llm_config →
  let popped := <[provider := delete "interrupt_method" llm_config]> llm_configs in
  popped !! provider = Some (delete "interrupt_method" llm_config)
  ∧ get_setting (delete "interrupt_method" llm_config) "interrupt_method"
      (CfgStr "user") = CfgStr "user"
  ∧ <[provider := delete "interrupt_method" (delete "interrupt_method" llm_config)]>
      popped = popped.
Proof.
  intros Hc popped. subst popped. split_and!.
  - by rewrite lookup_insert_eq.
  - unfold get_setting. by rewrite lookup_delete_eq.
  - by rewrite delete_delete_eq, insert_insert_eq.
Qed.

Lemma pop_changes llm_configs provider llm_config :
  llm_configs !! provider = Some llm_config →
  ∀ p, <[provider := delete "interrupt_method" llm_config]> llm_configs !! p
       = llm_configs !! p
       ∨ <[provider := delete "interrupt_method" llm_config]> llm_configs !! p
         = delete "interrupt_method" <$> llm_configs !! p.
Proof.
  intros Hc p. destruct (decide (p = provider)) as [->|Hne].
  - right. by rewrite lookup_insert_eq, Hc.
  - left. by rewrite lookup_insert_ne.
Qed.

(** The [pop] works on the caller's dict.  A call changes [llm_configs] at
    most by removing "interrupt_method" from the configuration of one
    provider; a second call with the same dicts changes nothing more; and
    when both calls return an agent that takes an [interrupt_method], the
    second agent gets the default "user", whatever was configured. *)
Theorem interrupt_method_consumed choice agent_settings llm_configs prompt :
  let first := create_agent env choice agent_settings llm_configs prompt in
  let second := create_agent env choice agent_settings first.1.1 prompt in
  (∀ provider,
     first.1.1 !! provider = llm_configs !! provider
     ∨ first.1.1 !! provider
       = delete "interrupt_method" <$> llm_configs !! provider)
  ∧ second.1.1 = first.1.1
  ∧ (∀ agent agent' v,
       first.2 = Ok agent → interrupt_method_of agent = Some v →
       second.2 = Ok agent' →
       interrupt_method_of agent' = Some (CfgStr "user")).
Proof.
  intros first second. subst first second. unfold create_agent.
  destruct (String.eqb choice "basic_memory_agent").
  { destruct (negb (cfg_truthy _)); [cbn; split_and!; [by left|done..]|].
    destruct (cfg_key _) as [provider|]; [|cbn; split_and!; [by left|done..]].
    destruct (llm_configs !! provider) as [llm_config|] eqn:Hc;
      [|cbn; rewrite Hc; split_and!; [by left|done..]].
    destruct (pop_twice _ _ _ Hc) as (Hl & Hget & Hins).
    pose proof (pop_changes _ _ _ Hc) as Hmut.
    destruct (create_llm env provider prompt _) as [llm|e] eqn:Hllm.
    - destruct (construct env _) as [[]|e] eqn:Hcon; clear Hcon; cbn [fst snd];
        rewrite Hl; cbn beta iota zeta;
        rewrite ?delete_delete_eq, ?insert_insert_eq, ?Hget, ?Hllm;
        cbn beta iota zeta delta [fst snd];
        (split; [exact Hmut|]);
        destruct (construct env _) as [[]|e']; cbn [fst snd];
        (split; [reflexivity|]); try done.
      by intros agent agent' v _ _ [= <-].
    - cbn [fst snd]. rewrite Hl. cbn beta iota zeta.
      rewrite ?delete_delete_eq, ?insert_insert_eq, ?Hllm. cbn [fst snd].
      by split_and!. }
  destruct (String.eqb choice "mem0_agent"); [cbn; split_and!; [by left|done..]|].
  destruct (String.eqb choice "hume_ai_agent").
  { destruct (construct env _) as [[]|e] eqn:Hcon; cbn [fst snd];
      rewrite ?Hcon; cbn [fst snd];
      (split_and!; [by left|done|]); by intros agent agent' v [= <-]. }
  destruct (String.eqb choice "letta_agent").
  { destruct (construct env _) as [[]|e] eqn:Hcon; cbn [fst snd];
      rewrite ?Hcon; cbn [fst snd];
      (split_and!; [by left|done|]); by intros agent agent' v [= <-]. }
  destruct (match rsplit_dot choice with
            | Some (module_path, class_name) => load_class env module_path class_name
            | None => _
            end) as [agent_class|e].
  2:{ destruct (is_load_failure e); cbn; split_and!; by try left. }
  destruct (negb (cfg_truthy _)); [cbn; split_and!; [by left|done..]|].
  destruct (cfg_key _) as [provider|]; [|cbn; split_and!; [by left|done..]].
  destruct (llm_configs !! provider) as [llm_config|] eqn:Hc;
    [|cbn; rewrite Hc; split_and!; [by left|done..]].
  destruct (pop_twice _ _ _ Hc) as (Hl & Hget & Hins).
  pose proof (pop_changes _ _ _ Hc) as Hmut.
  destruct (create_llm env provider prompt _) as [llm|e] eqn:Hllm.
  - destruct (construct env _) as [[]|e] eqn:Hcon; clear Hcon; cbn [fst snd];
      rewrite Hl; cbn beta iota zeta;
      rewrite ?delete_delete_eq, ?insert_insert_eq, ?Hget, ?Hllm;
      cbn beta iota zeta delta [fst snd];
      (split; [exact Hmut|]);
      destruct (construct env _) as [[]|e']; cbn [fst snd];
      (split; [reflexivity|]); try done.
    intros agent agent' v _ _ [= <-]. cbn [interrupt_method_of].
    rewrite add_optional_args_lookup. cbn. done.
  - cbn [fst snd]. rewrite Hl. cbn beta iota zeta.
    rewrite ?delete_delete_eq, ?insert_insert_eq, ?Hllm. cbn [fst snd].
    by split_and!.
Qed.

(** ** The arguments of a custom agent *)

Lemma base_args_of_is_Some llm prompt interrupt_method key :
  is_Some (base_args_of llm prompt interrupt_method !! key)
  ↔ key ∈ base_arg_names.
Proof.
  unfold base_args_of, base_arg_names.
  rewrite !lookup_insert_is_Some', lookup_empty, !elem_of_cons, elem_of_nil.
  rewrite is_Some_alt. intuition congruence.
Qed.

Lemma optional_not_base key :
  key ∈ optional_arg_names → key ∉ base_arg_names.
Proof.
  unfold optional_arg_names, base_arg_names.
  rewrite !elem_of_cons, !elem_of_nil. intuition (subst; discriminate).
Qed.

Lemma base_args_is_Some (custom_settings : Settings) llm prompt
    interrupt_method key :
  is_Some (add_optional_args custom_settings
             (base_args_of llm prompt interrupt_method) !! key)
  ↔ key ∈ base_arg_names
    ∨ (key ∈ optional_arg_names ∧ is_Some (custom_settings !! key)).
Proof.
  rewrite add_optional_args_lookup.
  destruct (decide (key ∈ optional_arg_names)) as [Hopt|Hopt].
  - pose proof (optional_not_base key Hopt) as Hbase.
    destruct (custom_settings !! key) as [v|] eqn:Hv.
    + split; [intros _; right; eauto|eauto].
    + rewrite base_args_of_is_Some. split; [tauto|].
      intros [?|[_ [? ?]]]; done.
  - rewrite base_args_of_is_Some. tauto.
Qed.

Lemma create_agent_custom choice agent_settings llm_configs prompt
    agent_class base_args extra_kwargs :
  (create_agent env choice agent_settings llm_configs prompt).2
  = Ok (CustomAgent agent_class base_args extra_kwargs) →
  ∃ llm interrupt_method,
    base_args
    = add_optional_args (default ∅ (agent_settings !! choice))
        (base_args_of llm prompt interrupt_method)
    ∧ extra_kwargs
      = extra_kwargs_of (default ∅ (agent_settings !! choice)) base_args.
Proof.
  unfold create_agent.
  destruct (String.eqb choice "basic_memory_agent").
  { destruct (negb (cfg_truthy _)); [done|].
    destruct (cfg_key _) as [provider|]; [|done].
    destruct (llm_configs !! provider) as [llm_config|]; [|done].
    destruct (create_llm env provider prompt _) as [llm|e]; [|done].
    by destruct (construct env _). }
  destruct (String.eqb choice "mem0_agent"); [done|].
  destruct (String.eqb choice "hume_ai_agent"); [by destruct (construct env _)|].
  destruct (String.eqb choice "letta_agent"); [by destruct (construct env _)|].
  destruct (match rsplit_dot choice with
            | Some (module_path, class_name) => load_class env module_path class_name
            | None => _
            end) as [cls|e]; [|by destruct (is_load_failure e)].
  destruct (negb (cfg_truthy _)); [done|].
  destruct (cfg_key _) as [provider|]; [|done].
  destruct (llm_configs !! provider) as [llm_config|]; [|done].
  destruct (create_llm env provider prompt _) as [llm|e]; [|done].
  destruct (construct env _); [|done]. cbn [snd].
  intros [= <- <- <-]. eauto.
Qed.

(** What a custom agent is constructed with.  The two groups of keyword
    arguments never overlap, so the call cannot fail on a keyword given
    twice; "llm_provider" is not passed on; a custom setting named like one
    of the arguments the factory supplies itself is dropped without notice,
    the factory's value being the one passed; and every other custom setting
    reaches the constructor exactly once, with its value. *)
Theorem custom_agent_arguments choice agent_settings llm_configs prompt
    agent_class base_args extra_kwargs :
  (create_agent env choice agent_settings llm_configs prompt).2
  = Ok (CustomAgent agent_class base_args extra_kwargs) →
  let custom_settings := default ∅ (agent_settings !! choice) in
  (∀ key, is_Some (base_args !! key) → extra_kwargs !! key = None)
  ∧ extra_kwargs !! "llm_provider" = None
  ∧ (∀ key, key ∈ base_arg_names →
       extra_kwargs !! key = None
       ∧ ∃ llm interrupt_method,
           base_args !! key
           = base_args_of llm prompt interrupt_method !! key
           ∧ is_Some (base_args !! key))
  ∧ (∀ key v,
       custom_settings !! key = Some v →
       key ∉ base_arg_names → key ≠ "llm_provider" →
       if decide (key ∈ optional_arg_names)
       then base_args !! key = Some (ArgSetting v) ∧ extra_kwargs !! key = None
       else extra_kwargs !! key = Some v ∧ base_args !! key = None)
  ∧ (∀ key v, extra_kwargs !! key = Some v → custom_settings !! key = Some v).
Proof.
  intros (llm & im & Hbase & Hextra)%create_agent_custom custom_settings.
  fold custom_settings in Hbase, Hextra.
  assert (∀ key, is_Some (base_args !! key) → extra_kwargs !! key = None)
    as Hdisjoint.
  { intros key Hkey. rewrite Hextra. unfold extra_kwargs_of.
    apply map_lookup_filter_None. right. intros v _ Hnot. cbn in Hnot.
    apply Hnot, elem_of_union. left. by apply elem_of_dom. }
  split_and!.
  - done.
  - rewrite Hextra. unfold extra_kwargs_of.
    apply map_lookup_filter_None. right. intros v _ Hnot. cbn in Hnot.
    apply Hnot, elem_of_union. right. by apply elem_of_singleton.
  - intros key Hkey.
    assert (is_Some (base_args !! key)) as Hsome
      by (rewrite Hbase; apply base_args_is_Some; by left).
    split; [by apply Hdisjoint|]. exists llm, im. split; [|done].
    rewrite Hbase, add_optional_args_lookup.
    destruct (decide (key ∈ optional_arg_names)) as [Hopt|]; [|done].
    by destruct (optional_not_base key Hopt).
  - intros key v Hv Hnb Hnp.
    destruct (decide (key ∈ optional_arg_names)) as [Hopt|Hopt].
    + assert (base_args !! key = Some (ArgSetting v)) as Hb.
      { rewrite Hbase, add_optional_args_lookup, decide_True by done.
        by rewrite Hv. }
      split; [done|]. apply Hdisjoint. by rewrite Hb.
    + assert (base_args !! key = None) as Hb.
      { apply eq_None_not_Some. rewrite Hbase, base_args_is_Some.
        intros [?|[? _]]; done. }
      split; [|done]. rewrite Hextra. unfold extra_kwargs_of.
      apply map_lookup_filter_Some. split; [done|]. cbn.
      rewrite elem_of_union, elem_of_dom, Hb, elem_of_singleton.
      intros [[? ?]|?]; done.
  - intros key v. rewrite Hextra. unfold extra_kwargs_of.
    by intros [? _]%map_lookup_filter_Some.
Qed.

End FactoryProperties.

(** * Properties of the Ollama client *)

Section OllamaProperties.
Implicit Types (msg : ChatMessage) (messages : list ChatMessage).

Lemma py_join_Ok sep (items : list PyObj) :
  Forall (λ v, isinstance_str v = true) items → ∃ t, py_join sep items = Ok t.
Proof.
  induction 1 as [|v items Hv Hitems [t IH]]; [by exists []|].
  destruct v as [t0| | | |]; try done. cbn [py_join].
  destruct items as [|v' items']; [by eexists|]. rewrite IH. by eexists.
Qed.

Lemma py_join_Raise sep (items : list PyObj) e :
  py_join sep items = Raise e →
  (∃ m, e = TypeError m) ∧ ¬ Forall (λ v, isinstance_str v = true) items.
Proof.
  induction items as [|v items IH]; [done|].
  destruct v as [t0| | | |]; cbn [py_join];
    try (intros [= <-]; split; [by eexists|by intros ?%Forall_inv]).
  destruct items as [|v' items']; [done|].
  destruct (py_join sep (v' :: items')) as [joined|e'] eqn:Hj; [done|].
  intros [= <-]. destruct (IH eq_refl) as [Hty Hnot]. split; [done|].
  intros Hall. apply Hnot. by apply Forall_inv_tail in Hall.
Qed.

Lemma part_texts_well_typed (parts : list ContentPart) :
  Forall well_typed_part parts ↔
  Forall (λ v, isinstance_str v = true) (part_texts parts).
Proof.
  induction parts as [|part parts IH]; [done|].
  rewrite Forall_cons, IH. destruct part as [[v|]|].
  - change (part_texts (TextPart (Some v) :: parts))
      with (v :: part_texts parts).
    rewrite Forall_cons. destruct v; cbn; intuition congruence.
  - change (part_texts (TextPart None :: parts))
      with (PyStr [] :: part_texts parts).
    rewrite Forall_cons. cbn. tauto.
  - change (part_texts (OtherPart :: parts)) with (part_texts parts).
    cbn. tauto.
Qed.

Lemma flatten_message_flat msg : is_flat msg → flatten_message msg = Ok msg.
Proof. unfold is_flat, flatten_message. by destruct (msg_content msg). Qed.

Lemma flatten_message_Ok msg :
  well_typed msg →
  ∃ msg', flatten_message msg = Ok msg' ∧ is_flat msg'
          ∧ msg_role msg' = msg_role msg.
Proof.
  unfold well_typed, flatten_message.
  destruct (msg_content msg) as [parts|v] eqn:Hc.
  - intros Hparts%part_texts_well_typed.
    destruct (py_join_Ok (text_of_string " ") _ Hparts) as [t ->].
    by eexists.
  - intros _. exists msg. unfold is_flat. by rewrite Hc.
Qed.

Lemma flatten_message_Raise msg e :
  flatten_message msg = Raise e → (∃ m, e = TypeError m) ∧ ¬ well_typed msg.
Proof.
  unfold well_typed, flatten_message.
  destruct (msg_content msg) as [parts|v]; [|done].
  destruct (py_join _ _) as [t|e'] eqn:Hj; [done|]. intros [= <-].
  destruct (py_join_Raise _ _ _ Hj) as [Hty Hnot]. split; [done|].
  by rewrite part_texts_well_typed.
Qed.

Lemma flatten_messages_flat messages :
  Forall is_flat messages → flatten_messages messages = (messages, Ok messages).
Proof.
  induction 1 as [|msg messages Hmsg Hall IH]; [done|].
  cbn [flatten_messages]. by rewrite flatten_message_flat, IH.
Qed.

Lemma flatten_messages_Ok messages :
  Forall well_typed messages →
  ∃ messages',
    flatten_messages messages = (messages', Ok messages')
    ∧ Forall is_flat messages'
    ∧ map msg_role messages' = map msg_role messages
    ∧ ∀ (i : nat) msg, messages !! i = Some msg → is_flat msg →
                       messages' !! i = Some msg.
Proof.
  induction 1 as [|msg messages Hmsg Hall (messages' & IH & Hflat & Hroles & Hsame)].
  - exists []. by split_and!.
  - destruct (flatten_message_Ok msg Hmsg) as (msg' & Hm & Hf & Hr).
    exists (msg' :: messages'). cbn [flatten_messages]. rewrite Hm, IH.
    split_and!; [done|by constructor|by cbn; rewrite Hr, Hroles|].
    intros [|i] m; cbn.
    + intros [= <-] Hfm. rewrite flatten_message_flat in Hm by done.
      by injection Hm as ->.
    + apply Hsame.
Qed.

Lemma flatten_messages_Raise messages messages' e :
  flatten_messages messages = (messages', Raise e) →
  (∃ m, e = TypeError m) ∧ ¬ Forall well_typed messages.
Proof.
  revert messages'. induction messages as [|msg messages IH]; intros messages';
    [done|].
  cbn [flatten_messages].
  destruct (flatten_message msg) as [msg'|e'] eqn:Hm.
  - destruct (flatten_messages messages) as [rest' [processed|e'']] eqn:Hrest;
      [done|].
    intros [= _ <-]. destruct (IH _ eq_refl) as [Hty Hnot]. split; [done|].
    intros Hall. apply Hnot. by apply Forall_inv_tail in Hall.
  - intros [= _ <-]. destruct (flatten_message_Raise _ _ Hm) as [Hty Hnot].
    split; [done|]. intros Hall. apply Hnot. by apply Forall_inv in Hall.
Qed.

(** The caller's messages are rewritten.  When every text of every text
    part is a [str] (or absent), the call leaves each message of the caller
    with a content that is no list any more, in the same order and with the
    same roles, the messages that had no list untouched; the request carries
    these very messages, after the system message if there is a non-empty
    system prompt, and asks for no streaming; and a second call with the
    same messages rewrites nothing. *)
Theorem chat_completion_rewrites_messages (self : OllamaNativeLLM)
    (requests_post : OllamaRequest → outcome HttpResponse) messages
    (system : option text) :
  Forall well_typed messages →
  let r := chat_completion self requests_post messages system in
  Forall is_flat (messages_after r)
  ∧ map msg_role (messages_after r) = map msg_role messages
  ∧ (∀ (i : nat) msg, messages !! i = Some msg → is_flat msg →
                      messages_after r !! i = Some msg)
  ∧ (∃ request,
       request_sent r = Some request
       ∧ req_stream request = false
       ∧ req_messages request
         = match system with
           | Some (c :: prompt) =>
               [mkMessage "system" (ContentValue (PyStr (c :: prompt)))]
           | _ => []
           end ++ messages_after r)
  ∧ messages_after
      (chat_completion self requests_post (messages_after r) system)
    = messages_after r.
Proof.
  intros Hall r. subst r. unfold chat_completion.
  destruct (flatten_messages_Ok messages Hall)
    as (messages' & -> & Hflat & Hroles & Hsame).
  cbn [messages_after request_sent].
  rewrite (flatten_messages_flat messages' Hflat). cbn [messages_after].
  split_and!; [done..| |done].
  eexists. by split_and!.
Qed.

(** Failures are yielded, not raised.  Iterated to its end, a call yields
    exactly one item, or is cancelled while the request is under way, or
    raises; it raises only a [TypeError], only because the text of a text
    part is not a [str], and then before any request is sent.  So every
    failure of the request or of the response comes out as the one yielded
    item. *)
Theorem chat_completion_yields_one_item (self : OllamaNativeLLM)
    (requests_post : OllamaRequest → outcome HttpResponse) messages
    (system : option text) :
  let r := chat_completion self requests_post messages system in
  match yielded_items r with
  | Returns items => length items = 1 ∧ is_Some (request_sent r)
  | Cancelled =>
      ∃ request, request_sent r = Some request
                 ∧ requests_post request = Cancelled
  | Raises e =>
      request_sent r = None ∧ (∃ m, e = TypeError m)
      ∧ ¬ Forall well_typed messages
  end.
Proof.
  intros r. subst r. unfold chat_completion.
  destruct (flatten_messages messages) as [messages' [processed|e]] eqn:Hflat;
    cbn [yielded_items request_sent].
  - destruct (requests_post _) as [response|e|] eqn:Hpost.
    + destruct (negb (status_code response =? 200)%Z); [by eauto|].
      destruct (message_content response) as [[content|]|e]; by eauto.
    + by eauto.
    + eexists. by split.
  - split; [done|]. by eapply flatten_messages_Raise.
Qed.

End OllamaProperties.

(** * The properties at work in the concrete environment *)

Section ScenarioProperties.
#[local] Existing Instance demo_externals.

(** The scenario of three segments: the channel receives A, B, C in this
    order although B was synthesized first, and C without audio. *)
Example three_segments_in_order :
  outbound (run demo_world three_segments)
  = [AudioMsg (demo_audio_payload "A"); AudioMsg (demo_audio_payload "B");
     AudioMsg (demo_silent_payload "C")].
Proof. vm_compute. reflexivity. Qed.

Lemma three_segments_reliable : Forall reliable_event three_segments.
Proof. repeat constructor. Qed.

Lemma three_segments_quiescent : quiescent (run demo_world three_segments).
Proof. vm_compute. split; [by repeat constructor|done]. Qed.

(** The order of delivery at work when no send fails: the payloads arriving
    in the order 1, 2, 0, and the scenario of three segments run to the
    end. *)
Lemma order_on_reliable_channel_witness :
  let payloads := [demo_audio_payload "A"; demo_audio_payload "B";
                   demo_silent_payload "C"] in
  let arrivals := [(demo_audio_payload "B", 1); (demo_silent_payload "C", 2);
                   (demo_audio_payload "A", 0)] in
  (arrivals ≡ₚ zip payloads (seq 0 (length payloads))
   ∧ sent (deliver_all arrivals) = AudioMsg <$> payloads)
  ∧ (Forall reliable_event three_segments
     ∧ quiescent (run demo_world three_segments)
     ∧ _next_sequence_to_send (manager (run demo_world three_segments))
       = length (submitted three_segments)).
Proof.
  intros payloads arrivals.
  assert (arrivals ≡ₚ zip payloads (seq 0 (length payloads))) as Hperm.
  { symmetry. apply (Permutation_cons_append
                       [(demo_audio_payload "B", 1); (demo_silent_payload "C", 2)]). }
  destruct (order_on_reliable_channel payloads arrivals three_segments)
    as [Hsender Hmanager].
  split.
  - split; [exact Hperm|]. exact (proj1 (Hsender Hperm)).
  - split; [exact three_segments_reliable|].
    split; [exact three_segments_quiescent|].
    exact (proj2 (proj2 (Hmanager three_segments_reliable))
             three_segments_quiescent).
Defined.



(** Fallback at work: the engine cannot be reached. *)
Lemma fallback_on_failure_witness :
  synthesis_fails offline_engine (text_of_string "Hello.") "a" = true
  ∧ ∃ w', _process_tts demo_world (text_of_string "Hello.") (Some "A") None
            offline_engine 0 "a" NotCancelled
          = (w', Returns tt)
          ∧ _payload_queue (manager w') = [(demo_silent_payload "A", 0)].
Proof.
  split; [reflexivity|].
  destruct (fallback_on_failure demo_world (text_of_string "Hello.") (Some "A")
              None offline_engine 0 "a" eq_refl)
    as ((w' & Hrun & Hq & _) & _).
  exists w'. split; [exact Hrun|exact Hq].
Defined.

(** A worker that is cancelled while it awaits the engine: the
    [CancelledError] raised at the [await] of the synthesis call is not
    caught, and the segment gets no payload, neither an audio payload nor a
    fallback. *)
Lemma cancelled_worker_enqueues_nothing :
  _process_tts demo_world (text_of_string "Hello.") (Some "A") None
    demo_engine 0 "a" CancelledWhileGenerating
  = (add_log demo_world (LogGenerating (text_of_string "Hello.")), Cancelled)
  ∧ _payload_queue
      (manager (add_log demo_world (LogGenerating (text_of_string "Hello."))))
    = [].
Proof. split; reflexivity. Qed.

(** The payload at position 0 is lost and the ones at positions 1 and 2
    stay in the buffer: nothing reaches the channel. *)
Example failed_first_send_stalls :
  let s := _process_payload_queue 0 [] failed_first_send in
  sent s = [] ∧ next_sequence_to_send s = 0
  ∧ buffered_payloads s !! 0 = None
  ∧ buffered_payloads s !! 1 = Some (demo_audio_payload "B")
  ∧ buffered_payloads s !! 2 = Some (demo_silent_payload "C").
Proof. vm_compute. by split_and!. Qed.

(** A failed send at work: position 0 fails, positions 1 and 2 arrive
    afterwards. *)
Lemma send_failure_stalls_witness :
  let later := [(send_ok, (demo_audio_payload "B", 1));
                (send_ok, (demo_silent_payload "C", 2))] in
  Forall (λ it : WebSocketSend * (Payload * nat), it.2.2 ≠ 0) later
  ∧ sent (_process_payload_queue 0 []
            ((send_fail, (demo_audio_payload "A", 0)) :: later)) = [].
Proof.
  intros later.
  assert (Forall (λ it : WebSocketSend * (Payload * nat), it.2.2 ≠ 0) later)
    as Hlater by (by repeat constructor).
  split; [exact Hlater|].
  exact (proj1 (proj2 (send_failure_stalls [] later send_fail _
                         (demo_audio_payload "A") eq_refl Hlater))).
Defined.

(** Reset at work: a submission after [clear] in a manager that has handed
    out a sequence number before. *)
Lemma clear_resets_witness :
  ∃ w', speak (clear (run demo_world [demo_speak "Hello" "old"]))
          (PyStr (text_of_string "Hi")) (Some "new") None demo_engine = Ok w'
        ∧ _sequence_counter (manager w') = 1.
Proof.
  destruct (speak (clear (run demo_world [demo_speak "Hello" "old"]))
              (PyStr (text_of_string "Hi")) (Some "new") None demo_engine)
    as [w'|e] eqn:Hspeak; [|vm_compute in Hspeak; discriminate].
  exists w'. split; [reflexivity|].
  destruct (clear_resets (run demo_world [demo_speak "Hello" "old"]))
    as (_ & _ & _ & _ & _ & _ & _ & _ & Hnext & _).
  exact (proj1 (Hnext _ _ _ _ _ Hspeak)).
Defined.

(** Against C5 as stated: the payload of the segment submitted before
    [clear], enqueued by its worker after [clear], is the one that goes out
    in the next turn, in the place of position 0; the payload of the new
    segment, which holds position 0 too, stays in the buffer. *)
Lemma stale_payload_flushed :
  outbound (run demo_world interrupted_turn) = [AudioMsg (demo_audio_payload "old")]
  ∧ _sender_task (manager (run demo_world interrupted_turn))
    = Some (SenderRunning {[0 := demo_audio_payload "new"]})
  ∧ _next_sequence_to_send (manager (run demo_world interrupted_turn)) = 1.
Proof. vm_compute. by split_and!. Qed.

(** The short-circuit at work on the text of three dots, an exclamation
    mark and a question mark. *)
Lemma silent_short_circuit_witness :
  re_sub_strip (py_str (PyStr (text_of_string "...!?"))) = []
  ∧ ∃ w', speak demo_world (PyStr (text_of_string "...!?")) (Some "A") None
            demo_engine = Ok w'
          ∧ _payload_queue (manager w') = [(demo_silent_payload "A", 0)]
          ∧ tasks w' = [] ∧ engine_calls (log w') = [].
Proof.
  split; [reflexivity|].
  destruct (silent_short_circuit demo_world (PyStr (text_of_string "...!?"))
              (Some "A") None demo_engine eq_refl)
    as (w' & Hspeak & Hq & _ & _ & _ & _ & Hts & _ & Hcalls & _).
  exists w'. split_and!; [exact Hspeak|exact Hq|exact Hts|exact Hcalls].
Defined.

(** Normalization at work on the windows 10, 20, 0, 40, 20. *)
Lemma loudness_normalization_witness :
  Exists (λ v, v ≠ 0%N) (map rms (make_chunks demo_audio 20))
  ∧ ∃ envelope, _get_volume_by_chunks demo_audio 20 = Ok envelope
                ∧ Forall2 Qeq envelope [0.25; 0.5; 0; 1; 0.5]%Q.
Proof.
  assert (Exists (λ v, v ≠ 0%N) (map rms (make_chunks demo_audio 20)))
    as Hex by (by apply Exists_cons_hd).
  split; [exact Hex|].
  destruct (loudness_normalization demo_audio 20 Hex)
    as (m & _ & _ & _ & Hrun & _ & _ & Hvalues).
  eexists. split; [exact Hrun|]. exact (Hvalues eq_refl).
Defined.

(** Three silent windows. *)
Lemma all_silence_raises_witness :
  Forall (λ v, v = 0%N) (map rms (make_chunks demo_silence 20))
  ∧ ∃ msg, _get_volume_by_chunks demo_silence 20 = Raise (ValueError msg).
Proof.
  assert (Forall (λ v, v = 0%N) (map rms (make_chunks demo_silence 20))) as Hall
    by (by repeat constructor).
  split; [exact Hall|]. exact (all_silence_raises demo_silence 20 Hall).
Defined.

(** The completion signal at work: one segment, synthesized, then the wait. *)
Lemma synth_complete_signal_witness :
  let w := run demo_world [demo_speak "Hello." "A"; EvWorker 0 "a"] in
  task_list (manager w) ≠ []
  ∧ Forall (λ task_id, task_done w task_id = true) (task_list (manager w))
  ∧ ∃ w', wait_for_pending_tts w send_ok = Some (Ok w')
          ∧ outbound w' = outbound w ++ [SynthComplete].
Proof.
  intros w.
  assert (task_list (manager w) ≠ []) as Hne by done.
  assert (Forall (λ task_id, task_done w task_id = true) (task_list (manager w)))
    as Hall by (by repeat constructor).
  split; [exact Hne|]. split; [exact Hall|].
  destruct (synth_complete_signal w send_ok) as (_ & _ & Hsignal & _).
  destruct (Hsignal Hne Hall eq_refl) as (w' & Hwait & Hout & _).
  exists w'. split; [exact Hwait|exact Hout].
Defined.

(** Against C9 as stated: in a turn of punctuation-only segments no task
    is spawned, and the step sends no completion signal. *)
Lemma silent_turn_no_signal :
  task_list (manager (run demo_world silent_turn)) = []
  ∧ outbound (run demo_world silent_turn)
    = [AudioMsg (demo_silent_payload "A"); AudioMsg (demo_silent_payload "B")]
  ∧ SynthComplete ∉ outbound (run demo_world silent_turn).
Proof.
  vm_compute. split_and!; [done..|].
  intros Hin. repeat (apply elem_of_cons in Hin as [Hin|Hin]; [done|]).
  by apply elem_of_nil in Hin.
Qed.

(** Coercion at work on the integer 42. *)
Lemma speak_coerces_text_witness :
  isinstance_str (PyInt 42) = false
  ∧ speak demo_world (PyInt 42) (Some "A") None demo_engine
    = speak demo_world (PyStr (text_of_string "42")) (Some "A") None demo_engine.
Proof.
  split; [reflexivity|].
  exact (proj1 (speak_coerces_text demo_world (PyInt 42) (Some "A") None
                  demo_engine)).
Defined.

(** A text argument whose [__str__] returns an [int]: it is not a [str],
    and [speak] raises [TypeError] on account of it. *)
Lemma speak_raises_type_error :
  builtin_str broken_str
  = Raise (TypeError "__str__ returned non-string (type int)")
  ∧ speak demo_world broken_str (Some "A") None demo_engine
    = Raise (TypeError "__str__ returned non-string (type int)").
Proof. split; reflexivity. Qed.

(** ** The further properties at work *)

(** The envelope of the windows 10, 20, 0, 40, 20 has five values. *)
Lemma envelope_shape_witness :
  ∃ envelope, _get_volume_by_chunks demo_audio 20 = Ok envelope
              ∧ length envelope = length (make_chunks demo_audio 20).
Proof.
  eexists. split; [reflexivity|].
  exact (proj1 (envelope_shape demo_audio 20 _ eq_refl)).
Defined.

(** The same recording three times as loud gets the same envelope. *)
Lemma envelope_scale_invariant_witness :
  3%N ≠ 0%N
  ∧ map rms (make_chunks demo_loud_audio 20)
    = map (N.mul 3) (map rms (make_chunks demo_audio 20))
  ∧ match _get_volume_by_chunks demo_audio 20,
          _get_volume_by_chunks demo_loud_audio 20 with
    | Ok envelope1, Ok envelope2 => Forall2 Qeq envelope1 envelope2
    | Raise _, Raise _ => True
    | _, _ => False
    end.
Proof.
  assert (3%N ≠ 0%N) as Hc by done.
  split; [exact Hc|]. split; [reflexivity|].
  exact (envelope_scale_invariant demo_audio demo_loud_audio 20 20 3 Hc eq_refl).
Defined.

(** The payload built from a decodable file. *)
Lemma payload_schema_witness :
  prepare_audio_payload (Ext := demo_externals) (Some "a.mp3") 20 (Some "A")
    None false
  = Ok (demo_audio_payload "A")
  ∧ (pl_audio (demo_audio_payload "A") = None
     ↔ pl_volumes (demo_audio_payload "A") = []).
Proof.
  split; [reflexivity|].
  destruct (payload_schema (Ext := demo_externals) (Some "a.mp3") 20 (Some "A")
              None false (demo_audio_payload "A") eq_refl)
    as (_ & _ & _ & _ & _ & _ & _ & Hiff).
  exact Hiff.
Defined.

(** A file that cannot be decoded. *)
Lemma payload_error_is_value_error_witness :
  (20 ≠ 0)%Z
  ∧ ∃ e, prepare_audio_payload (Ext := demo_externals) (Some "corrupt.mp3") 20
           (Some "A") None false
         = Raise e
         ∧ ∃ msg, e = ValueError msg.
Proof.
  assert (20 ≠ 0)%Z as Hlength by lia.
  split; [exact Hlength|].
  eexists. split; [reflexivity|].
  exact (proj2 (payload_error_is_value_error (Ext := demo_externals)
                  (Some "corrupt.mp3") 20 (Some "A") None false _ Hlength
                  eq_refl)).
Defined.

(** A submission right after [clear], while the cancelled sender is still
    there. *)
Lemma speak_before_sender_exit_witness :
  let w := run demo_world [demo_speak "Hello" "old"] in
  _sender_task (manager w) = Some (SenderRunning ∅)
  ∧ ∃ w', speak (clear w) (PyStr (text_of_string "Hi")) (Some "new") None
            demo_engine = Ok w'
          ∧ _sender_task (manager w') = Some SenderCancelling.
Proof.
  intros w.
  assert (_sender_task (manager w) = Some (SenderRunning ∅)) as Hrun
    by reflexivity.
  split; [exact Hrun|].
  destruct (speak (clear w) (PyStr (text_of_string "Hi")) (Some "new") None
              demo_engine) as [w'|e] eqn:Hspeak;
    [|vm_compute in Hspeak; discriminate].
  exists w'. split; [reflexivity|].
  exact (proj1 (speak_before_sender_exit w ∅ _ _ _ _ w' Hrun Hspeak)).
Defined.

(** Position 1 arrives twice while the sender waits for position 0. *)
Lemma duplicate_sequence_number_overwrites_witness :
  buffered_payloads demo_sender !! next_sequence_to_send demo_sender = None
  ∧ 1 ≠ next_sequence_to_send demo_sender
  ∧ sender_iteration send_ok (demo_audio_payload "new", 1)
      (sender_iteration send_ok (demo_audio_payload "old", 1) demo_sender)
    = sender_iteration send_ok (demo_audio_payload "new", 1) demo_sender.
Proof.
  assert (buffered_payloads demo_sender !! next_sequence_to_send demo_sender
          = None) as Hnone by reflexivity.
  assert (1 ≠ next_sequence_to_send demo_sender) as Hk by (cbn; lia).
  split; [exact Hnone|]. split; [exact Hk|].
  exact (duplicate_sequence_number_overwrites send_ok send_ok
           (demo_audio_payload "old") (demo_audio_payload "new") 1 demo_sender
           Hnone Hk).
Defined.

Lemma lossy_turn_lifecycle : Forall lifecycle_event lossy_turn.
Proof. repeat constructor. Qed.



(** The turn on the channel that breaks: "A" has gone out, "B" is lost, and
    what has gone out is the first of the two segments submitted. *)
Example lossy_turn_delivers_prefix :
  outbound (run demo_world lossy_turn) = [AudioMsg (demo_silent_payload "A")]
  ∧ _next_sequence_to_send (manager (run demo_world lossy_turn)) = 1
  ∧ submitted lossy_turn = [(Some "A", None); (Some "B", None)].
Proof. vm_compute. by split_and!. Qed.

Lemma delivery_order_despite_failures_witness :
  Forall lifecycle_event lossy_turn
  ∧ Forall2 (λ (p : Payload) (segment : option DisplayText * option Actions),
               pl_display_text p = display_to_dict <$> segment.1
               ∧ pl_actions p = actions_to_dict <$> segment.2)
      (audio_payloads (outbound (run demo_world lossy_turn)))
      (take (_next_sequence_to_send (manager (run demo_world lossy_turn)))
         (submitted lossy_turn)).
Proof.
  split; [exact lossy_turn_lifecycle|].
  exact (delivery_order_despite_failures lossy_turn lossy_turn_lifecycle).
Defined.

End ScenarioProperties.

Section TurnScenarioProperties.
#[local] Existing Instance demo_turn_types.

(** The concrete turn from its start to its end: the stream breaks after
    its fourth item, the failure is reported, and the turn goes on to record
    and return the partial answer. *)
Example demo_turn_trace :
  process_single_conversation demo_collaborators demo_context None None
  = (mkTurn
       [CallStartSignals; Logged TurnStarted; CallProcessUserInput;
        CallCreateBatchInput (text_of_string "hi");
        CallStoreMessage Human (text_of_string "hi") "Human";
        Logged (TurnUserInput (text_of_string "hi"));
        CallProcessAgentOutput "Hello "
          (Returns (PyStr (text_of_string "Hello ")));
        Logged TurnToolStatus; CallSend (MsgToolStatus "running" "Mao");
        Logged TurnSentenceFallback;
        CallProcessAgentOutput "world"
          (Returns (PyStr (text_of_string "world")));
        Logged TurnUnexpectedType; Logged TurnUnexpectedContent;
        Logged (TurnStreamError (ValueError "stream broke"));
        CallSend (MsgError
                    (text_of_string
                       "Error processing agent response: stream broke"));
        CallGather; CallSend MsgSynthComplete; CallFinalize;
        CallStoreMessage AI (text_of_string "Hello world") "Mao";
        Logged (TurnAIResponse (text_of_string "Hello world"));
        CallSend (MsgFullText (text_of_string "Hello world") "Mao" "mao.png");
        CallCleanup]
       (text_of_string "Hello world"),
     Returns (text_of_string "Hello world")).
Proof. vm_compute. reflexivity. Qed.

(** The turn on the closed channel: the start signals go through (they
    are a collaborator of their own), the first output is processed, the tool
    status cannot be sent, nor can the report of that failure; the turn
    reports the failure once more and raises. *)
Example closed_channel_trace :
  sends (trace (process_single_conversation closed_channel demo_context
                  None None).1)
  = [MsgToolStatus "running" "Mao";
     MsgError (text_of_string "Error processing agent response: closed");
     MsgError (text_of_string "Conversation error: closed")]
  ∧ (process_single_conversation closed_channel demo_context None None).2
    = Raises (OtherException "ConnectionClosed" "closed").
Proof. vm_compute. by split. Qed.

Lemma cleanup_runs_last_witness :
  ∃ tr, trace (process_single_conversation closed_channel demo_context
                 None None).1 = tr ++ [CallCleanup]
        ∧ CallCleanup ∉ tr.
Proof.
  destruct (cleanup_runs_last closed_channel demo_context None None)
    as (tr & Htrace & Hnot & _).
  exists tr. split; [exact Htrace|exact Hnot].
Defined.

Lemma response_is_concatenation_witness :
  (process_single_conversation demo_collaborators demo_context None None).2
  = Returns (text_of_string "Hello world")
  ∧ text_of_string "Hello world"
    = response_text
        (trace (process_single_conversation demo_collaborators demo_context
                  None None).1).
Proof.
  assert ((process_single_conversation demo_collaborators demo_context
             None None).2 = Returns (text_of_string "Hello world")) as Hret
    by reflexivity.
  split; [exact Hret|].
  exact (proj2 (response_is_concatenation demo_collaborators demo_context
                  None None) _ Hret).
Defined.

Lemma answer_recorded_witness :
  (process_single_conversation demo_collaborators demo_context None None).2
  = Returns (text_of_string "Hello world")
  ∧ str_truthy (history_uid demo_context) = true
  ∧ text_of_string "Hello world" ≠ []
  ∧ MsgFullText (text_of_string "Hello world") "Mao" "mao.png"
    ∈ sends (trace (process_single_conversation demo_collaborators
                      demo_context None None).1).
Proof.
  assert ((process_single_conversation demo_collaborators demo_context
             None None).2 = Returns (text_of_string "Hello world")) as Hret
    by reflexivity.
  assert (str_truthy (history_uid demo_context) = true) as Hhist
    by reflexivity.
  assert (text_of_string "Hello world" ≠ []) as Hne by discriminate.
  split; [exact Hret|]. split; [exact Hhist|]. split; [exact Hne|].
  exact (proj2 (proj2 (proj2 (answer_recorded demo_collaborators demo_context
                                None None)) _ Hret Hhist Hne)).
Defined.

Lemma failure_is_reported_witness :
  (turn_body interrupted_input demo_context None None init_turn).2 = Cancelled
  ∧ sends (trace (process_single_conversation interrupted_input demo_context
                    None None).1)
    = sends (trace (turn_body interrupted_input demo_context None None
                      init_turn).1).
Proof.
  assert ((turn_body interrupted_input demo_context None None init_turn).2
          = Cancelled) as Hc by reflexivity.
  split; [exact Hc|].
  destruct (failure_is_reported interrupted_input demo_context None None)
    as (Hsends & _).
  rewrite Hsends, Hc. apply app_nil_r.
Defined.

Lemma stream_processed_in_order_witness :
  (∀ h o, ∃ response_part,
     process_agent_output demo_collaborators h o = Returns response_part)
  ∧ (∀ h m, websocket_send demo_collaborators h m = Returns tt)
  ∧ ∃ outputs,
      processed (trace (agent_response demo_collaborators demo_context
                          (text_of_string "hi") init_turn).1)
      = outputs
      ∧ outputs = processable (yielded demo_stream).
Proof.
  assert (∀ h o, ∃ response_part,
            process_agent_output demo_collaborators h o = Returns response_part)
    as Hproc by (intros h o; eexists; reflexivity).
  assert (∀ h m, websocket_send demo_collaborators h m = Returns tt) as Hsend
    by reflexivity.
  split; [exact Hproc|]. split; [exact Hsend|].
  destruct (stream_processed_in_order demo_collaborators demo_context
              (text_of_string "hi") init_turn)
    as (outputs & Hout & _ & Hall).
  exists outputs. split; [exact Hout|]. exact (proj1 (Hall Hproc Hsend)).
Defined.

Lemma stream_failure_contained_witness :
  (agent_response closed_channel demo_context (text_of_string "hi")
     init_turn).2
  = Raises (OtherException "ConnectionClosed" "closed")
  ∧ ∃ e0 tr,
      websocket_send closed_channel (tr ++ [Logged (TurnStreamError e0)])
        (MsgError (stream_error_message e0))
      = Raises (OtherException "ConnectionClosed" "closed").
Proof.
  assert ((agent_response closed_channel demo_context (text_of_string "hi")
             init_turn).2
          = Raises (OtherException "ConnectionClosed" "closed")) as Hraise
    by reflexivity.
  split; [exact Hraise|].
  destruct (stream_failure_contained closed_channel demo_context
              (text_of_string "hi") init_turn _ Hraise)
    as (e0 & tr & _ & Hsend).
  exists e0, tr. exact Hsend.
Defined.

End TurnScenarioProperties.

Section EdgeScenarioProperties.
#[local] Existing Instance demo_externals.
#[local] Existing Instance demo_edge_externals.

Lemma demo_removed_is_gone (files files' : gset string) (path : string) :
  os_remove files path = Ok files' →
  ∃ e, os_remove files' path = Raise e ∧ is_file_not_found e = true.
Proof.
  cbn. destruct (decide (path ∈ files)) as [Hin|Hin]; [|done].
  intros [= <-]. rewrite decide_False
    by (apply not_elem_of_difference; right; by apply elem_of_singleton).
  eexists. split; reflexivity.
Qed.

(** Synthesis writes the cache file, the removal takes it away again, and
    a second removal does nothing. *)
Example demo_edge_round_trip :
  let generated :=
    TTSEngine_generate_audio demo_edge_engine empty_disk (text_of_string "Hello")
      (Some "a") in
  let removed := TTSEngine_remove_file generated.1 (Some "cache/a.mp3") in
  generated.2 = Ok "cache/a.mp3"
  ∧ generated.1 = disk_with_cache_file
  ∧ removed.1 = mkEdge (fs empty_disk) [EdgeRemoved "cache/a.mp3"]
  ∧ TTSEngine_remove_file removed.1 (Some "cache/a.mp3") = (removed.1, Ok tt).
Proof. cbv zeta. split_and!; vm_compute; reflexivity. Qed.

Lemma edge_remove_file_twice_witness :
  (∀ (files files' : gset string) path,
     os_remove files path = Ok files' →
     ∃ e, os_remove files' path = Raise e ∧ is_file_not_found e = true)
  ∧ fs (TTSEngine_remove_file
          (TTSEngine_remove_file disk_with_cache_file (Some "cache/a.mp3")).1
          (Some "cache/a.mp3")).1
    = fs (TTSEngine_remove_file disk_with_cache_file (Some "cache/a.mp3")).1.
Proof.
  split; [exact demo_removed_is_gone|].
  destruct (edge_remove_file_twice disk_with_cache_file (Some "cache/a.mp3")
              demo_removed_is_gone)
    as (_ & _ & Hfs & _).
  exact Hfs.
Defined.

End EdgeScenarioProperties.

Section FactoryScenarioProperties.
#[local] Existing Instance demo_factory_types.

(** The basic memory agent created twice from the same dicts: the first
    is interrupted the configured way, the second the default way. *)
Example demo_factory_twice :
  let first :=
    create_agent demo_factory "basic_memory_agent" demo_agent_settings
      demo_llm_configs "You are Mao." in
  let second :=
    create_agent demo_factory "basic_memory_agent" demo_agent_settings
      first.1.1 "You are Mao." in
  first.2 = Ok (BasicMemoryAgent "ollama_llm" "You are Mao." (CfgBool true)
                  (CfgStr "regex") (CfgBool false) (CfgStr "system"))
  ∧ first.1.1 = {[ "ollama_llm" := {[ "model" := CfgStr "qwen" ]} ]}
  ∧ second.2 = Ok (BasicMemoryAgent "ollama_llm" "You are Mao." (CfgBool true)
                     (CfgStr "regex") (CfgBool false) (CfgStr "user")).
Proof. cbv zeta. split_and!; vm_compute; reflexivity. Qed.

Lemma interrupt_method_consumed_witness :
  let first :=
    create_agent demo_factory "basic_memory_agent" demo_agent_settings
      demo_llm_configs "You are Mao." in
  let second :=
    create_agent demo_factory "basic_memory_agent" demo_agent_settings
      first.1.1 "You are Mao." in
  ∃ agent agent',
    first.2 = Ok agent
    ∧ interrupt_method_of agent = Some (CfgStr "system")
    ∧ second.2 = Ok agent'
    ∧ interrupt_method_of agent' = Some (CfgStr "user").
Proof.
  intros first second.
  destruct first.2 as [agent|e] eqn:Hfirst;
    [|vm_compute in Hfirst; discriminate].
  destruct second.2 as [agent'|e] eqn:Hsecond;
    [|vm_compute in Hsecond; discriminate].
  assert (interrupt_method_of agent = Some (CfgStr "system")) as Hmethod
    by (vm_compute in Hfirst; by injection Hfirst as <-).
  exists agent, agent'. split; [reflexivity|]. split; [exact Hmethod|].
  split; [reflexivity|].
  destruct (interrupt_method_consumed demo_factory "basic_memory_agent"
              demo_agent_settings demo_llm_configs "You are Mao.")
    as (_ & _ & Huser).
  exact (Huser agent agent' _ Hfirst Hmethod Hsecond).
Defined.

(** The custom agent: "use_mcpp" is one of the optional arguments,
    "echo_count" goes to the extra keyword arguments, and the setting
    "system" is dropped in favour of the system prompt. *)
Example demo_custom_agent :
  ∃ base_args extra_kwargs,
    (create_agent demo_factory "my_agents.EchoAgent" demo_agent_settings
       demo_llm_configs "You are Mao.").2
    = Ok (CustomAgent "EchoAgent" base_args extra_kwargs)
    ∧ extra_kwargs = {[ "echo_count" := CfgInt 3 ]}
    ∧ base_args !! "use_mcpp" = Some (ArgSetting (CfgBool true))
    ∧ base_args !! "system" = Some (ArgSystem "You are Mao.")
    ∧ base_args !! "interrupt_method" = Some (ArgSetting (CfgStr "system")).
Proof. eexists _, _. vm_compute. by split_and!. Qed.

Lemma custom_agent_arguments_witness :
  ∃ base_args extra_kwargs,
    (create_agent demo_factory "my_agents.EchoAgent" demo_agent_settings
       demo_llm_configs "You are Mao.").2
    = Ok (CustomAgent "EchoAgent" base_args extra_kwargs)
    ∧ extra_kwargs !! "llm_provider" = None
    ∧ extra_kwargs !! "system" = None.
Proof.
  destruct (create_agent demo_factory "my_agents.EchoAgent" demo_agent_settings
              demo_llm_configs "You are Mao.").2 as [agent|e] eqn:Hrun;
    [|vm_compute in Hrun; discriminate].
  destruct agent as [| | |agent_class base_args extra_kwargs];
    try (vm_compute in Hrun; discriminate).
  assert (agent_class = "EchoAgent") as ->
    by (vm_compute in Hrun; by injection Hrun as <- _ _).
  exists base_args, extra_kwargs. split; [reflexivity|].
  destruct (custom_agent_arguments demo_factory "my_agents.EchoAgent"
              demo_agent_settings demo_llm_configs "You are Mao." "EchoAgent"
              base_args extra_kwargs Hrun)
    as (_ & Hprovider & Hbase & _).
  split; [exact Hprovider|].
  apply Hbase. unfold base_arg_names. apply list_elem_of_further, list_elem_of_here.
Defined.

End FactoryScenarioProperties.

Section OllamaScenarioProperties.

(** The concrete conversation: the parts are joined with single spaces,
    the empty text of the third part included; the answer is left as it is;
    the status 500 is yielded as an error text. *)
Example demo_chat_completion :
  let r := chat_completion demo_ollama failing_server demo_messages
             (Some (text_of_string "You are Mao.")) in
  messages_after r
  = [mkMessage "user" (ContentValue (PyStr (text_of_string "What is  this?")));
     mkMessage "assistant" (ContentValue (PyStr (text_of_string "A cat.")))]
  ∧ yielded_items r
    = Returns [PyStr (text_of_string "Error: Ollama returned 500")]
  ∧ (req_url <$> request_sent r) = Some "http://localhost:11434/api/chat"
  ∧ (length ∘ req_messages <$> request_sent r) = Some 3.
Proof. vm_compute. by split_and!. Qed.

Lemma demo_messages_well_typed : Forall well_typed demo_messages.
Proof. repeat constructor. Qed.

Lemma chat_completion_rewrites_messages_witness :
  Forall well_typed demo_messages
  ∧ Forall is_flat
      (messages_after
         (chat_completion demo_ollama failing_server demo_messages None)).
Proof.
  split; [exact demo_messages_well_typed|].
  exact (proj1 (chat_completion_rewrites_messages demo_ollama failing_server
                  demo_messages None demo_messages_well_typed)).
Defined.

(** A text part whose text is [None]: the call raises before it sends
    anything, and the first message of the caller is rewritten all the same. *)
Example broken_messages_raise :
  let r := chat_completion demo_ollama failing_server broken_messages None in
  yielded_items r = Raises (TypeError "sequence item: expected str instance")
  ∧ request_sent r = None
  ∧ messages_after r
    = [mkMessage "user" (ContentValue (PyStr (text_of_string "Hi")));
       mkMessage "user" (ContentParts [TextPart (Some PyNone)])].
Proof. vm_compute. by split_and!. Qed.

Lemma chat_completion_yields_one_item_witness :
  yielded_items
    (chat_completion demo_ollama failing_server broken_messages None)
  = Raises (TypeError "sequence item: expected str instance")
  ∧ ¬ Forall well_typed broken_messages.
Proof.
  assert (yielded_items
            (chat_completion demo_ollama failing_server broken_messages None)
          = Raises (TypeError "sequence item: expected str instance"))
    as Hraise by reflexivity.
  split; [exact Hraise|].
  pose proof (chat_completion_yields_one_item demo_ollama failing_server
                broken_messages None) as Hone.
  cbv zeta in Hone. rewrite Hraise in Hone.
  exact (proj2 (proj2 Hone)).
Defined.

End OllamaScenarioProperties.
